(** * swaylock background-image: pixel-format kernels and output transforms

    A shallow embedding of [background-image.c]: the in-place
    [cairo_rgb24_from_*] conversion kernels, [parse_background_mode] and
    [load_background_from_buffer], over a byte-addressed buffer model.

    Conventions.
    - A buffer is a [list byte]; an address is a byte offset from the start
      of the buffer, held in [Z].  An access that leaves the buffer has no
      defined behaviour in C; here it yields [None].
    - [int] arithmetic of the kernels goes through [int_arith], which yields
      [None] when the mathematical result leaves the range of a 32-bit
      [int] (signed overflow is undefined).
    - [size_t] arithmetic of [load_background_from_buffer] is done in [Z]:
      its operands are [uint32_t] values widened to [size_t], and
      subtractions such as [destwidth - destx - 1] stay non-negative inside
      the loops, so no wrap-around occurs at addresses inside a buffer.
    - The byte order of the host is a parameter ([endianness]). *)

From Stdlib Require Import ZArith Lia List String Ascii.
From stdpp Require Import base option list list_numbers.
From coqutil Require Import Byte Z.bitblast.

Local Open Scope Z_scope.

(** ** Byte-addressed buffers *)

Module Mem.

Definition in_range (buf : list byte) (a n : Z) : Prop :=
  0 <= a /\ 0 <= n /\ a + n <= Z.of_nat (length buf).

#[global] Instance in_range_dec buf a n : Decision (in_range buf a n).
Proof. unfold in_range. apply _. Defined.

(** [n] bytes starting at address [a]. *)
Definition bytes_at (buf : list byte) (a n : Z) : option (list byte) :=
  if decide (in_range buf a n)
  then Some (take (Z.to_nat n) (drop (Z.to_nat a) buf))
  else None.

(** Overwrite [length bs] bytes starting at address [a]. *)
Definition write_bytes (buf : list byte) (a : Z) (bs : list byte)
  : option (list byte) :=
  if decide (in_range buf a (Z.of_nat (length bs)))
  then Some (take (Z.to_nat a) buf ++ bs
             ++ drop (Z.to_nat a + length bs) buf)
  else None.

(** [p[k]] for an [unsigned char *p]. *)
Definition load8 (buf : list byte) (a : Z) : option byte :=
  if decide (0 <= a) then buf !! Z.to_nat a else None.

(** [memcpy (dest + d, src + s, n)] between two distinct buffers. *)
Definition memcpy (dest : list byte) (d : Z) (src : list byte) (s n : Z)
  : option (list byte) :=
  bs ← bytes_at src s n; write_bytes dest d bs.

End Mem.

(** ** 32-bit words and byte order *)

Inductive endianness := LittleEndian | BigEndian.

(** The value of four bytes read as a little-endian 32-bit word. *)
Definition le32 (b0 b1 b2 b3 : byte) : Z :=
  Z.lor (Z.lor (Z.lor (byte.unsigned b0)
                      (Z.shiftl (byte.unsigned b1) 8))
               (Z.shiftl (byte.unsigned b2) 16))
        (Z.shiftl (byte.unsigned b3) 24).

(** The native [uint32_t] held in a four-byte cell, and back. *)
Definition word_of_cell (e : endianness) (c : list byte) : Z :=
  match c with
  | [b0; b1; b2; b3] =>
      match e with
      | LittleEndian => le32 b0 b1 b2 b3
      | BigEndian => le32 b3 b2 b1 b0
      end
  | _ => 0
  end.

Definition cell_of_word (e : endianness) (w : Z) : list byte :=
  let b0 := byte.of_Z w in
  let b1 := byte.of_Z (Z.shiftr w 8) in
  let b2 := byte.of_Z (Z.shiftr w 16) in
  let b3 := byte.of_Z (Z.shiftr w 24) in
  match e with
  | LittleEndian => [b0; b1; b2; b3]
  | BigEndian => [b3; b2; b1; b0]
  end.

(** [*(uint32_t * )p] as an rvalue and as an lvalue. *)
Definition load32 (e : endianness) (buf : list byte) (a : Z) : option Z :=
  word_of_cell e <$> Mem.bytes_at buf a 4.

Definition store32 (e : endianness) (buf : list byte) (a w : Z)
  : option (list byte) :=
  Mem.write_bytes buf a (cell_of_word e w).

Definition bswap32 (w : Z) : Z :=
  Z.lor (Z.lor (Z.lor (Z.shiftl (Z.land w 255) 24)
                      (Z.shiftl (Z.land (Z.shiftr w 8) 255) 16))
               (Z.shiftl (Z.land (Z.shiftr w 16) 255) 8))
        (Z.land (Z.shiftr w 24) 255).

Definition le32toh (e : endianness) (w : Z) : Z :=
  match e with
  | LittleEndian => w
  | BigEndian => bswap32 w
  end.

(** ** [int] arithmetic and loops *)

Definition INT_MIN : Z := - 2 ^ 31.
Definition INT_MAX : Z := 2 ^ 31 - 1.

Definition int_arith (v : Z) : option Z :=
  if decide (INT_MIN <= v <= INT_MAX) then Some v else None.

(** [for (i in idx) body], stopping at the first undefined step. *)
Fixpoint for_loop {A} (idx : list Z) (body : Z -> A -> option A) (a : A)
  : option A :=
  match idx with
  | [] => Some a
  | i :: idx' =>
      match body i a with
      | Some a' => for_loop idx' body a'
      | None => None
      end
  end.

(** [for (int i = 0; i < n; ++i)] and [for (int i = first; i >= 0; --i)]. *)
Definition upto (n : Z) : list Z := seqZ 0 n.
Definition downfrom (first : Z) : list Z := reverse (seqZ 0 (first + 1)).

(** ** The conversion kernels

    Each kernel walks the image row by row and rewrites every pixel cell in
    place.  [pixel_offset y stride x n] is the offset of
    [buf + y * stride + x * n]: two [int] products added to a pointer. *)

Definition pixel_offset (y stride x n : Z) : option Z :=
  row ← int_arith (y * stride);
  col ← int_arith (x * n);
  Some (row + col).

(** [0 | (uint32_t)r << 16 | (uint32_t)g << 8 | (uint32_t)b]. *)
Definition rgb24 (r g b : byte) : Z :=
  Z.lor (Z.lor (Z.lor 0 (Z.shiftl (byte.unsigned r) 16))
               (Z.shiftl (byte.unsigned g) 8))
        (byte.unsigned b).

(** Cairo RGB24 uses 32 bits per pixel, as XRGB, in native endianness.
    xrgb32_le uses 32 bits per pixel, as XRGB, little endian. *)
Definition cairo_rgb24_from_xrgb32_le (e : endianness) (buf : list byte)
    (width height stride : Z) : option (list byte) :=
  for_loop (upto height) (fun y =>
    for_loop (upto width) (fun x buf =>
      pix ← pixel_offset y stride x 4;
      p2 ← Mem.load8 buf (pix + 2);
      p1 ← Mem.load8 buf (pix + 1);
      p0 ← Mem.load8 buf pix;
      store32 e buf pix (rgb24 p2 p1 p0))) buf.

(** xbgr32_le uses 32 bits per pixel, as XBGR, little endian. *)
Definition cairo_rgb24_from_xbgr32_le (e : endianness) (buf : list byte)
    (width height stride : Z) : option (list byte) :=
  for_loop (upto height) (fun y =>
    for_loop (upto width) (fun x buf =>
      pix ← pixel_offset y stride x 4;
      p0 ← Mem.load8 buf pix;
      p1 ← Mem.load8 buf (pix + 1);
      p2 ← Mem.load8 buf (pix + 2);
      store32 e buf pix (rgb24 p0 p1 p2))) buf.

(** The right-hand sides of the four 10-bit kernels, on the word [color]. *)
Definition xrgb2101010_to_rgb24 (color : Z) : Z :=
  Z.lor (Z.lor (Z.lor 0 (Z.shiftl (Z.land (Z.shiftr color 22) 255) 16))
               (Z.shiftl (Z.land (Z.shiftr color 12) 255) 8))
        (Z.land (Z.shiftr color 2) 255).

Definition xbgr2101010_to_rgb24 (color : Z) : Z :=
  Z.lor (Z.lor (Z.lor 0 (Z.shiftl (Z.land (Z.shiftr color 2) 255) 16))
               (Z.shiftl (Z.land (Z.shiftr color 12) 255) 8))
        (Z.land (Z.shiftr color 22) 255).

Definition rgbx1010102_to_rgb24 (color : Z) : Z :=
  Z.lor (Z.lor (Z.lor 0 (Z.shiftl (Z.land (Z.shiftr color 24) 255) 16))
               (Z.shiftl (Z.land (Z.shiftr color 14) 255) 8))
        (Z.land (Z.shiftr color 4) 255).

Definition bgrx1010102_to_rgb24 (color : Z) : Z :=
  Z.lor (Z.lor (Z.lor 0 (Z.shiftl (Z.land (Z.shiftr color 4) 255) 16))
               (Z.shiftl (Z.land (Z.shiftr color 14) 255) 8))
        (Z.land (Z.shiftr color 24) 255).

Definition cairo_rgb24_from_xrgb2101010_le (e : endianness)
    (buf : list byte) (width height stride : Z) : option (list byte) :=
  for_loop (upto height) (fun y =>
    for_loop (upto width) (fun x buf =>
      pix ← pixel_offset y stride x 4;
      word ← load32 e buf pix;
      let color := le32toh e word in
      store32 e buf pix (xrgb2101010_to_rgb24 color))) buf.

Definition cairo_rgb24_from_xbgr2101010_le (e : endianness)
    (buf : list byte) (width height stride : Z) : option (list byte) :=
  for_loop (upto height) (fun y =>
    for_loop (upto width) (fun x buf =>
      pix ← pixel_offset y stride x 4;
      word ← load32 e buf pix;
      let color := le32toh e word in
      store32 e buf pix (xbgr2101010_to_rgb24 color))) buf.

Definition cairo_rgb24_from_rgbx1010102_le (e : endianness)
    (buf : list byte) (width height stride : Z) : option (list byte) :=
  for_loop (upto height) (fun y =>
    for_loop (upto width) (fun x buf =>
      pix ← pixel_offset y stride x 4;
      word ← load32 e buf pix;
      let color := le32toh e word in
      store32 e buf pix (rgbx1010102_to_rgb24 color))) buf.

Definition cairo_rgb24_from_bgrx1010102_le (e : endianness)
    (buf : list byte) (width height stride : Z) : option (list byte) :=
  for_loop (upto height) (fun y =>
    for_loop (upto width) (fun x buf =>
      pix ← pixel_offset y stride x 4;
      word ← load32 e buf pix;
      let color := le32toh e word in
      store32 e buf pix (bgrx1010102_to_rgb24 color))) buf.

(** BGR888 uses 24 bits per pixel, as BGR, little endian.  Each row is
    walked from back to front to avoid overwriting data. *)
Definition widen_bgr888_pixel (e : endianness) (stride y x : Z)
    (buf : list byte) : option (list byte) :=
  (* 24 bits = 3 bytes, 32 bits = 4 bytes *)
  srcpix ← pixel_offset y stride x 3;
  dstpix ← pixel_offset y stride x 4;
  s0 ← Mem.load8 buf srcpix;
  s1 ← Mem.load8 buf (srcpix + 1);
  s2 ← Mem.load8 buf (srcpix + 2);
  store32 e buf dstpix (rgb24 s0 s1 s2).

Definition cairo_rgb24_from_bgr888_le (e : endianness) (buf : list byte)
    (width height stride : Z) : option (list byte) :=
  for_loop (upto height) (fun y buf =>
    (* [int x = width-1] *)
    first ← int_arith (width - 1);
    for_loop (downfrom first) (widen_bgr888_pixel e stride y) buf) buf.

(** Swap red and blue values in Cairo RGB24. *)
Definition cairo_rgb24_swap_rb (e : endianness) (buf : list byte)
    (width height stride : Z) : option (list byte) :=
  for_loop (upto height) (fun y =>
    for_loop (upto width) (fun x buf =>
      pix ← pixel_offset y stride x 4;
      p0 ← Mem.load8 buf pix;
      p1 ← Mem.load8 buf (pix + 1);
      p2 ← Mem.load8 buf (pix + 2);
      store32 e buf pix (rgb24 p0 p1 p2))) buf.

(** ** Logging and [parse_background_mode] *)

Inductive log_importance := LOG_SILENT | LOG_ERROR | LOG_INFO | LOG_DEBUG.

Inductive wl_shm_format :=
| WL_SHM_FORMAT_ARGB8888 | WL_SHM_FORMAT_XRGB8888
| WL_SHM_FORMAT_XBGR8888 | WL_SHM_FORMAT_ABGR8888
| WL_SHM_FORMAT_XRGB2101010 | WL_SHM_FORMAT_ARGB2101010
| WL_SHM_FORMAT_XBGR2101010 | WL_SHM_FORMAT_ABGR2101010
| WL_SHM_FORMAT_RGBX1010102 | WL_SHM_FORMAT_RGBA1010102
| WL_SHM_FORMAT_BGRX1010102 | WL_SHM_FORMAT_BGRA1010102
| WL_SHM_FORMAT_BGR888 | WL_SHM_FORMAT_RGB888
| WL_SHM_FORMAT_other (code : Z).

(** The messages handed to [swaylock_log], with their arguments. *)
Inductive log_message :=
| Unsupported_background_mode (mode : string)
| Failed_to_create_image
| Unknown_pixel_format (format : wl_shm_format).

Definition log_entry : Type := log_importance * log_message.

Inductive background_mode :=
| BACKGROUND_MODE_STRETCH
| BACKGROUND_MODE_FILL
| BACKGROUND_MODE_FIT
| BACKGROUND_MODE_CENTER
| BACKGROUND_MODE_TILE
| BACKGROUND_MODE_SOLID_COLOR
| BACKGROUND_MODE_INVALID.

(** A [string] stands for the character array it spells followed by the
    terminating NUL; [strcmp] compares as unsigned characters and stops at
    the first NUL, also at one inside the [string]. *)
Definition uchar (c : ascii) : Z := Z.of_N (N_of_ascii c).

Fixpoint strcmp (s1 s2 : string) : Z :=
  match s1, s2 with
  | EmptyString, EmptyString => 0
  | EmptyString, String c2 _ => 0 - uchar c2
  | String c1 _, EmptyString => uchar c1 - 0
  | String c1 r1, String c2 r2 =>
      if decide (uchar c1 = uchar c2)
      then if decide (uchar c1 = 0) then 0 else strcmp r1 r2
      else uchar c1 - uchar c2
  end.

(** The characters before the first NUL: what a [char *] denotes. *)
Fixpoint c_str (s : string) : string :=
  match s with
  | EmptyString => EmptyString
  | String c r => if decide (uchar c = 0) then EmptyString else String c (c_str r)
  end.

(** The result and the lines logged. *)
Definition parse_background_mode (mode : string)
  : background_mode * list log_entry :=
  if decide (strcmp mode "stretch" = 0) then (BACKGROUND_MODE_STRETCH, [])
  else if decide (strcmp mode "fill" = 0) then (BACKGROUND_MODE_FILL, [])
  else if decide (strcmp mode "fit" = 0) then (BACKGROUND_MODE_FIT, [])
  else if decide (strcmp mode "center" = 0) then (BACKGROUND_MODE_CENTER, [])
  else if decide (strcmp mode "tile" = 0) then (BACKGROUND_MODE_TILE, [])
  else if decide (strcmp mode "solid_color" = 0)
       then (BACKGROUND_MODE_SOLID_COLOR, [])
  else (BACKGROUND_MODE_INVALID,
        [(LOG_ERROR, Unsupported_background_mode mode)]).

(** ** Output transforms and [load_background_from_buffer] *)

Inductive wl_output_transform :=
| WL_OUTPUT_TRANSFORM_NORMAL
| WL_OUTPUT_TRANSFORM_90
| WL_OUTPUT_TRANSFORM_180
| WL_OUTPUT_TRANSFORM_270
| WL_OUTPUT_TRANSFORM_FLIPPED
| WL_OUTPUT_TRANSFORM_FLIPPED_90
| WL_OUTPUT_TRANSFORM_FLIPPED_180
| WL_OUTPUT_TRANSFORM_FLIPPED_270.

(** What the code reads off a [cairo_surface_t] of format RGB24. *)
Record cairo_surface := {
  surf_data : list byte;
  surf_width : Z;
  surf_height : Z;
  surf_stride : Z
}.

Definition with_data (image : cairo_surface) (data : list byte)
  : cairo_surface :=
  {| surf_data := data;
     surf_width := surf_width image;
     surf_height := surf_height image;
     surf_stride := surf_stride image |}.

Definition rotated (transform : wl_output_transform) : bool :=
  match transform with
  | WL_OUTPUT_TRANSFORM_90 | WL_OUTPUT_TRANSFORM_270
  | WL_OUTPUT_TRANSFORM_FLIPPED_90 | WL_OUTPUT_TRANSFORM_FLIPPED_270 => true
  | _ => false
  end.

(** [*((uint32_t * )(destbuf + desty * deststride) + destx) =
     *((uint32_t * )(srcbuf + srcy * srcstride) + srcx)]. *)
Definition copy_pixel (e : endianness)
    (srcbuf : list byte) (srcstride srcx srcy : Z)
    (destbuf : list byte) (deststride destx desty : Z)
  : option (list byte) :=
  word ← load32 e srcbuf (srcy * srcstride + srcx * 4);
  store32 e destbuf (desty * deststride + destx * 4) word.

(** The [switch (transform)] of [load_background_from_buffer]. *)
Definition transform_switch (e : endianness)
    (transform : wl_output_transform)
    (srcbuf : list byte) (srcstride : Z)
    (destbuf : list byte) (destwidth destheight deststride : Z)
  : option (list byte) :=
  let minstride := if decide (srcstride < deststride)
                   then srcstride else deststride in
  match transform with
  | WL_OUTPUT_TRANSFORM_NORMAL =>
      if decide (srcstride = deststride)
      then Mem.memcpy destbuf 0 srcbuf 0 (destheight * deststride)
      else
        for_loop (upto destheight) (fun y destbuf =>
          Mem.memcpy destbuf (y * deststride) srcbuf (y * srcstride)
                     minstride) destbuf
  | WL_OUTPUT_TRANSFORM_90 =>
      for_loop (upto destheight) (fun desty =>
        let srcx := desty in
        for_loop (upto destwidth) (fun destx destbuf =>
          let srcy := destwidth - destx - 1 in
          copy_pixel e srcbuf srcstride srcx srcy
                     destbuf deststride destx desty)) destbuf
  | WL_OUTPUT_TRANSFORM_180 =>
      for_loop (upto destheight) (fun desty =>
        let srcy := destheight - desty - 1 in
        for_loop (upto destwidth) (fun destx destbuf =>
          let srcx := destwidth - destx - 1 in
          copy_pixel e srcbuf srcstride srcx srcy
                     destbuf deststride destx desty)) destbuf
  | WL_OUTPUT_TRANSFORM_270 =>
      for_loop (upto destheight) (fun desty =>
        let srcx := destheight - desty - 1 in
        for_loop (upto destwidth) (fun destx destbuf =>
          let srcy := destx in
          copy_pixel e srcbuf srcstride srcx srcy
                     destbuf deststride destx desty)) destbuf
  | WL_OUTPUT_TRANSFORM_FLIPPED =>
      for_loop (upto destheight) (fun desty =>
        let srcy := desty in
        for_loop (upto destwidth) (fun destx destbuf =>
          let srcx := destwidth - destx - 1 in
          copy_pixel e srcbuf srcstride srcx srcy
                     destbuf deststride destx desty)) destbuf
  | WL_OUTPUT_TRANSFORM_FLIPPED_90 =>
      for_loop (upto destheight) (fun desty =>
        let srcx := desty in
        for_loop (upto destwidth) (fun destx destbuf =>
          let srcy := destx in
          copy_pixel e srcbuf srcstride srcx srcy
                     destbuf deststride destx desty)) destbuf
  | WL_OUTPUT_TRANSFORM_FLIPPED_180 =>
      for_loop (upto destheight) (fun desty destbuf =>
        let srcy := destheight - desty - 1 in
        Mem.memcpy destbuf (desty * deststride) srcbuf (srcy * srcstride)
                   minstride) destbuf
  | WL_OUTPUT_TRANSFORM_FLIPPED_270 =>
      for_loop (upto destheight) (fun desty =>
        let srcx := destheight - desty - 1 in
        for_loop (upto destwidth) (fun destx destbuf =>
          let srcy := destwidth - destx - 1 in
          copy_pixel e srcbuf srcstride srcx srcy
                     destbuf deststride destx desty)) destbuf
  end.

(** Run a kernel on the data of a surface. *)
Definition on_surface
    (kernel : list byte -> Z -> Z -> Z -> option (list byte))
    (image : cairo_surface) : option cairo_surface :=
  with_data image <$>
    kernel (surf_data image) (surf_width image) (surf_height image)
           (surf_stride image).

(** The [switch (format)] of [load_background_from_buffer]: the converted
    surface and the lines logged. *)
Definition format_switch (e : endianness) (format : wl_shm_format)
    (image : cairo_surface) : option (cairo_surface * list log_entry) :=
  let xrgb8888 (log : list log_entry) :=
    (* If we're little endian, we don't have to do anything *)
    match e with
    | LittleEndian => Some (image, log)
    | BigEndian =>
        image' ← on_surface (cairo_rgb24_from_xrgb32_le e) image;
        Some (image', log)
    end in
  match format with
  | WL_SHM_FORMAT_XBGR8888 | WL_SHM_FORMAT_ABGR8888 =>
      image' ← on_surface (cairo_rgb24_from_xbgr32_le e) image;
      Some (image', [])
  | WL_SHM_FORMAT_XRGB2101010 | WL_SHM_FORMAT_ARGB2101010 =>
      image' ← on_surface (cairo_rgb24_from_xrgb2101010_le e) image;
      Some (image', [])
  | WL_SHM_FORMAT_XBGR2101010 | WL_SHM_FORMAT_ABGR2101010 =>
      image' ← on_surface (cairo_rgb24_from_xbgr2101010_le e) image;
      Some (image', [])
  | WL_SHM_FORMAT_RGBX1010102 | WL_SHM_FORMAT_RGBA1010102 =>
      image' ← on_surface (cairo_rgb24_from_rgbx1010102_le e) image;
      Some (image', [])
  | WL_SHM_FORMAT_BGRX1010102 | WL_SHM_FORMAT_BGRA1010102 =>
      image' ← on_surface (cairo_rgb24_from_bgrx1010102_le e) image;
      Some (image', [])
  | WL_SHM_FORMAT_BGR888 =>
      image' ← on_surface (cairo_rgb24_from_bgr888_le e) image;
      Some (image', [])
  | WL_SHM_FORMAT_RGB888 =>
      image' ← on_surface (cairo_rgb24_from_bgr888_le e) image;
      image'' ← on_surface (cairo_rgb24_swap_rb e) image';
      Some (image'', [])
  | WL_SHM_FORMAT_other _ =>
      xrgb8888 [(LOG_ERROR, Unknown_pixel_format format)]
  | WL_SHM_FORMAT_XRGB8888 | WL_SHM_FORMAT_ARGB8888 =>
      xrgb8888 []
  end.

Section Loader.

(** The byte order of the host. *)
Variable host : endianness.

(** [cairo_image_surface_create (CAIRO_FORMAT_RGB24, width, height)];
    [None] stands for a failed creation. *)
Variable cairo_image_surface_create : Z -> Z -> option cairo_surface.

(** Lines 147-256: create the destination and copy the pixels into place.
    The outer [None] is undefined behaviour, the inner one a failed
    creation. *)
Definition transform_and_copy (buf : list byte)
    (width height stride : Z) (transform : wl_output_transform)
  : option (option cairo_surface) :=
  let image :=
    if rotated transform
    then cairo_image_surface_create height width
    else cairo_image_surface_create width height in
  match image with
  | None => Some None
  | Some image =>
      let destbuf := surf_data image in
      let destwidth := surf_width image in
      let destheight := surf_height image in
      let deststride := surf_stride image in
      let srcbuf := buf in
      let srcstride := stride in
      destbuf' ← transform_switch host transform srcbuf srcstride
                   destbuf destwidth destheight deststride;
      Some (Some (with_data image destbuf'))
  end.

Definition load_background_from_buffer (buf : list byte)
    (format : wl_shm_format) (width height stride : Z)
    (transform : wl_output_transform)
  : option (option cairo_surface * list log_entry) :=
  match transform_and_copy buf width height stride transform with
  | None => None
  | Some None => Some (None, [(LOG_ERROR, Failed_to_create_image)])
  | Some (Some image) =>
      '(image', log) ← format_switch host format image;
      Some (Some image', log)
  end.

End Loader.

(** What the code relies on from cairo: a creation that succeeds hands
    out a surface of the requested size, with rows of at least
    [4 * width] bytes and [height] rows of data. *)
Definition surface_creator (create : Z -> Z -> option cairo_surface)
  : Prop :=
  forall w h image, create w h = Some image ->
    surf_width image = w /\ surf_height image = h /\
    4 * w <= surf_stride image /\
    Z.of_nat (length (surf_data image)) = h * surf_stride image.

(** An instance: rows of exactly [4 * width] bytes, zero-filled, and no
    surface for a negative size. *)
Definition packed_surface_create (w h : Z) : option cairo_surface :=
  if decide (0 <= w /\ 0 <= h)
  then Some {| surf_data := replicate (Z.to_nat (h * (4 * w))) Byte.x00;
               surf_width := w; surf_height := h; surf_stride := 4 * w |}
  else None.

(** ** Specifications of the kernels *)

(** A [width] x [height] image with rows of [stride] bytes fits in a
    buffer of [len] bytes, at four bytes a pixel. *)
Definition fits (width height stride len : Z) : Prop :=
  0 <= width /\ 0 <= height /\ 4 * width <= stride /\ height * stride <= len.

(** Apply a function of the four bytes of a cell. *)
Definition on_cell (f : byte -> byte -> byte -> byte -> Z) (c : list byte)
  : Z :=
  match c with
  | [b0; b1; b2; b3] => f b0 b1 b2 b3
  | _ => 0
  end.

(** [run], the outcome of a kernel on [buf], is defined, keeps the size of
    the buffer, and leaves in every cell of the image the native word [f]
    of the four bytes the cell held in [buf]. *)
Definition converts_cells_at (e : endianness)
    (f : byte -> byte -> byte -> byte -> Z)
    (run : option (list byte)) (buf : list byte) (width height stride : Z)
  : Prop :=
  exists buf', run = Some buf' /\ length buf' = length buf /\
    forall y x, 0 <= y < height -> 0 <= x < width ->
      exists b0 b1 b2 b3,
        Mem.bytes_at buf (y * stride + x * 4) 4 = Some [b0; b1; b2; b3] /\
        load32 e buf' (y * stride + x * 4) = Some (f b0 b1 b2 b3).

(** ** Specifications of the transforms *)

(** The source column and row that [transform_switch] reads for the
    destination pixel [(destx, desty)]. *)
Definition source_x (transform : wl_output_transform)
    (destwidth destheight destx desty : Z) : Z :=
  match transform with
  | WL_OUTPUT_TRANSFORM_NORMAL => destx
  | WL_OUTPUT_TRANSFORM_90 => desty
  | WL_OUTPUT_TRANSFORM_180 => destwidth - destx - 1
  | WL_OUTPUT_TRANSFORM_270 => destheight - desty - 1
  | WL_OUTPUT_TRANSFORM_FLIPPED => destwidth - destx - 1
  | WL_OUTPUT_TRANSFORM_FLIPPED_90 => desty
  | WL_OUTPUT_TRANSFORM_FLIPPED_180 => destx
  | WL_OUTPUT_TRANSFORM_FLIPPED_270 => destheight - desty - 1
  end.

Definition source_y (transform : wl_output_transform)
    (destwidth destheight destx desty : Z) : Z :=
  match transform with
  | WL_OUTPUT_TRANSFORM_NORMAL => desty
  | WL_OUTPUT_TRANSFORM_90 => destwidth - destx - 1
  | WL_OUTPUT_TRANSFORM_180 => destheight - desty - 1
  | WL_OUTPUT_TRANSFORM_270 => destx
  | WL_OUTPUT_TRANSFORM_FLIPPED => desty
  | WL_OUTPUT_TRANSFORM_FLIPPED_90 => destx
  | WL_OUTPUT_TRANSFORM_FLIPPED_180 => destheight - desty - 1
  | WL_OUTPUT_TRANSFORM_FLIPPED_270 => destwidth - destx - 1
  end.

(** Every cell [(destx, desty)] of the destination image holds the four
    bytes of the source cell [(srcx destx desty, srcy destx desty)]. *)
Definition maps_pixels (srcbuf : list byte) (srcstride : Z)
    (srcx srcy : Z -> Z -> Z)
    (destbuf : list byte) (destwidth destheight deststride : Z) : Prop :=
  forall destx desty, 0 <= destx < destwidth -> 0 <= desty < destheight ->
    exists cell,
      Mem.bytes_at srcbuf (srcy destx desty * srcstride
                           + srcx destx desty * 4) 4 = Some cell /\
      Mem.bytes_at destbuf (desty * deststride + destx * 4) 4 = Some cell.

(** The per-pixel copy under a coordinate map, the shape shared by the
    six cases of [transform_switch] that do not use [memcpy]. *)
Definition per_pixel_copy (e : endianness)
    (srcx srcy : Z -> Z -> Z)
    (srcbuf : list byte) (srcstride : Z)
    (destbuf : list byte) (destwidth destheight deststride : Z)
  : option (list byte) :=
  for_loop (upto destheight) (fun desty =>
    for_loop (upto destwidth) (fun destx destbuf =>
      copy_pixel e srcbuf srcstride (srcx destx desty) (srcy destx desty)
                 destbuf deststride destx desty)) destbuf.

(** The transform that undoes a transform. *)
Definition inverse (transform : wl_output_transform)
  : wl_output_transform :=
  match transform with
  | WL_OUTPUT_TRANSFORM_90 => WL_OUTPUT_TRANSFORM_270
  | WL_OUTPUT_TRANSFORM_270 => WL_OUTPUT_TRANSFORM_90
  | t => t
  end.

(** Two buffers hold the same bytes in every four-byte cell of a
    [width] x [height] image with rows of [stride] and [stride'] bytes. *)
Definition same_cells (buf : list byte) (stride : Z)
    (buf' : list byte) (stride' : Z) (width height : Z) : Prop :=
  forall x y, 0 <= x < width -> 0 <= y < height ->
    exists cell,
      Mem.bytes_at buf (y * stride + x * 4) 4 = Some cell /\
      Mem.bytes_at buf' (y * stride' + x * 4) 4 = Some cell.

(** ** Cairo RGB24 words and wire formats *)

(** The channels of a Cairo RGB24 word: red in bits 23-16, green in bits
    15-8, blue in bits 7-0; bits 31-24 are unused. *)
Definition red (word : Z) : Z := Z.land (Z.shiftr word 16) 255.
Definition green (word : Z) : Z := Z.land (Z.shiftr word 8) 255.
Definition blue (word : Z) : Z := Z.land word 255.

(** The packed 8-bit formats. *)
Definition packed8 (format : wl_shm_format) : bool :=
  match format with
  | WL_SHM_FORMAT_XRGB8888 | WL_SHM_FORMAT_ARGB8888
  | WL_SHM_FORMAT_XBGR8888 | WL_SHM_FORMAT_ABGR8888 => true
  | _ => false
  end.

(** The red, green and blue bytes of a cell [b0 b1 b2 b3] in the packed
    8-bit formats: XRGB8888 is [31:0] x:R:G:B little endian, so blue comes
    first in memory; XBGR8888 is [31:0] x:B:G:R little endian, so red
    comes first. *)
Definition packed8_rgb (format : wl_shm_format) (b0 b1 b2 b3 : byte)
  : option (Z * Z * Z) :=
  match format with
  | WL_SHM_FORMAT_XRGB8888 | WL_SHM_FORMAT_ARGB8888 =>
      Some (byte.unsigned b2, byte.unsigned b1, byte.unsigned b0)
  | WL_SHM_FORMAT_XBGR8888 | WL_SHM_FORMAT_ABGR8888 =>
      Some (byte.unsigned b0, byte.unsigned b1, byte.unsigned b2)
  | _ => None
  end.

Definition kernel : Type :=
  endianness -> list byte -> Z -> Z -> Z -> option (list byte).

(** The four 10-bit kernels, and where the 10-bit fields of their formats
    start in the little-endian word: XRGB2101010 is x:R:G:B 2:10:10:10,
    XBGR2101010 is x:B:G:R 2:10:10:10, RGBX1010102 is R:G:B:x 10:10:10:2,
    BGRX1010102 is B:G:R:x 10:10:10:2. *)
Inductive ten_bit_format :=
| XRGB2101010 | XBGR2101010 | RGBX1010102 | BGRX1010102.

Definition ten_bit_kernel (f : ten_bit_format) : kernel :=
  match f with
  | XRGB2101010 => cairo_rgb24_from_xrgb2101010_le
  | XBGR2101010 => cairo_rgb24_from_xbgr2101010_le
  | RGBX1010102 => cairo_rgb24_from_rgbx1010102_le
  | BGRX1010102 => cairo_rgb24_from_bgrx1010102_le
  end.

Definition ten_bit_to_rgb24 (f : ten_bit_format) (color : Z) : Z :=
  match f with
  | XRGB2101010 => xrgb2101010_to_rgb24 color
  | XBGR2101010 => xbgr2101010_to_rgb24 color
  | RGBX1010102 => rgbx1010102_to_rgb24 color
  | BGRX1010102 => bgrx1010102_to_rgb24 color
  end.

Definition red_lsb (f : ten_bit_format) : Z :=
  match f with
  | XRGB2101010 => 20 | XBGR2101010 => 0
  | RGBX1010102 => 22 | BGRX1010102 => 2
  end.

Definition green_lsb (f : ten_bit_format) : Z :=
  match f with
  | XRGB2101010 | XBGR2101010 => 10
  | RGBX1010102 | BGRX1010102 => 12
  end.

Definition blue_lsb (f : ten_bit_format) : Z :=
  match f with
  | XRGB2101010 => 0 | XBGR2101010 => 20
  | RGBX1010102 => 2 | BGRX1010102 => 22
  end.

(** The 10-bit field of [color] that starts at bit [lsb]. *)
Definition channel10 (color lsb : Z) : Z := Z.land (Z.shiftr color lsb) 1023.

(** [out] is the 10-bit [channel] without its two low bits. *)
Definition truncates10 (channel out : Z) : Prop :=
  out = Z.shiftr channel 2 /\ out = channel / 4 /\
  (channel = 1023 -> out = 255) /\ (channel = 0 -> out = 0) /\
  0 <= out <= 255.

(** The kernels: the seven [cairo_rgb24_from_*] and [cairo_rgb24_swap_rb]. *)
Definition normalization_kernels : list kernel :=
  [cairo_rgb24_from_xrgb32_le; cairo_rgb24_from_xbgr32_le;
   cairo_rgb24_from_xrgb2101010_le; cairo_rgb24_from_xbgr2101010_le;
   cairo_rgb24_from_rgbx1010102_le; cairo_rgb24_from_bgrx1010102_le;
   cairo_rgb24_from_bgr888_le; cairo_rgb24_swap_rb].

(** Every cell of the image holds a native word with bits 31-24 clear. *)
Definition alpha_clear (e : endianness) (buf : list byte)
    (width height stride : Z) : Prop :=
  forall y x, 0 <= y < height -> 0 <= x < width ->
    exists word, load32 e buf (y * stride + x * 4) = Some word /\
      Z.shiftr word 24 = 0.

Definition clears_alpha (k : kernel) : Prop :=
  forall e buf width height stride,
    fits width height stride (Z.of_nat (length buf)) ->
    height * stride <= INT_MAX ->
    exists buf', k e buf width height stride = Some buf' /\
      length buf' = length buf /\ alpha_clear e buf' width height stride.

(** The formats with an alpha channel and their X counterparts. *)
Definition alpha_variants : list (wl_shm_format * wl_shm_format) :=
  [(WL_SHM_FORMAT_ARGB8888, WL_SHM_FORMAT_XRGB8888);
   (WL_SHM_FORMAT_ABGR8888, WL_SHM_FORMAT_XBGR8888);
   (WL_SHM_FORMAT_ARGB2101010, WL_SHM_FORMAT_XRGB2101010);
   (WL_SHM_FORMAT_ABGR2101010, WL_SHM_FORMAT_XBGR2101010);
   (WL_SHM_FORMAT_RGBA1010102, WL_SHM_FORMAT_RGBX1010102);
   (WL_SHM_FORMAT_BGRA1010102, WL_SHM_FORMAT_BGRX1010102)].

(** Whether [format_switch] calls a kernel at all. *)
Definition runs_kernel (e : endianness) (format : wl_shm_format) : bool :=
  match format with
  | WL_SHM_FORMAT_XRGB8888 | WL_SHM_FORMAT_ARGB8888
  | WL_SHM_FORMAT_other _ =>
      match e with BigEndian => true | LittleEndian => false end
  | _ => true
  end.

(** ** The keywords of [parse_background_mode] *)

Definition keyword_mode (word : string) : option background_mode :=
  if String.eqb word "stretch" then Some BACKGROUND_MODE_STRETCH
  else if String.eqb word "fill" then Some BACKGROUND_MODE_FILL
  else if String.eqb word "fit" then Some BACKGROUND_MODE_FIT
  else if String.eqb word "center" then Some BACKGROUND_MODE_CENTER
  else if String.eqb word "tile" then Some BACKGROUND_MODE_TILE
  else if String.eqb word "solid_color"
       then Some BACKGROUND_MODE_SOLID_COLOR
  else None.

(** ** Loop invariants *)

(** While a loop nest writes the cells of an image in address order: the
    bytes from address [front] on are as in [buf0], and every cell
    selected by [done] holds its new content. *)
Definition written_cells (new : Z -> Z -> list byte)
    (width height stride : Z) (buf0 : list byte)
    (front : Z) (done : Z -> Z -> Prop) (buf : list byte) : Prop :=
  length buf = length buf0 /\
  (forall a n, front <= a -> Mem.bytes_at buf a n = Mem.bytes_at buf0 a n) /\
  (forall y x, 0 <= y < height -> 0 <= x < width -> done y x ->
     Mem.bytes_at buf (y * stride + x * 4) 4 = Some (new y x)).

(** While [cairo_rgb24_from_bgr888_le] is in row [y] with the pixels from
    column [from] on widened: the part of the row before the widened cells
    and all later rows are as in [buf0]; every widened cell holds the
    three bytes its pixel had in [buf0]. *)
Definition widened_from (e : endianness) (width height stride : Z)
    (buf0 : list byte) (y from : Z) (buf : list byte) : Prop :=
  length buf = length buf0 /\
  (forall a n,
     y * stride <= a /\ a + n <= y * stride + from * 4 \/
     y * stride + stride <= a ->
     Mem.bytes_at buf a n = Mem.bytes_at buf0 a n) /\
  (forall y' x', 0 <= y' < height -> 0 <= x' < width ->
     y' < y \/ y' = y /\ from <= x' ->
     exists s0 s1 s2,
       Mem.bytes_at buf0 (y' * stride + x' * 3) 3 = Some [s0; s1; s2] /\
       load32 e buf (y' * stride + x' * 4) = Some (rgb24 s0 s1 s2)).

(** ** Test images *)

(** A 2 x 2 image of four-byte cells with rows of 8 bytes, every cell
    marked by its own byte values, and a zero-filled destination. *)
Definition markers_2x2 : list byte :=
  [Byte.x01; Byte.x02; Byte.x03; Byte.x04;
   Byte.x11; Byte.x12; Byte.x13; Byte.x14;
   Byte.x21; Byte.x22; Byte.x23; Byte.x24;
   Byte.x31; Byte.x32; Byte.x33; Byte.x34].

Definition blank_2x2 : list byte := replicate 16 Byte.x00.

(** A 4 x 4 image of four-byte cells with rows of 16 bytes, holding the
    bytes 0, 1, ..., 63. *)
Definition ramp_4x4 : list byte := byte.of_Z <$> seqZ 0 64.

(** ** Further specifications *)

(** The byte range from [a] to [a + n] meets no four-byte cell of the
    image. *)
Definition outside_cells (width height stride a n : Z) : Prop :=
  forall y x, 0 <= y < height -> 0 <= x < width ->
    a + n <= y * stride + x * 4 \/ y * stride + x * 4 + 4 <= a.

(** The 10-bit kernel that [format_switch] runs for a format. *)
Definition ten_bit_of_format (format : wl_shm_format)
  : option ten_bit_format :=
  match format with
  | WL_SHM_FORMAT_XRGB2101010 | WL_SHM_FORMAT_ARGB2101010 => Some XRGB2101010
  | WL_SHM_FORMAT_XBGR2101010 | WL_SHM_FORMAT_ABGR2101010 => Some XBGR2101010
  | WL_SHM_FORMAT_RGBX1010102 | WL_SHM_FORMAT_RGBA1010102 => Some RGBX1010102
  | WL_SHM_FORMAT_BGRX1010102 | WL_SHM_FORMAT_BGRA1010102 => Some BGRX1010102
  | _ => None
  end.

(** What [format_switch] logs for a format. *)
Definition format_log (format : wl_shm_format) : list log_entry :=
  match format with
  | WL_SHM_FORMAT_other _ => [(LOG_ERROR, Unknown_pixel_format format)]
  | _ => []
  end.

(** A transform as a mirror flag and a number of quarter turns, and the
    transform that one transform followed by another amounts to. *)
Definition flipped (transform : wl_output_transform) : bool :=
  match transform with
  | WL_OUTPUT_TRANSFORM_FLIPPED | WL_OUTPUT_TRANSFORM_FLIPPED_90
  | WL_OUTPUT_TRANSFORM_FLIPPED_180 | WL_OUTPUT_TRANSFORM_FLIPPED_270 => true
  | _ => false
  end.

Definition quarter_turns (transform : wl_output_transform) : Z :=
  match transform with
  | WL_OUTPUT_TRANSFORM_NORMAL | WL_OUTPUT_TRANSFORM_FLIPPED => 0
  | WL_OUTPUT_TRANSFORM_90 | WL_OUTPUT_TRANSFORM_FLIPPED_90 => 1
  | WL_OUTPUT_TRANSFORM_180 | WL_OUTPUT_TRANSFORM_FLIPPED_180 => 2
  | WL_OUTPUT_TRANSFORM_270 | WL_OUTPUT_TRANSFORM_FLIPPED_270 => 3
  end.

Definition transform_of (flip : bool) (turns : Z) : wl_output_transform :=
  match turns mod 4, flip with
  | 0, false => WL_OUTPUT_TRANSFORM_NORMAL
  | 1, false => WL_OUTPUT_TRANSFORM_90
  | 2, false => WL_OUTPUT_TRANSFORM_180
  | _, false => WL_OUTPUT_TRANSFORM_270
  | 0, true => WL_OUTPUT_TRANSFORM_FLIPPED
  | 1, true => WL_OUTPUT_TRANSFORM_FLIPPED_90
  | 2, true => WL_OUTPUT_TRANSFORM_FLIPPED_180
  | _, true => WL_OUTPUT_TRANSFORM_FLIPPED_270
  end.

Definition compose (first second : wl_output_transform)
  : wl_output_transform :=
  if flipped first
  then transform_of (negb (flipped second))
                    (quarter_turns first - quarter_turns second)
  else transform_of (flipped second)
                    (quarter_turns first + quarter_turns second).

(** ** [render_background_image]

    The function computes in [double] and talks to cairo.  The [double]
    operations it uses are parameters, with no law assumed of them, and a
    run is the list of cairo calls it makes, in order.  [ndebug] tells
    whether [assert] is compiled out. *)

Section Render.

Variable double : Type.
(** Conversion of an [int] to [double], [/], [-], [>] and the cast
    [(int)]. *)
Variable double_of_int : Z -> double.
Variables fdiv fsub : double -> double -> double.
Variable fgt : double -> double -> bool.
Variable int_of_double : double -> Z.
Variable ndebug : bool.

Inductive cairo_call :=
| Cairo_save
| Cairo_scale (sx sy : double)
| Cairo_set_source_surface (image : cairo_surface) (x y : double)
| Cairo_pattern_create_for_surface (image : cairo_surface)
| Cairo_pattern_set_extend_repeat
| Cairo_set_source
| Cairo_pattern_set_filter_bilinear
| Cairo_paint_with_alpha (alpha : double)
| Cairo_restore.

Inductive render_outcome :=
| Painted (calls : list cairo_call)
| Assertion_failed (calls : list cairo_call).

Definition render_background_image (image : cairo_surface)
    (mode : background_mode) (buffer_width buffer_height : Z)
    (alpha : double) : render_outcome :=
  let width := double_of_int (surf_width image) in
  let height := double_of_int (surf_height image) in
  let two := double_of_int 2 in
  let zero := double_of_int 0 in
  let paint (calls : list cairo_call) :=
    Painted (Cairo_save :: calls
             ++ [Cairo_pattern_set_filter_bilinear;
                 Cairo_paint_with_alpha alpha; Cairo_restore]) in
  match mode with
  | BACKGROUND_MODE_STRETCH =>
      paint [Cairo_scale (fdiv (double_of_int buffer_width) width)
                         (fdiv (double_of_int buffer_height) height);
             Cairo_set_source_surface image zero zero]
  | BACKGROUND_MODE_FILL =>
      let window_ratio :=
        fdiv (double_of_int buffer_width) (double_of_int buffer_height) in
      let bg_ratio := fdiv width height in
      if fgt window_ratio bg_ratio then
        let scale := fdiv (double_of_int buffer_width) width in
        paint [Cairo_scale scale scale;
               Cairo_set_source_surface image zero
                 (fsub (fdiv (fdiv (double_of_int buffer_height) two) scale)
                       (fdiv height two))]
      else
        let scale := fdiv (double_of_int buffer_height) height in
        paint [Cairo_scale scale scale;
               Cairo_set_source_surface image
                 (fsub (fdiv (fdiv (double_of_int buffer_width) two) scale)
                       (fdiv width two))
                 zero]
  | BACKGROUND_MODE_FIT =>
      let window_ratio :=
        fdiv (double_of_int buffer_width) (double_of_int buffer_height) in
      let bg_ratio := fdiv width height in
      if fgt window_ratio bg_ratio then
        let scale := fdiv (double_of_int buffer_height) height in
        paint [Cairo_scale scale scale;
               Cairo_set_source_surface image
                 (fsub (fdiv (fdiv (double_of_int buffer_width) two) scale)
                       (fdiv width two))
                 zero]
      else
        let scale := fdiv (double_of_int buffer_width) width in
        paint [Cairo_scale scale scale;
               Cairo_set_source_surface image zero
                 (fsub (fdiv (fdiv (double_of_int buffer_height) two) scale)
                       (fdiv height two))]
  | BACKGROUND_MODE_CENTER =>
      (* Align the unscaled image to integer pixel boundaries *)
      paint [Cairo_set_source_surface image
               (double_of_int (int_of_double
                  (fsub (fdiv (double_of_int buffer_width) two)
                        (fdiv width two))))
               (double_of_int (int_of_double
                  (fsub (fdiv (double_of_int buffer_height) two)
                        (fdiv height two))))]
  | BACKGROUND_MODE_TILE =>
      paint [Cairo_pattern_create_for_surface image;
             Cairo_pattern_set_extend_repeat;
             Cairo_set_source]
  | BACKGROUND_MODE_SOLID_COLOR | BACKGROUND_MODE_INVALID =>
      if ndebug then paint [] else Assertion_failed [Cairo_save]
  end.

(** The calls that choose what is painted. *)
Definition sets_source (call : cairo_call) : bool :=
  match call with
  | Cairo_set_source_surface _ _ _ | Cairo_set_source => true
  | _ => false
  end.

End Render.

(** The modes that [render_background_image] draws. *)
Definition drawable (mode : background_mode) : bool :=
  match mode with
  | BACKGROUND_MODE_SOLID_COLOR | BACKGROUND_MODE_INVALID => false
  | _ => true
  end.

Arguments Cairo_save {double}.
Arguments Cairo_scale {double} sx sy.
Arguments Cairo_set_source_surface {double} image x y.
Arguments Cairo_pattern_create_for_surface {double} image.
Arguments Cairo_pattern_set_extend_repeat {double}.
Arguments Cairo_set_source {double}.
Arguments Cairo_pattern_set_filter_bilinear {double}.
Arguments Cairo_paint_with_alpha {double} alpha.
Arguments Cairo_restore {double}.
Arguments Painted {double} calls.
Arguments Assertion_failed {double} calls.
Arguments sets_source {double} call.

(** The calls of a run, and the factors of its [cairo_scale] calls, in
    order. *)
Definition calls_of {double} (outcome : render_outcome double)
  : list (cairo_call double) :=
  match outcome with
  | Painted calls | Assertion_failed calls => calls
  end.

Definition scale_factors {double} (calls : list (cairo_call double))
  : list (double * double) :=
  omap (fun call => match call with
                    | Cairo_scale sx sy => Some (sx, sy)
                    | _ => None
                    end) calls.

(** Neither [cairo_save], [cairo_restore] nor a paint. *)
Definition plain_call {double} (call : cairo_call double) : Prop :=
  match call with
  | Cairo_save | Cairo_restore | Cairo_paint_with_alpha _ => False
  | _ => True
  end.

(** * Properties *)

(** ** Buffers *)

Section MemFacts.
Import Mem.
Implicit Types (buf dest src bs : list byte) (a n : Z).

Lemma bytes_at_in_range buf a n :
  in_range buf a n ->
  bytes_at buf a n = Some (take (Z.to_nat n) (drop (Z.to_nat a) buf)).
Proof. intros H. unfold bytes_at. by rewrite decide_True. Qed.

Lemma bytes_at_Some buf a n bs :
  bytes_at buf a n = Some bs <->
  in_range buf a n /\ bs = take (Z.to_nat n) (drop (Z.to_nat a) buf).
Proof.
  unfold bytes_at. destruct (decide (in_range buf a n)); split.
  - by intros [= <-].
  - by intros [_ ->].
  - done.
  - by intros [? _].
Qed.

Lemma bytes_at_length buf a n bs :
  bytes_at buf a n = Some bs -> length bs = Z.to_nat n.
Proof.
  intros [(? & ? & ?) ->]%bytes_at_Some.
  rewrite length_take, length_drop. lia.
Qed.

Lemma bytes_at_lookup buf a n bs (i : nat) :
  bytes_at buf a n = Some bs -> (i < Z.to_nat n)%nat ->
  bs !! i = buf !! (Z.to_nat a + i)%nat.
Proof.
  intros [_ ->]%bytes_at_Some Hi.
  by rewrite lookup_take_lt, lookup_drop.
Qed.

(** Two buffers that agree on a range give the same bytes there. *)
Lemma bytes_at_ext buf buf' a n :
  length buf = length buf' ->
  (forall i : nat, (Z.to_nat a <= i < Z.to_nat a + Z.to_nat n)%nat ->
     buf !! i = buf' !! i) ->
  bytes_at buf a n = bytes_at buf' a n.
Proof.
  intros Hlen Heq. destruct (decide (in_range buf a n)) as [Hr|Hr].
  - assert (in_range buf' a n) by (unfold in_range in *; lia).
    rewrite !bytes_at_in_range by done.
    f_equal. apply list_eq. intros i.
    rewrite !lookup_take. case_decide; [|done].
    rewrite !lookup_drop. apply Heq. lia.
  - assert (~ in_range buf' a n) by (unfold in_range in *; lia).
    unfold bytes_at. by rewrite !decide_False.
Qed.

Lemma bytes_at_sub buf a n bs i m :
  bytes_at buf a n = Some bs -> 0 <= i -> 0 <= m -> i + m <= n ->
  bytes_at buf (a + i) m = Some (take (Z.to_nat m) (drop (Z.to_nat i) bs)).
Proof.
  intros [(? & ? & ?) ->]%bytes_at_Some ? ? ?.
  rewrite bytes_at_in_range by (unfold in_range; lia).
  f_equal. apply list_eq. intros k.
  rewrite !lookup_take. case_decide; [|done].
  rewrite !lookup_drop, lookup_take_lt, lookup_drop by lia.
  f_equal. lia.
Qed.

Lemma load8_bytes_at buf a n bs k :
  bytes_at buf a n = Some bs -> 0 <= k < n ->
  load8 buf (a + k) = bs !! Z.to_nat k.
Proof.
  intros Hbs Hk. pose proof Hbs as [(? & ? & ?) _]%bytes_at_Some.
  unfold load8. rewrite decide_True by lia.
  rewrite (bytes_at_lookup _ _ _ _ _ Hbs) by lia. f_equal. lia.
Qed.

Lemma write_bytes_Some buf a bs :
  in_range buf a (Z.of_nat (length bs)) ->
  exists buf', write_bytes buf a bs = Some buf'.
Proof. intros H. unfold write_bytes. rewrite decide_True by done. eauto. Qed.

Lemma write_bytes_length buf a bs buf' :
  write_bytes buf a bs = Some buf' -> length buf' = length buf.
Proof.
  unfold write_bytes, in_range. case_decide; [|done]. intros [= <-].
  rewrite !length_app, length_take, length_drop. lia.
Qed.

Lemma write_bytes_lookup buf a bs buf' (i : nat) :
  write_bytes buf a bs = Some buf' ->
  buf' !! i =
    if decide (Z.to_nat a <= i < Z.to_nat a + length bs)%nat
    then bs !! (i - Z.to_nat a)%nat else buf !! i.
Proof.
  unfold write_bytes, in_range. case_decide; [|done]. intros [= <-].
  assert (length (take (Z.to_nat a) buf) = Z.to_nat a) as Hl
    by (rewrite length_take; lia).
  case_decide.
  - rewrite lookup_app_r by lia. rewrite Hl.
    rewrite lookup_app_l by lia. done.
  - destruct (decide (i < Z.to_nat a)%nat).
    + rewrite lookup_app_l by lia. by rewrite lookup_take_lt.
    + rewrite lookup_app_r by lia. rewrite Hl.
      rewrite lookup_app_r by lia. rewrite lookup_drop. f_equal. lia.
Qed.

(** Reading back what was written. *)
Lemma bytes_at_write_same buf a bs buf' :
  write_bytes buf a bs = Some buf' ->
  bytes_at buf' a (Z.of_nat (length bs)) = Some bs.
Proof.
  intros Hw. pose proof (write_bytes_length _ _ _ _ Hw) as Hlen.
  pose proof Hw as Hr. unfold write_bytes in Hr. case_decide; [|done].
  rewrite bytes_at_in_range by (unfold in_range in *; lia).
  f_equal. apply list_eq. intros i.
  rewrite lookup_take. case_decide.
  - rewrite lookup_drop, (write_bytes_lookup _ _ _ _ _ Hw).
    rewrite decide_True by lia. f_equal. lia.
  - symmetry. apply lookup_ge_None. lia.
Qed.

(** A write leaves every disjoint range as it was. *)
Lemma bytes_at_write_other buf a bs buf' a' n :
  write_bytes buf a bs = Some buf' ->
  a' + n <= a \/ a + Z.of_nat (length bs) <= a' ->
  bytes_at buf' a' n = bytes_at buf a' n.
Proof.
  intros Hw Hdisj. pose proof Hw as Hr.
  unfold write_bytes, in_range in Hr. case_decide; [|done].
  destruct (decide (0 <= a' /\ 0 <= n)) as [[? ?]|].
  - apply bytes_at_ext; [by eapply write_bytes_length|].
    intros i Hi. rewrite (write_bytes_lookup _ _ _ _ _ Hw).
    rewrite decide_False by lia. done.
  - unfold bytes_at, in_range. rewrite !decide_False by lia. done.
Qed.

Lemma memcpy_Some dest d src s n :
  in_range src s n -> in_range dest d n ->
  exists dest', memcpy dest d src s n = Some dest' /\
    length dest' = length dest /\
    bytes_at dest' d n = bytes_at src s n /\
    (forall a' m, a' + m <= d \/ d + n <= a' ->
       bytes_at dest' a' m = bytes_at dest a' m).
Proof.
  intros Hs Hd. unfold memcpy.
  destruct (bytes_at src s n) as [bs|] eqn:Hbs;
    [|by rewrite bytes_at_in_range in Hbs].
  pose proof (bytes_at_length _ _ _ _ Hbs) as Hl.
  assert (Z.of_nat (length bs) = n) as Hn
    by (destruct Hs as (? & ? & ?); lia).
  destruct (write_bytes_Some dest d bs) as [dest' Hw]; [by rewrite Hn|].
  exists dest'. simpl. split; [done|]. split; [by eapply write_bytes_length|].
  split.
  - rewrite <- Hn. by eapply bytes_at_write_same.
  - intros a' m Hdisj. eapply bytes_at_write_other; [done|]. lia.
Qed.

End MemFacts.

(** ** Words and cells *)

(** Bit-level goals over bytes: a byte is its own low eight bits. *)
Ltac mask_bytes :=
  repeat match goal with
  | |- context [byte.unsigned ?b] =>
      let z := fresh "z" in
      let Hz := fresh "Hz" in
      pose proof (byte.wrap_unsigned b) as Hz;
      unfold byte.wrap in Hz; rewrite <- Z.land_ones in Hz by lia;
      set (z := byte.unsigned b) in *; clearbody z;
      rewrite <- Hz; clear Hz
  end.

Ltac bits :=
  change 255 with (Z.ones 8) in *;
  change 1023 with (Z.ones 10) in *;
  Z.bitblast.

Lemma byte_of_Z_land w : byte.of_Z w = byte.of_Z (Z.land w (Z.ones 8)).
Proof.
  apply byte.unsigned_inj. rewrite !byte.unsigned_of_Z. unfold byte.wrap.
  rewrite <- !Z.land_ones by lia. bits.
Qed.

Lemma cell_of_word_length e w : length (cell_of_word e w) = 4%nat.
Proof. by destruct e. Qed.

Lemma word_of_cell_of_word e w :
  word_of_cell e (cell_of_word e w) = Z.land w (Z.ones 32).
Proof.
  destruct e; simpl; unfold le32; rewrite !byte.unsigned_of_Z;
    unfold byte.wrap; rewrite <- !Z.land_ones by lia; bits.
Qed.

Lemma byte_of_le32 b0 b1 b2 b3 :
  byte.of_Z (le32 b0 b1 b2 b3) = b0 /\
  byte.of_Z (Z.shiftr (le32 b0 b1 b2 b3) 8) = b1 /\
  byte.of_Z (Z.shiftr (le32 b0 b1 b2 b3) 16) = b2 /\
  byte.of_Z (Z.shiftr (le32 b0 b1 b2 b3) 24) = b3.
Proof.
  repeat split; apply byte.unsigned_inj; rewrite byte.unsigned_of_Z;
    unfold byte.wrap, le32; rewrite <- Z.land_ones by lia;
    mask_bytes; bits.
Qed.

Lemma land_le32 b0 b1 b2 b3 :
  Z.land (le32 b0 b1 b2 b3) 255 = byte.unsigned b0 /\
  Z.land (Z.shiftr (le32 b0 b1 b2 b3) 8) 255 = byte.unsigned b1 /\
  Z.land (Z.shiftr (le32 b0 b1 b2 b3) 16) 255 = byte.unsigned b2 /\
  Z.land (Z.shiftr (le32 b0 b1 b2 b3) 24) 255 = byte.unsigned b3.
Proof.
  destruct (byte_of_le32 b0 b1 b2 b3) as (H0 & H1 & H2 & H3).
  change 255 with (Z.ones 8). rewrite !Z.land_ones by lia.
  repeat split;
    [rewrite <- H0 at 2 | rewrite <- H1 at 2
    | rewrite <- H2 at 2 | rewrite <- H3 at 2];
    by rewrite byte.unsigned_of_Z.
Qed.

Lemma cell_of_word_of_cell e c :
  length c = 4%nat -> cell_of_word e (word_of_cell e c) = c.
Proof.
  destruct c as [|b0 [|b1 [|b2 [|b3 [|]]]]]; try done. intros _.
  destruct e; simpl.
  - by destruct (byte_of_le32 b0 b1 b2 b3) as (-> & -> & -> & ->).
  - by destruct (byte_of_le32 b3 b2 b1 b0) as (-> & -> & -> & ->).
Qed.

(** [le32toh] of the native word is the little-endian reading of the cell. *)
Lemma le32toh_word_of_cell e b0 b1 b2 b3 :
  le32toh e (word_of_cell e [b0; b1; b2; b3]) = le32 b0 b1 b2 b3.
Proof.
  destruct e; simpl; [done|]. unfold bswap32.
  destruct (land_le32 b3 b2 b1 b0) as (-> & -> & -> & ->).
  unfold le32. bits.
Qed.

Lemma rgb24_high r g b : Z.shiftr (rgb24 r g b) 24 = 0.
Proof. unfold rgb24. mask_bytes. bits. Qed.

(** ** Loops *)

(** The invariant rule: [P k] holds before iteration number [k]. *)
Lemma for_loop_invariant {A} (P : nat -> A -> Prop) idx
    (body : Z -> A -> option A) a :
  P 0%nat a ->
  (forall (k : nat) i s, idx !! k = Some i -> P k s ->
     exists s', body i s = Some s' /\ P (S k) s') ->
  exists s', for_loop idx body a = Some s' /\ P (length idx) s'.
Proof.
  revert P a. induction idx as [|i idx IH]; intros P a H0 Hstep; simpl.
  - eauto.
  - destruct (Hstep 0%nat i a eq_refl H0) as (s1 & -> & H1).
    apply (IH (fun k => P (S k))); [done|].
    intros k j s Hk. by apply (Hstep (S k)).
Qed.

Lemma upto_lookup n (k : nat) i :
  upto n !! k = Some i <-> i = Z.of_nat k /\ Z.of_nat k < n.
Proof. unfold upto. rewrite lookup_seqZ. lia. Qed.

Lemma upto_length n : 0 <= n -> Z.of_nat (length (upto n)) = n.
Proof. intros. unfold upto. rewrite length_seqZ. lia. Qed.

Lemma downfrom_lookup n (k : nat) i :
  downfrom (n - 1) !! k = Some i <->
  i = n - 1 - Z.of_nat k /\ Z.of_nat k < n.
Proof.
  unfold downfrom. rewrite reverse_lookup_Some, lookup_seqZ, length_seqZ.
  lia.
Qed.

Lemma downfrom_length n :
  0 <= n -> Z.of_nat (length (downfrom (n - 1))) = n.
Proof. intros. unfold downfrom. rewrite length_reverse, length_seqZ. lia. Qed.

Lemma int_arith_Some v : INT_MIN <= v <= INT_MAX -> int_arith v = Some v.
Proof. intros. unfold int_arith. by rewrite decide_True. Qed.

(** ** Image geometry *)

Lemma fits_row width height stride len y :
  fits width height stride len -> 0 <= y < height ->
  0 <= y * stride /\ y * stride + stride <= len.
Proof. unfold fits. intros (? & ? & ? & ?) ?. nia. Qed.

Lemma fits_rows_lt width height stride len y y' :
  fits width height stride len -> 0 <= y -> y < y' ->
  y * stride + stride <= y' * stride.
Proof. unfold fits. intros (? & ? & ? & ?) ? ?. nia. Qed.

Lemma pixel_offset_Some width height stride len y x n :
  fits width height stride len -> height * stride <= INT_MAX ->
  0 <= y < height -> 0 <= x < width -> 0 <= n <= 4 ->
  pixel_offset y stride x n = Some (y * stride + x * n).
Proof.
  intros Hfit Hmax Hy Hx Hn.
  assert (fits width height stride (height * stride)) as Hfit'
    by (unfold fits in *; lia).
  destruct (fits_row _ _ _ _ _ Hfit' Hy).
  destruct Hfit as (? & ? & ? & ?). unfold pixel_offset.
  assert (INT_MIN <= 0) by done.
  rewrite !int_arith_Some by nia. done.
Qed.

(** ** Loops that write every four-byte cell of an image once *)

Section CellLoop.
Import Mem.
Variable body : Z -> Z -> list byte -> option (list byte).
Variable new : Z -> Z -> list byte.
Variables width height stride : Z.
Variable buf0 : list byte.

Hypothesis Hfit : fits width height stride (Z.of_nat (length buf0)).
Hypothesis new_length : forall y x,
  0 <= y < height -> 0 <= x < width -> length (new y x) = 4%nat.
Hypothesis body_cell : forall y x buf,
  0 <= y < height -> 0 <= x < width ->
  length buf = length buf0 ->
  bytes_at buf (y * stride + x * 4) 4
    = bytes_at buf0 (y * stride + x * 4) 4 ->
  body y x buf = write_bytes buf (y * stride + x * 4) (new y x).

Local Abbreviation written := (written_cells new width height stride buf0).

Lemma cell_in_range y x :
  0 <= y < height -> 0 <= x < width ->
  in_range buf0 (y * stride + x * 4) 4.
Proof.
  intros Hy Hx. destruct (fits_row _ _ _ _ _ Hfit Hy).
  destruct Hfit as (? & ? & ? & ?). unfold in_range. lia.
Qed.

Lemma written_step y (k : nat) buf :
  0 <= y < height -> Z.of_nat k < width ->
  written (y * stride + Z.of_nat k * 4)
          (fun y' x' => y' < y \/ y' = y /\ x' < Z.of_nat k) buf ->
  exists buf', body y (Z.of_nat k) buf = Some buf' /\
    written (y * stride + Z.of_nat (S k) * 4)
            (fun y' x' => y' < y \/ y' = y /\ x' < Z.of_nat (S k)) buf'.
Proof.
  intros Hy Hk (Hlen & Hrest & Hdone).
  assert (0 <= Z.of_nat k < width) as Hx by lia.
  set (a := y * stride + Z.of_nat k * 4).
  pose proof (cell_in_range _ _ Hy Hx) as Hr. fold a in Hr.
  pose proof (new_length _ _ Hy Hx) as Hnew.
  rewrite (body_cell y (Z.of_nat k) buf Hy Hx Hlen) by (apply Hrest; lia).
  fold a.
  destruct (write_bytes_Some buf a (new y (Z.of_nat k))) as [buf' Hw].
  { rewrite Hnew. unfold in_range in *. lia. }
  exists buf'. split; [done|].
  pose proof (bytes_at_write_same _ _ _ _ Hw) as Hsame.
  rewrite Hnew in Hsame.
  split; [|split].
  - rewrite <- Hlen. by eapply write_bytes_length.
  - intros a' n Ha'. rewrite <- Hrest by lia.
    eapply bytes_at_write_other; [done|]. rewrite Hnew. lia.
  - intros y' x' Hy' Hx' Hd.
    destruct (decide (y' = y /\ x' = Z.of_nat k)) as [[-> ->]|Hne];
      [done|].
    rewrite <- (Hdone y' x' Hy' Hx') by lia.
    eapply bytes_at_write_other; [done|]. left.
    destruct Hd as [Hlt|[-> ?]]; [|lia].
    pose proof (fits_rows_lt _ _ _ _ y' y Hfit ltac:(lia) Hlt).
    destruct Hfit as (? & ? & ? & ?). lia.
Qed.

Lemma written_row (j : nat) buf :
  Z.of_nat j < height ->
  written (Z.of_nat j * stride) (fun y' _ => y' < Z.of_nat j) buf ->
  exists buf', for_loop (upto width) (body (Z.of_nat j)) buf = Some buf' /\
    written (Z.of_nat (S j) * stride)
            (fun y' _ => y' < Z.of_nat (S j)) buf'.
Proof.
  intros Hj (Hlen & Hrest & Hdone).
  destruct (for_loop_invariant
    (fun k => written (Z.of_nat j * stride + Z.of_nat k * 4)
       (fun y' x' => y' < Z.of_nat j \/ y' = Z.of_nat j /\ x' < Z.of_nat k))
    (upto width) (body (Z.of_nat j)) buf) as (buf' & Hrun & Hinv).
  - split; [done|]. split.
    + intros a n Ha. apply Hrest. lia.
    + intros y x Hy Hx Hd. apply Hdone; [done..|lia].
  - intros k i s [-> Hk]%upto_lookup Hs. apply written_step; [lia..|done].
  - exists buf'. split; [done|]. destruct Hfit as (? & ? & ? & ?).
    destruct Hinv as (Hlen' & Hrest' & Hdone').
    rewrite upto_length in Hrest', Hdone' by done.
    split; [done|]. split.
    + intros a n Ha. apply Hrest'. lia.
    + intros y x Hy Hx Hd. apply Hdone'; [done..|lia].
Qed.

(** The loop nest runs to completion, keeps the size of the buffer and
    leaves the new content in every cell of the image. *)
Lemma cell_loop_run :
  exists buf',
    for_loop (upto height) (fun y => for_loop (upto width) (body y)) buf0
      = Some buf' /\
    length buf' = length buf0 /\
    forall y x, 0 <= y < height -> 0 <= x < width ->
      bytes_at buf' (y * stride + x * 4) 4 = Some (new y x).
Proof.
  destruct (for_loop_invariant
    (fun j => written (Z.of_nat j * stride) (fun y' _ => y' < Z.of_nat j))
    (upto height) (fun y => for_loop (upto width) (body y)) buf0)
    as (buf' & Hrun & Hinv).
  - split; [done|]. split; [done|]. intros y x Hy Hx Hd. lia.
  - intros j i s [-> Hj]%upto_lookup Hs. by apply written_row.
  - exists buf'. split; [done|]. destruct Hfit as (? & ? & ? & ?).
    destruct Hinv as (Hlen' & _ & Hdone').
    rewrite upto_length in Hdone' by done.
    split; [done|]. intros y x Hy Hx. apply Hdone'; [done..|lia].
Qed.

End CellLoop.

(** ** The eight cell-to-cell kernels *)

Lemma cell_four (cell : list byte) buf a :
  Mem.bytes_at buf a 4 = Some cell ->
  exists b0 b1 b2 b3, cell = [b0; b1; b2; b3].
Proof.
  intros H%bytes_at_length.
  destruct cell as [|b0 [|b1 [|b2 [|b3 [|]]]]]; try done. eauto.
Qed.

Lemma load32_store32 e buf a w buf' :
  store32 e buf a w = Some buf' ->
  load32 e buf' a = Some (Z.land w (Z.ones 32)).
Proof.
  intros Hw%bytes_at_write_same. rewrite cell_of_word_length in Hw.
  unfold load32. change (Z.of_nat 4) with 4 in Hw. rewrite Hw. simpl.
  by rewrite word_of_cell_of_word.
Qed.

Lemma cell_kernel_converts e f body buf width height stride :
  fits width height stride (Z.of_nat (length buf)) ->
  height * stride <= INT_MAX ->
  (forall b0 b1 b2 b3,
     Z.land (f b0 b1 b2 b3) (Z.ones 32) = f b0 b1 b2 b3) ->
  (forall y x buf' b0 b1 b2 b3,
     0 <= y < height -> 0 <= x < width ->
     Mem.bytes_at buf' (y * stride + x * 4) 4 = Some [b0; b1; b2; b3] ->
     body y x buf' = store32 e buf' (y * stride + x * 4) (f b0 b1 b2 b3)) ->
  converts_cells_at e f
    (for_loop (upto height) (fun y => for_loop (upto width) (body y)) buf)
    buf width height stride.
Proof.
  intros Hfit Hint Hf Hbody.
  set (new := fun y x =>
    cell_of_word e (on_cell f (default []
      (Mem.bytes_at buf (y * stride + x * 4) 4)))).
  destruct (cell_loop_run body new width height stride buf Hfit)
    as (buf' & Hrun & Hlen & Hcells).
  { intros. apply cell_of_word_length. }
  { intros y x b Hy Hx _ Hcell.
    pose proof (cell_in_range _ _ _ _ Hfit _ _ Hy Hx) as Hr.
    rewrite (bytes_at_in_range _ _ _ Hr) in Hcell.
    destruct (cell_four _ _ _ Hcell) as (b0 & b1 & b2 & b3 & Hc).
    rewrite Hc in Hcell.
    rewrite (Hbody _ _ _ _ _ _ _ Hy Hx Hcell). unfold store32, new.
    by rewrite (bytes_at_in_range _ _ _ Hr), Hc. }
  exists buf'. split; [done|]. split; [done|]. intros y x Hy Hx.
  pose proof (cell_in_range _ _ _ _ Hfit _ _ Hy Hx) as Hr.
  destruct (cell_four _ _ _ (bytes_at_in_range _ _ _ Hr))
    as (b0 & b1 & b2 & b3 & Hc).
  exists b0, b1, b2, b3. rewrite (bytes_at_in_range _ _ _ Hr), Hc.
  split; [done|].
  unfold load32. rewrite (Hcells y x Hy Hx). unfold new.
  rewrite (bytes_at_in_range _ _ _ Hr), Hc. simpl.
  by rewrite word_of_cell_of_word, Hf.
Qed.

Lemma rgb24_word r g b : Z.land (rgb24 r g b) (Z.ones 32) = rgb24 r g b.
Proof. unfold rgb24. mask_bytes. bits. Qed.

Ltac read_cell Hcell :=
  repeat match goal with
  | |- context [Mem.load8 ?buf (?a + ?k)] =>
      rewrite (load8_bytes_at buf a 4 _ k Hcell) by lia
  | |- context [Mem.load8 ?buf ?a] =>
      replace (Mem.load8 buf a) with (Mem.load8 buf (a + 0))
        by (f_equal; lia)
  end.

Ltac cell_kernel Hfit Hint :=
  apply cell_kernel_converts; [exact Hfit | exact Hint | |];
  [ intros
  | intros y x buf' b0 b1 b2 b3 Hy Hx Hcell;
    rewrite (pixel_offset_Some _ _ _ _ _ _ _ Hfit Hint Hy Hx) by lia;
    cbn [mbind option_bind] ].

Lemma cairo_rgb24_from_xrgb32_le_converts e buf width height stride :
  fits width height stride (Z.of_nat (length buf)) ->
  height * stride <= INT_MAX ->
  converts_cells_at e (fun b0 b1 b2 b3 => rgb24 b2 b1 b0)
    (cairo_rgb24_from_xrgb32_le e buf width height stride)
    buf width height stride.
Proof.
  intros Hfit Hint. unfold cairo_rgb24_from_xrgb32_le.
  cell_kernel Hfit Hint; [apply rgb24_word|].
  read_cell Hcell. done.
Qed.

Lemma cairo_rgb24_from_xbgr32_le_converts e buf width height stride :
  fits width height stride (Z.of_nat (length buf)) ->
  height * stride <= INT_MAX ->
  converts_cells_at e (fun b0 b1 b2 b3 => rgb24 b0 b1 b2)
    (cairo_rgb24_from_xbgr32_le e buf width height stride)
    buf width height stride.
Proof.
  intros Hfit Hint. unfold cairo_rgb24_from_xbgr32_le.
  cell_kernel Hfit Hint; [apply rgb24_word|].
  read_cell Hcell. done.
Qed.

Lemma cairo_rgb24_swap_rb_converts e buf width height stride :
  fits width height stride (Z.of_nat (length buf)) ->
  height * stride <= INT_MAX ->
  converts_cells_at e (fun b0 b1 b2 b3 => rgb24 b0 b1 b2)
    (cairo_rgb24_swap_rb e buf width height stride)
    buf width height stride.
Proof.
  intros Hfit Hint. unfold cairo_rgb24_swap_rb.
  cell_kernel Hfit Hint; [apply rgb24_word|].
  read_cell Hcell. done.
Qed.

(** Three masked fields packed as [0 | a << 16 | b << 8 | c]. *)
Lemma fields_word a b c :
  let w := Z.lor (Z.lor (Z.lor 0 (Z.shiftl (Z.land a 255) 16))
                        (Z.shiftl (Z.land b 255) 8))
                 (Z.land c 255) in
  Z.land w (Z.ones 32) = w /\ Z.shiftr w 24 = 0 /\
  Z.land (Z.shiftr w 16) 255 = Z.land a 255 /\
  Z.land (Z.shiftr w 8) 255 = Z.land b 255 /\
  Z.land w 255 = Z.land c 255.
Proof. cbv zeta. repeat split; bits. Qed.

Lemma xrgb2101010_word color :
  Z.land (xrgb2101010_to_rgb24 color) (Z.ones 32)
    = xrgb2101010_to_rgb24 color.
Proof. unfold xrgb2101010_to_rgb24. exact (proj1 (fields_word _ _ _)). Qed.

Lemma xbgr2101010_word color :
  Z.land (xbgr2101010_to_rgb24 color) (Z.ones 32)
    = xbgr2101010_to_rgb24 color.
Proof. unfold xbgr2101010_to_rgb24. exact (proj1 (fields_word _ _ _)). Qed.

Lemma rgbx1010102_word color :
  Z.land (rgbx1010102_to_rgb24 color) (Z.ones 32)
    = rgbx1010102_to_rgb24 color.
Proof. unfold rgbx1010102_to_rgb24. exact (proj1 (fields_word _ _ _)). Qed.

Lemma bgrx1010102_word color :
  Z.land (bgrx1010102_to_rgb24 color) (Z.ones 32)
    = bgrx1010102_to_rgb24 color.
Proof. unfold bgrx1010102_to_rgb24. exact (proj1 (fields_word _ _ _)). Qed.

Ltac read_word Hcell :=
  unfold load32; rewrite Hcell; cbn [fmap option_fmap option_map mbind option_bind];
  rewrite le32toh_word_of_cell.

Lemma cairo_rgb24_from_xrgb2101010_le_converts e buf width height stride :
  fits width height stride (Z.of_nat (length buf)) ->
  height * stride <= INT_MAX ->
  converts_cells_at e
    (fun b0 b1 b2 b3 => xrgb2101010_to_rgb24 (le32 b0 b1 b2 b3))
    (cairo_rgb24_from_xrgb2101010_le e buf width height stride)
    buf width height stride.
Proof.
  intros Hfit Hint. unfold cairo_rgb24_from_xrgb2101010_le.
  cell_kernel Hfit Hint; [apply xrgb2101010_word|].
  read_word Hcell. done.
Qed.

Lemma cairo_rgb24_from_xbgr2101010_le_converts e buf width height stride :
  fits width height stride (Z.of_nat (length buf)) ->
  height * stride <= INT_MAX ->
  converts_cells_at e
    (fun b0 b1 b2 b3 => xbgr2101010_to_rgb24 (le32 b0 b1 b2 b3))
    (cairo_rgb24_from_xbgr2101010_le e buf width height stride)
    buf width height stride.
Proof.
  intros Hfit Hint. unfold cairo_rgb24_from_xbgr2101010_le.
  cell_kernel Hfit Hint; [apply xbgr2101010_word|].
  read_word Hcell. done.
Qed.

Lemma cairo_rgb24_from_rgbx1010102_le_converts e buf width height stride :
  fits width height stride (Z.of_nat (length buf)) ->
  height * stride <= INT_MAX ->
  converts_cells_at e
    (fun b0 b1 b2 b3 => rgbx1010102_to_rgb24 (le32 b0 b1 b2 b3))
    (cairo_rgb24_from_rgbx1010102_le e buf width height stride)
    buf width height stride.
Proof.
  intros Hfit Hint. unfold cairo_rgb24_from_rgbx1010102_le.
  cell_kernel Hfit Hint; [apply rgbx1010102_word|].
  read_word Hcell. done.
Qed.

Lemma cairo_rgb24_from_bgrx1010102_le_converts e buf width height stride :
  fits width height stride (Z.of_nat (length buf)) ->
  height * stride <= INT_MAX ->
  converts_cells_at e
    (fun b0 b1 b2 b3 => bgrx1010102_to_rgb24 (le32 b0 b1 b2 b3))
    (cairo_rgb24_from_bgrx1010102_le e buf width height stride)
    buf width height stride.
Proof.
  intros Hfit Hint. unfold cairo_rgb24_from_bgrx1010102_le.
  cell_kernel Hfit Hint; [apply bgrx1010102_word|].
  read_word Hcell. done.
Qed.

(** ** The in-place widening kernel *)

Section Widen.
Import Mem.
Variable e : endianness.
Variables width height stride : Z.
Variable buf0 : list byte.

Hypothesis Hfit : fits width height stride (Z.of_nat (length buf0)).
Hypothesis Hint : height * stride <= INT_MAX.

Local Abbreviation widened := (widened_from e width height stride buf0).

Lemma three_bytes buf a :
  in_range buf a 3 ->
  exists s0 s1 s2, bytes_at buf a 3 = Some [s0; s1; s2].
Proof.
  intros Hr. rewrite (bytes_at_in_range _ _ _ Hr).
  pose proof (bytes_at_length _ _ _ _ (bytes_at_in_range _ _ _ Hr)) as Hl.
  destruct (take _ _) as [|s0 [|s1 [|s2 [|]]]]; try done. eauto.
Qed.

Lemma widened_step y x buf :
  0 <= y < height -> 0 <= x < width ->
  widened y (x + 1) buf ->
  exists buf', widen_bgr888_pixel e stride y x buf = Some buf' /\
    widened y x buf'.
Proof.
  intros Hy Hx (Hlen & Hrest & Hdone).
  destruct (fits_row _ _ _ _ _ Hfit Hy) as [Hrow0 Hrow1].
  pose proof Hfit as (Hw & Hh & Hs & Hl).
  destruct (three_bytes buf0 (y * stride + x * 3)) as (s0 & s1 & s2 & Hsrc0).
  { unfold in_range. lia. }
  assert (bytes_at buf (y * stride + x * 3) 3 = Some [s0; s1; s2]) as Hsrc.
  { rewrite <- Hsrc0. apply Hrest. lia. }
  unfold widen_bgr888_pixel.
  rewrite !(pixel_offset_Some _ _ _ _ _ _ _ Hfit Hint Hy Hx) by lia.
  cbn [mbind option_bind].
  replace (load8 buf (y * stride + x * 3))
    with (load8 buf (y * stride + x * 3 + 0)) by (f_equal; lia).
  rewrite !(load8_bytes_at buf _ 3 _ _ Hsrc) by lia.
  cbn [mbind option_bind lookup list_lookup Z.to_nat Pos.to_nat
       Pos.iter_op Init.Nat.add].
  unfold store32.
  destruct (write_bytes_Some buf (y * stride + x * 4)
              (cell_of_word e (rgb24 s0 s1 s2))) as [buf' Hwr].
  { rewrite cell_of_word_length. unfold in_range. lia. }
  exists buf'. split; [done|].
  split; [|split].
  - rewrite <- Hlen. by eapply write_bytes_length.
  - intros a n Ha. rewrite <- Hrest by lia.
    eapply bytes_at_write_other; [done|].
    rewrite cell_of_word_length. lia.
  - intros y' x' Hy' Hx' Hd.
    destruct (decide (y' = y /\ x' = x)) as [[-> ->]|Hne].
    + exists s0, s1, s2. split; [done|].
      rewrite (load32_store32 _ _ _ _ _ Hwr). by rewrite rgb24_word.
    + destruct (Hdone y' x' Hy' Hx') as (t0 & t1 & t2 & Ht0 & Ht); [lia|].
      exists t0, t1, t2. split; [done|]. rewrite <- Ht. unfold load32.
      f_equal. eapply bytes_at_write_other; [done|].
      rewrite cell_of_word_length.
      destruct Hd as [Hlt|[-> ?]]; [left|right; lia].
      pose proof (fits_rows_lt _ _ _ _ y' y Hfit ltac:(lia) Hlt). lia.
Qed.

Lemma widened_row (j : nat) buf :
  Z.of_nat j < height ->
  widened (Z.of_nat j) width buf ->
  exists buf',
    (first ← int_arith (width - 1);
     for_loop (downfrom first) (widen_bgr888_pixel e stride (Z.of_nat j))
              buf) = Some buf' /\
    widened (Z.of_nat j) 0 buf'.
Proof.
  intros Hj Hstart. pose proof Hfit as (Hw & Hh & Hstr & _).
  rewrite int_arith_Some by (unfold INT_MIN; nia).
  cbn [mbind option_bind].
  destruct (for_loop_invariant
    (fun k => widened (Z.of_nat j) (width - Z.of_nat k))
    (downfrom (width - 1)) (widen_bgr888_pixel e stride (Z.of_nat j)) buf)
    as (buf' & Hrun & Hinv).
  - by rewrite Z.sub_0_r.
  - intros k i s [-> Hk]%downfrom_lookup Hs.
    replace (width - Z.of_nat (S k)) with (width - 1 - Z.of_nat k) by lia.
    apply widened_step; [lia..|].
    by replace (width - 1 - Z.of_nat k + 1) with (width - Z.of_nat k) by lia.
  - exists buf'. split; [done|].
    by rewrite downfrom_length, Z.sub_diag in Hinv.
Qed.

(** The kernel runs to completion; every four-byte cell is then built from
    the three bytes its pixel had before the call. *)
Lemma bgr888_widens :
  exists buf',
    cairo_rgb24_from_bgr888_le e buf0 width height stride = Some buf' /\
    length buf' = length buf0 /\
    forall y x, 0 <= y < height -> 0 <= x < width ->
      exists s0 s1 s2,
        bytes_at buf0 (y * stride + x * 3) 3 = Some [s0; s1; s2] /\
        load32 e buf' (y * stride + x * 4) = Some (rgb24 s0 s1 s2).
Proof.
  pose proof Hfit as (Hw & Hh & Hs & Hl).
  destruct (for_loop_invariant
    (fun j => widened (Z.of_nat j) width)
    (upto height)
    (fun y buf =>
       first ← int_arith (width - 1);
       for_loop (downfrom first) (widen_bgr888_pixel e stride y) buf)
    buf0) as (buf' & Hrun & Hinv).
  - split; [done|]. split; [done|]. intros y x Hy Hx Hd. lia.
  - intros j i s [-> Hj]%upto_lookup Hinv.
    destruct (widened_row j s Hj Hinv)
      as (s' & Hrow & (Hlen & Hrest & Hdone)).
    exists s'. split; [done|]. split; [done|]. split.
    + intros a n Ha. apply Hrest. right.
      pose proof (fits_rows_lt _ _ _ _ (Z.of_nat j) (Z.of_nat (S j)) Hfit).
      lia.
    + intros y x Hy Hx Hd. apply Hdone; [done..|lia].
  - exists buf'. split; [done|]. destruct Hinv as (Hlen & _ & Hdone).
    rewrite upto_length in Hdone by done.
    split; [done|]. intros y x Hy Hx. apply Hdone; [done..|lia].
Qed.

End Widen.

(** ** The kernels on single pixels *)

Example xbgr32_pixel :
  cairo_rgb24_from_xbgr32_le LittleEndian
    [Byte.x10; Byte.x20; Byte.x30; Byte.xff] 1 1 4
  = Some [Byte.x30; Byte.x20; Byte.x10; Byte.x00].
Proof. vm_compute. reflexivity. Qed.

Example xrgb32_pixel :
  cairo_rgb24_from_xrgb32_le LittleEndian
    [Byte.x30; Byte.x20; Byte.x10; Byte.xff] 1 1 4
  = Some [Byte.x30; Byte.x20; Byte.x10; Byte.x00].
Proof. vm_compute. reflexivity. Qed.

Example xbgr32_pixel_big_endian :
  cairo_rgb24_from_xbgr32_le BigEndian
    [Byte.x10; Byte.x20; Byte.x30; Byte.xff] 1 1 4
  = Some [Byte.x00; Byte.x10; Byte.x20; Byte.x30].
Proof. vm_compute. reflexivity. Qed.

(** All fields at 1023 (bytes ff ff ff 3f) give 255 in every channel. *)
Example xrgb2101010_pixel_max :
  cairo_rgb24_from_xrgb2101010_le LittleEndian
    [Byte.xff; Byte.xff; Byte.xff; Byte.x3f] 1 1 4
  = Some [Byte.xff; Byte.xff; Byte.xff; Byte.x00].
Proof. vm_compute. reflexivity. Qed.

(** A red field of 3 is truncated to 0, not rounded to 1. *)
Example xrgb2101010_pixel_truncates :
  xrgb2101010_to_rgb24 (Z.shiftl 3 20) = 0.
Proof. reflexivity. Qed.

(** Two 3-byte pixels widened in place, last pixel first. *)
Example bgr888_two_pixels :
  cairo_rgb24_from_bgr888_le LittleEndian
    [Byte.x01; Byte.x02; Byte.x03; Byte.x11; Byte.x12; Byte.x13;
     Byte.x00; Byte.x00] 2 1 8
  = Some [Byte.x03; Byte.x02; Byte.x01; Byte.x00;
          Byte.x13; Byte.x12; Byte.x11; Byte.x00].
Proof. vm_compute. reflexivity. Qed.

(** A kernel steps outside its buffer: no defined result. *)
Example xbgr32_out_of_bounds :
  cairo_rgb24_from_xbgr32_le LittleEndian
    [Byte.x10; Byte.x20; Byte.x30; Byte.xff] 2 1 8 = None.
Proof. vm_compute. reflexivity. Qed.

(** [y * stride] overflows an [int]. *)
Example pixel_offset_overflow : pixel_offset 32766 131068 0 4 = None.
Proof. vm_compute. reflexivity. Qed.

(** ** The transform switch *)

Section PixelCopy.
Import Mem.
Variable e : endianness.
Variables (srcbuf : list byte) (srcwidth srcheight srcstride : Z).
Variables (dest0 : list byte) (destwidth destheight deststride : Z).
Variables srcx srcy : Z -> Z -> Z.

Hypothesis Hsrc : fits srcwidth srcheight srcstride (Z.of_nat (length srcbuf)).
Hypothesis Hdest :
  fits destwidth destheight deststride (Z.of_nat (length dest0)).
Hypothesis Hmap : forall destx desty,
  0 <= destx < destwidth -> 0 <= desty < destheight ->
  0 <= srcx destx desty < srcwidth /\ 0 <= srcy destx desty < srcheight.

Lemma per_pixel_copy_maps :
  exists dest',
    per_pixel_copy e srcx srcy srcbuf srcstride
                   dest0 destwidth destheight deststride = Some dest' /\
    length dest' = length dest0 /\
    maps_pixels srcbuf srcstride srcx srcy
                dest' destwidth destheight deststride.
Proof.
  set (new := fun desty destx => default []
    (bytes_at srcbuf (srcy destx desty * srcstride
                      + srcx destx desty * 4) 4)).
  assert (forall destx desty,
    0 <= destx < destwidth -> 0 <= desty < destheight ->
    bytes_at srcbuf (srcy destx desty * srcstride + srcx destx desty * 4) 4
      = Some (new desty destx) /\ length (new desty destx) = 4%nat)
    as Hcell.
  { intros destx desty Hx Hy. destruct (Hmap _ _ Hx Hy) as [Hsx Hsy].
    pose proof (cell_in_range _ _ _ _ Hsrc _ _ Hsy Hsx) as Hr.
    unfold new. rewrite (bytes_at_in_range _ _ _ Hr). split; [done|].
    apply (bytes_at_length _ _ _ _ (bytes_at_in_range _ _ _ Hr)). }
  destruct (cell_loop_run
    (fun desty destx destbuf =>
       copy_pixel e srcbuf srcstride (srcx destx desty) (srcy destx desty)
                  destbuf deststride destx desty)
    new destwidth destheight deststride dest0 Hdest)
    as (dest' & Hrun & Hlen & Hcells).
  { intros y x Hy Hx. by apply Hcell. }
  { intros y x buf Hy Hx _ _. destruct (Hcell x y Hx Hy) as [Hc Hl].
    unfold copy_pixel, load32, store32. rewrite Hc. simpl.
    by rewrite cell_of_word_of_cell. }
  exists dest'. split; [done|]. split; [done|].
  intros destx desty Hx Hy. exists (new desty destx).
  split; [by apply Hcell | by apply Hcells].
Qed.

End PixelCopy.

Section RowCopy.
Import Mem.
Variables (srcbuf : list byte) (srcstride : Z).
Variables (dest0 : list byte) (width height deststride : Z).
Variable minstride : Z.
Variable srcrow : Z -> Z.

Hypothesis Hsrc : fits width height srcstride (Z.of_nat (length srcbuf)).
Hypothesis Hdest : fits width height deststride (Z.of_nat (length dest0)).
Hypothesis Hmin :
  4 * width <= minstride /\ minstride <= srcstride /\
  minstride <= deststride.
Hypothesis Hrow : forall y, 0 <= y < height -> 0 <= srcrow y < height.

(** Copying the first [minstride] bytes of every row copies every cell. *)
Lemma row_copy_maps :
  exists dest',
    for_loop (upto height) (fun y destbuf =>
      memcpy destbuf (y * deststride) srcbuf (srcrow y * srcstride)
             minstride) dest0 = Some dest' /\
    length dest' = length dest0 /\
    maps_pixels srcbuf srcstride (fun destx _ => destx)
                (fun _ desty => srcrow desty)
                dest' width height deststride.
Proof.
  pose proof Hsrc as (Hw & Hh & Hss & Hsl).
  pose proof Hdest as (_ & _ & Hds & Hdl).
  destruct (for_loop_invariant
    (fun (j : nat) dest => length dest = length dest0 /\
       forall y, 0 <= y < Z.of_nat j ->
         bytes_at dest (y * deststride) minstride
           = bytes_at srcbuf (srcrow y * srcstride) minstride)
    (upto height)
    (fun y destbuf =>
       memcpy destbuf (y * deststride) srcbuf (srcrow y * srcstride)
              minstride) dest0) as (dest' & Hrun & Hlen & Hrows).
  - split; [done|]. intros; lia.
  - intros j i dest [-> Hj]%upto_lookup [Hlen Hrows].
    assert (0 <= Z.of_nat j < height) as Hy by lia.
    destruct (fits_row _ _ _ _ _ Hsrc (Hrow _ Hy)).
    destruct (fits_row _ _ _ _ _ Hdest Hy).
    destruct (memcpy_Some dest (Z.of_nat j * deststride) srcbuf
                (srcrow (Z.of_nat j) * srcstride) minstride)
      as (dest1 & -> & Hlen1 & Hnew & Hold).
    { unfold in_range. lia. }
    { unfold in_range. rewrite Hlen. lia. }
    exists dest1. split; [done|]. split; [congruence|].
    intros y Hyj. destruct (decide (y = Z.of_nat j)) as [->|Hne]; [done|].
    rewrite <- Hrows by lia. apply Hold. left.
    pose proof (fits_rows_lt _ _ _ _ y (Z.of_nat j) Hdest). lia.
  - exists dest'. split; [done|]. split; [done|].
    rewrite upto_length in Hrows by done.
    intros destx desty Hx Hy.
    destruct (fits_row _ _ _ _ _ Hsrc (Hrow _ Hy)).
    assert (in_range srcbuf (srcrow desty * srcstride) minstride) as Hr
      by (unfold in_range; lia).
    pose proof (bytes_at_in_range _ _ _ Hr) as Hrowbytes.
    eexists. split.
    + by apply (bytes_at_sub _ _ _ _ (destx * 4) 4 Hrowbytes); lia.
    + rewrite <- Hrows in Hrowbytes by done.
      by apply (bytes_at_sub _ _ _ _ (destx * 4) 4 Hrowbytes); lia.
Qed.

(** One [memcpy] of the whole image when the strides agree. *)
Lemma whole_copy_maps :
  srcstride = deststride ->
  exists dest',
    memcpy dest0 0 srcbuf 0 (height * deststride) = Some dest' /\
    length dest' = length dest0 /\
    maps_pixels srcbuf srcstride (fun destx _ => destx)
                (fun _ desty => desty)
                dest' width height deststride.
Proof.
  intros Heq. pose proof Hsrc as (Hw & Hh & Hss & Hsl).
  pose proof Hdest as (_ & _ & Hds & Hdl).
  destruct (memcpy_Some dest0 0 srcbuf 0 (height * deststride))
    as (dest' & Hrun & Hlen & Hnew & _).
  { unfold in_range. nia. }
  { unfold in_range. nia. }
  exists dest'. split; [done|]. split; [done|].
  intros destx desty Hx Hy.
  assert (fits width height deststride (height * deststride)) as Hf
    by (unfold fits; lia).
  destruct (fits_row _ _ _ _ _ Hf Hy).
  assert (in_range srcbuf 0 (height * deststride)) as Hr
    by (unfold in_range; nia).
  pose proof (bytes_at_in_range _ _ _ Hr) as Hall.
  eexists. split.
  - rewrite Heq.
    replace (desty * deststride + destx * 4)
      with (0 + (desty * deststride + destx * 4)) by lia.
    by apply (bytes_at_sub _ _ _ _ _ 4 Hall); lia.
  - rewrite <- Hnew in Hall.
    replace (desty * deststride + destx * 4)
      with (0 + (desty * deststride + destx * 4)) by lia.
    by apply (bytes_at_sub _ _ _ _ _ 4 Hall); lia.
Qed.

End RowCopy.

(** [transform_switch] runs to completion and fills every destination cell
    from the source cell given by [source_x] and [source_y]. *)
Lemma transform_switch_maps e transform srcbuf srcwidth srcheight srcstride
    dest0 deststride :
  let destwidth := if rotated transform then srcheight else srcwidth in
  let destheight := if rotated transform then srcwidth else srcheight in
  fits srcwidth srcheight srcstride (Z.of_nat (length srcbuf)) ->
  fits destwidth destheight deststride (Z.of_nat (length dest0)) ->
  exists dest',
    transform_switch e transform srcbuf srcstride
                     dest0 destwidth destheight deststride = Some dest' /\
    length dest' = length dest0 /\
    maps_pixels srcbuf srcstride
                (source_x transform destwidth destheight)
                (source_y transform destwidth destheight)
                dest' destwidth destheight deststride.
Proof.
  intros destwidth destheight Hsrc Hdest.
  pose proof Hsrc as (Hw & Hh & Hss & Hsl).
  pose proof Hdest as (_ & _ & Hds & Hdl).
  destruct transform; subst destwidth destheight; cbn [rotated] in *;
    try (apply (per_pixel_copy_maps e srcbuf srcwidth srcheight srcstride);
         [done | done | intros; cbn [source_x source_y]; lia]).
  - (* normal: one memcpy, or one memcpy a row *)
    cbn [transform_switch]. case_decide as Heq.
    + by apply whole_copy_maps.
    + apply (row_copy_maps srcbuf srcstride dest0 srcwidth srcheight
               deststride _ (fun y => y)); [done..| |done].
      case_decide; lia.
  - (* flipped 180: one memcpy a row, bottom up *)
    cbn [transform_switch].
    apply (row_copy_maps srcbuf srcstride dest0 srcwidth srcheight
             deststride _ (fun y => srcheight - y - 1));
      [done..| |intros; lia].
    case_decide; lia.
Qed.

(** ** Channels of the converted words *)

Lemma byte_land_255 b : Z.land (byte.unsigned b) 255 = byte.unsigned b.
Proof.
  change 255 with (Z.ones 8). rewrite Z.land_ones by lia.
  apply byte.wrap_unsigned.
Qed.

Lemma rgb24_channels r g b :
  red (rgb24 r g b) = byte.unsigned r /\
  green (rgb24 r g b) = byte.unsigned g /\
  blue (rgb24 r g b) = byte.unsigned b /\
  Z.shiftr (rgb24 r g b) 24 = 0.
Proof.
  unfold red, green, blue, rgb24.
  rewrite <- (byte_land_255 r), <- (byte_land_255 g), <- (byte_land_255 b).
  destruct (fields_word (byte.unsigned r) (byte.unsigned g)
              (byte.unsigned b)) as (_ & H24 & Hr & Hg & Hb).
  cbv zeta in *. rewrite Hr, Hg, Hb, H24.
  by rewrite !byte_land_255.
Qed.

Lemma le32_channels b0 b1 b2 b3 :
  red (le32 b0 b1 b2 b3) = byte.unsigned b2 /\
  green (le32 b0 b1 b2 b3) = byte.unsigned b1 /\
  blue (le32 b0 b1 b2 b3) = byte.unsigned b0.
Proof.
  unfold red, green, blue.
  by destruct (land_le32 b0 b1 b2 b3) as (-> & -> & -> & _).
Qed.

(** The top eight bits of a 10-bit field. *)
Lemma top8_of_channel10 color lsb :
  0 <= lsb ->
  Z.land (Z.shiftr color (lsb + 2)) 255 = Z.shiftr (channel10 color lsb) 2.
Proof. intros. unfold channel10. bits. Qed.

Lemma truncates10_shiftr color lsb :
  0 <= lsb ->
  truncates10 (channel10 color lsb) (Z.shiftr (channel10 color lsb) 2).
Proof.
  intros Hlsb. unfold truncates10.
  assert (0 <= channel10 color lsb < 1024) as Hrange.
  { unfold channel10. change 1023 with (Z.ones 10).
    rewrite Z.land_ones by lia. apply Z.mod_pos_bound. lia. }
  rewrite Z.shiftr_div_pow2 by lia. change (2 ^ 2) with 4.
  repeat split; try (intros ->; reflexivity);
    [apply Z.div_pos | apply Z.lt_succ_r, Z.div_lt_upper_bound]; lia.
Qed.

Lemma truncates10_top8 color lsb out :
  0 <= lsb ->
  out = Z.land (Z.shiftr color (lsb + 2)) 255 ->
  truncates10 (channel10 color lsb) out.
Proof.
  intros Hlsb ->. rewrite top8_of_channel10 by done.
  by apply truncates10_shiftr.
Qed.

Lemma ten_bit_channels f color :
  let word := ten_bit_to_rgb24 f color in
  truncates10 (channel10 color (red_lsb f)) (red word) /\
  truncates10 (channel10 color (green_lsb f)) (green word) /\
  truncates10 (channel10 color (blue_lsb f)) (blue word) /\
  Z.shiftr word 24 = 0.
Proof.
  destruct f; cbv zeta;
    unfold red, green, blue, ten_bit_to_rgb24, xrgb2101010_to_rgb24, xbgr2101010_to_rgb24,
      rgbx1010102_to_rgb24, bgrx1010102_to_rgb24;
    match goal with
    | |- context [Z.lor (Z.lor (Z.lor 0 (Z.shiftl (Z.land ?a 255) 16))
                               (Z.shiftl (Z.land ?b 255) 8))
                        (Z.land ?c 255)] =>
        destruct (fields_word a b c) as (_ & H24 & Hr & Hg & Hb)
    end;
    cbv zeta in *; rewrite Hr, Hg, Hb, H24;
    (split; [|split; [|split]]); try reflexivity;
    (apply truncates10_top8; [simpl; lia | reflexivity]).
Qed.

Lemma ten_bit_kernel_converts f e buf width height stride :
  fits width height stride (Z.of_nat (length buf)) ->
  height * stride <= INT_MAX ->
  converts_cells_at e
    (fun b0 b1 b2 b3 => ten_bit_to_rgb24 f (le32 b0 b1 b2 b3))
    (ten_bit_kernel f e buf width height stride)
    buf width height stride.
Proof.
  destruct f; cbn [ten_bit_kernel ten_bit_to_rgb24];
    [ apply cairo_rgb24_from_xrgb2101010_le_converts
    | apply cairo_rgb24_from_xbgr2101010_le_converts
    | apply cairo_rgb24_from_rgbx1010102_le_converts
    | apply cairo_rgb24_from_bgrx1010102_le_converts ].
Qed.

(** * The claims *)

(** ** C1: the 90 degree transform *)

(** C1, as stated, fails: on the 2 x 2 marker image the 90 degree case
    fills destination cell (0, 0) from source cell (0, 1), while the map
    srcX = destHeight - destY - 1, srcY = destWidth - destX - 1 names
    source cell (1, 1). *)
Lemma C1_counterexample :
  exists dest',
    transform_switch LittleEndian WL_OUTPUT_TRANSFORM_90
      markers_2x2 8 blank_2x2 2 2 8 = Some dest' /\
    Mem.bytes_at dest' (0 * 8 + 0 * 4) 4
      = Some [Byte.x21; Byte.x22; Byte.x23; Byte.x24] /\
    Mem.bytes_at markers_2x2 ((2 - 0 - 1) * 8 + (2 - 0 - 1) * 4) 4
      = Some [Byte.x31; Byte.x32; Byte.x33; Byte.x34] /\
    ~ maps_pixels markers_2x2 8
        (fun destx desty => 2 - desty - 1) (fun destx desty => 2 - destx - 1)
        dest' 2 2 8.
Proof.
  eexists. split; [vm_compute; reflexivity|].
  split; [vm_compute; reflexivity|]. split; [vm_compute; reflexivity|].
  intros H. destruct (H 0 0) as (cell & Hs & Hd); [lia..|].
  vm_compute in Hs, Hd. congruence.
Qed.

(** C1, amended: for the 90 degree transform every destination cell
    (destX, destY) equals the source cell at srcX = destY,
    srcY = destWidth - destX - 1; the source image is destHeight wide and
    destWidth high. *)
Theorem C1_transform_90 e srcbuf srcstride dest0
    destwidth destheight deststride :
  fits destheight destwidth srcstride (Z.of_nat (length srcbuf)) ->
  fits destwidth destheight deststride (Z.of_nat (length dest0)) ->
  exists dest',
    transform_switch e WL_OUTPUT_TRANSFORM_90 srcbuf srcstride
      dest0 destwidth destheight deststride = Some dest' /\
    length dest' = length dest0 /\
    maps_pixels srcbuf srcstride
      (fun destx desty => desty) (fun destx desty => destwidth - destx - 1)
      dest' destwidth destheight deststride.
Proof.
  intros Hsrc Hdest.
  exact (transform_switch_maps e WL_OUTPUT_TRANSFORM_90 srcbuf
           destheight destwidth srcstride dest0 deststride Hsrc Hdest).
Qed.

Lemma C1_transform_90_witness :
  exists dest',
    transform_switch LittleEndian WL_OUTPUT_TRANSFORM_90 markers_2x2 8
      blank_2x2 2 2 8 = Some dest' /\
    length dest' = length blank_2x2 /\
    maps_pixels markers_2x2 8
      (fun destx desty => desty) (fun destx desty => 2 - destx - 1)
      dest' 2 2 8.
Proof.
  apply (C1_transform_90 LittleEndian markers_2x2 8 blank_2x2 2 2 8);
    unfold fits; simpl; lia.
Defined.

(** ** C3: the 270 degree transform *)

(** C3, as stated, fails: on the 2 x 2 marker image the 270 degree case
    fills destination cell (0, 0) from source cell (1, 0), while the map
    srcX = destY, srcY = destX names source cell (0, 0). *)
Lemma C3_counterexample :
  exists dest',
    transform_switch LittleEndian WL_OUTPUT_TRANSFORM_270
      markers_2x2 8 blank_2x2 2 2 8 = Some dest' /\
    Mem.bytes_at dest' (0 * 8 + 0 * 4) 4
      = Some [Byte.x11; Byte.x12; Byte.x13; Byte.x14] /\
    Mem.bytes_at markers_2x2 (0 * 8 + 0 * 4) 4
      = Some [Byte.x01; Byte.x02; Byte.x03; Byte.x04] /\
    ~ maps_pixels markers_2x2 8
        (fun destx desty => desty) (fun destx desty => destx)
        dest' 2 2 8.
Proof.
  eexists. split; [vm_compute; reflexivity|].
  split; [vm_compute; reflexivity|]. split; [vm_compute; reflexivity|].
  intros H. destruct (H 0 0) as (cell & Hs & Hd); [lia..|].
  vm_compute in Hs, Hd. congruence.
Qed.

(** C3, amended: for the 270 degree transform every destination cell
    (destX, destY) equals the source cell at
    srcX = destHeight - destY - 1, srcY = destX. *)
Theorem C3_transform_270 e srcbuf srcstride dest0
    destwidth destheight deststride :
  fits destheight destwidth srcstride (Z.of_nat (length srcbuf)) ->
  fits destwidth destheight deststride (Z.of_nat (length dest0)) ->
  exists dest',
    transform_switch e WL_OUTPUT_TRANSFORM_270 srcbuf srcstride
      dest0 destwidth destheight deststride = Some dest' /\
    length dest' = length dest0 /\
    maps_pixels srcbuf srcstride
      (fun destx desty => destheight - desty - 1) (fun destx desty => destx)
      dest' destwidth destheight deststride.
Proof.
  intros Hsrc Hdest.
  exact (transform_switch_maps e WL_OUTPUT_TRANSFORM_270 srcbuf
           destheight destwidth srcstride dest0 deststride Hsrc Hdest).
Qed.

Lemma C3_transform_270_witness :
  exists dest',
    transform_switch LittleEndian WL_OUTPUT_TRANSFORM_270 markers_2x2 8
      blank_2x2 2 2 8 = Some dest' /\
    length dest' = length blank_2x2 /\
    maps_pixels markers_2x2 8
      (fun destx desty => 2 - desty - 1) (fun destx desty => destx)
      dest' 2 2 8.
Proof.
  apply (C3_transform_270 LittleEndian markers_2x2 8 blank_2x2 2 2 8);
    unfold fits; simpl; lia.
Defined.

(** ** C8: the row-copy fast paths *)

(** C8: for the normal and the flipped-180 transforms, the row copies of
    [transform_switch] and the per-pixel copy under the coordinate map of
    the transform (srcX = destX, srcY = destY; srcX = destX,
    srcY = destHeight - destY - 1) both run to completion and leave the
    same bytes in every destination cell, for any strides of at least
    four bytes a pixel. *)
Theorem C8_row_copy_is_per_pixel_copy e srcbuf srcstride dest0
    width height deststride :
  fits width height srcstride (Z.of_nat (length srcbuf)) ->
  fits width height deststride (Z.of_nat (length dest0)) ->
  (exists fast slow,
     transform_switch e WL_OUTPUT_TRANSFORM_NORMAL srcbuf srcstride
       dest0 width height deststride = Some fast /\
     per_pixel_copy e (fun destx desty => destx) (fun destx desty => desty)
       srcbuf srcstride dest0 width height deststride = Some slow /\
     same_cells fast deststride slow deststride width height) /\
  (exists fast slow,
     transform_switch e WL_OUTPUT_TRANSFORM_FLIPPED_180 srcbuf srcstride
       dest0 width height deststride = Some fast /\
     per_pixel_copy e (fun destx desty => destx)
       (fun destx desty => height - desty - 1)
       srcbuf srcstride dest0 width height deststride = Some slow /\
     same_cells fast deststride slow deststride width height).
Proof.
  intros Hsrc Hdest. split.
  - destruct (transform_switch_maps e WL_OUTPUT_TRANSFORM_NORMAL srcbuf
                width height srcstride dest0 deststride Hsrc Hdest)
      as (fast & Hfast & _ & Hf).
    destruct (per_pixel_copy_maps e srcbuf width height srcstride dest0
                width height deststride
                (fun destx desty => destx) (fun destx desty => desty)
                Hsrc Hdest) as (slow & Hslow & _ & Hs); [intros; lia|].
    exists fast, slow. split; [done|]. split; [done|].
    intros x y Hx Hy.
    destruct (Hf x y Hx Hy) as (cell & Hc & Hcf).
    destruct (Hs x y Hx Hy) as (cell' & Hc' & Hcs).
    cbn [source_x source_y rotated] in *.
    exists cell. split; [done|]. congruence.
  - destruct (transform_switch_maps e WL_OUTPUT_TRANSFORM_FLIPPED_180 srcbuf
                width height srcstride dest0 deststride Hsrc Hdest)
      as (fast & Hfast & _ & Hf).
    destruct (per_pixel_copy_maps e srcbuf width height srcstride dest0
                width height deststride
                (fun destx desty => destx)
                (fun destx desty => height - desty - 1)
                Hsrc Hdest) as (slow & Hslow & _ & Hs); [intros; lia|].
    exists fast, slow. split; [done|]. split; [done|].
    intros x y Hx Hy.
    destruct (Hf x y Hx Hy) as (cell & Hc & Hcf).
    destruct (Hs x y Hx Hy) as (cell' & Hc' & Hcs).
    cbn [source_x source_y rotated] in *.
    exists cell. split; [done|]. congruence.
Qed.

(** A source with rows of 8 bytes copied into a destination with rows of
    12 bytes: the strides differ, so the normal case copies row by row. *)
Lemma C8_row_copy_is_per_pixel_copy_witness :
  (exists fast slow,
     transform_switch LittleEndian WL_OUTPUT_TRANSFORM_NORMAL markers_2x2 8
       (replicate 24 Byte.x00) 2 2 12 = Some fast /\
     per_pixel_copy LittleEndian
       (fun destx desty => destx) (fun destx desty => desty)
       markers_2x2 8 (replicate 24 Byte.x00) 2 2 12 = Some slow /\
     same_cells fast 12 slow 12 2 2) /\
  (exists fast slow,
     transform_switch LittleEndian WL_OUTPUT_TRANSFORM_FLIPPED_180
       markers_2x2 8 (replicate 24 Byte.x00) 2 2 12 = Some fast /\
     per_pixel_copy LittleEndian (fun destx desty => destx)
       (fun destx desty => 2 - desty - 1)
       markers_2x2 8 (replicate 24 Byte.x00) 2 2 12 = Some slow /\
     same_cells fast 12 slow 12 2 2).
Proof.
  apply (C8_row_copy_is_per_pixel_copy LittleEndian markers_2x2 8
           (replicate 24 Byte.x00) 2 2 12);
    unfold fits; simpl; lia.
Defined.

(** ** C6: a transform followed by its inverse *)

Lemma rotated_inverse transform :
  rotated (inverse transform) = rotated transform.
Proof. by destruct transform. Qed.

(** The inverse transform reads back the cell a transform wrote. *)
Lemma source_inverse transform width height x y :
  let destwidth := if rotated transform then height else width in
  let destheight := if rotated transform then width else height in
  let midx := source_x (inverse transform) width height x y in
  let midy := source_y (inverse transform) width height x y in
  0 <= x < width -> 0 <= y < height ->
  (0 <= midx < destwidth /\ 0 <= midy < destheight) /\
  source_x transform destwidth destheight midx midy = x /\
  source_y transform destwidth destheight midx midy = y.
Proof. destruct transform; simpl; lia. Qed.

(** [transform_and_copy] on a created surface. *)
Lemma transform_and_copy_maps host create transform buf width height stride
    image0 :
  let destwidth := if rotated transform then height else width in
  let destheight := if rotated transform then width else height in
  surface_creator create ->
  fits width height stride (Z.of_nat (length buf)) ->
  create destwidth destheight = Some image0 ->
  exists image,
    transform_and_copy host create buf width height stride transform
      = Some (Some image) /\
    surf_width image = destwidth /\ surf_height image = destheight /\
    surf_stride image = surf_stride image0 /\
    fits destwidth destheight (surf_stride image)
         (Z.of_nat (length (surf_data image))) /\
    maps_pixels buf stride
      (source_x transform destwidth destheight)
      (source_y transform destwidth destheight)
      (surf_data image) destwidth destheight (surf_stride image).
Proof.
  intros destwidth destheight Hcreate Hfit Himage.
  destruct (Hcreate _ _ _ Himage) as (Hw & Hh & Hs & Hl).
  assert (fits destwidth destheight (surf_stride image0)
            (Z.of_nat (length (surf_data image0)))) as Hdest.
  { destruct Hfit as (? & ? & _). unfold fits.
    subst destwidth destheight. destruct (rotated transform); lia. }
  destruct (transform_switch_maps host transform buf width height stride
              (surf_data image0) (surf_stride image0) Hfit Hdest)
    as (dest' & Hrun & Hlen & Hmaps).
  exists (with_data image0 dest'). unfold transform_and_copy.
  replace (if rotated transform then create height width
           else create width height) with (Some image0)
    by (subst destwidth destheight; by destruct (rotated transform)).
  cbv beta iota zeta. rewrite Hw, Hh.
  subst destwidth destheight. rewrite Hrun. simpl.
  rewrite Hlen. done.
Qed.

(** C6: for each of the eight transforms and every [width] x [height]
    image, applying the transform and then its inverse gives back every
    four-byte cell of the image; the intermediate surface has width and
    height swapped exactly for the four rotated transforms, and the final
    one has the width and height of the source.  Both surface creations
    are assumed to succeed. *)
Theorem C6_transform_round_trip host create transform buf
    width height stride :
  surface_creator create ->
  fits width height stride (Z.of_nat (length buf)) ->
  is_Some (create (if rotated transform then height else width)
                  (if rotated transform then width else height)) ->
  is_Some (create width height) ->
  exists mid fin,
    transform_and_copy host create buf width height stride transform
      = Some (Some mid) /\
    surf_width mid = (if rotated transform then height else width) /\
    surf_height mid = (if rotated transform then width else height) /\
    transform_and_copy host create (surf_data mid) (surf_width mid)
      (surf_height mid) (surf_stride mid) (inverse transform)
      = Some (Some fin) /\
    surf_width fin = width /\ surf_height fin = height /\
    same_cells buf stride (surf_data fin) (surf_stride fin) width height.
Proof.
  intros Hcreate Hfit [image1 Himage1] [image2 Himage2].
  destruct (transform_and_copy_maps host create transform buf width height
              stride image1 Hcreate Hfit Himage1)
    as (mid & Hrun1 & Hw1 & Hh1 & _ & Hfit1 & Hmaps1).
  assert ((if rotated (inverse transform) then surf_height mid
           else surf_width mid) = width /\
          (if rotated (inverse transform) then surf_width mid
           else surf_height mid) = height) as [Hw Hh].
  { rewrite rotated_inverse, Hw1, Hh1. by destruct (rotated transform). }
  rewrite <- Hw1, <- Hh1 in Hfit1.
  destruct (transform_and_copy_maps host create (inverse transform)
              (surf_data mid) (surf_width mid) (surf_height mid)
              (surf_stride mid) image2 Hcreate Hfit1)
    as (fin & Hrun2 & Hw2 & Hh2 & _ & _ & Hmaps2).
  { by rewrite Hw, Hh. }
  rewrite Hw in Hw2, Hmaps2. rewrite Hh in Hh2, Hmaps2.
  exists mid, fin. repeat (split; [done|]).
  intros x y Hx Hy.
  destruct (source_inverse transform width height x y Hx Hy)
    as ((Hmx & Hmy) & Hsx & Hsy).
  destruct (Hmaps2 x y Hx Hy) as (cell & Hmidcell & Hfincell).
  destruct (Hmaps1 _ _ Hmx Hmy) as (cell' & Hsrccell & Hmidcell').
  rewrite Hsx, Hsy in Hsrccell.
  exists cell. split; [|done]. congruence.
Qed.

Lemma packed_surface_creator : surface_creator packed_surface_create.
Proof.
  intros w h image. unfold packed_surface_create.
  case_decide as Hwh; [|done]. intros [= <-]. simpl.
  rewrite length_replicate. lia.
Qed.

(** A 2 x 2 image rotated by 90 degrees and back by 270. *)
Lemma C6_transform_round_trip_witness :
  exists mid fin,
    transform_and_copy LittleEndian packed_surface_create markers_2x2 2 2 8
      WL_OUTPUT_TRANSFORM_90 = Some (Some mid) /\
    surf_width mid = 2 /\ surf_height mid = 2 /\
    transform_and_copy LittleEndian packed_surface_create (surf_data mid)
      (surf_width mid) (surf_height mid) (surf_stride mid)
      WL_OUTPUT_TRANSFORM_270 = Some (Some fin) /\
    surf_width fin = 2 /\ surf_height fin = 2 /\
    same_cells markers_2x2 8 (surf_data fin) (surf_stride fin) 2 2.
Proof.
  apply (C6_transform_round_trip LittleEndian packed_surface_create
           WL_OUTPUT_TRANSFORM_90 markers_2x2 2 2 8).
  - apply packed_surface_creator.
  - unfold fits; simpl; lia.
  - simpl. eauto.
  - simpl. eauto.
Defined.

(** ** C4: in-place widening of 3-byte pixels *)

(** One widening step changes nothing outside the four-byte cell it
    writes. *)
Lemma widen_bgr888_pixel_frame e buf width height stride y x :
  fits width height stride (Z.of_nat (length buf)) ->
  height * stride <= INT_MAX ->
  0 <= y < height -> 0 <= x < width ->
  exists buf', widen_bgr888_pixel e stride y x buf = Some buf' /\
    forall a n, a + n <= y * stride + x * 4 \/ y * stride + x * 4 + 4 <= a ->
      Mem.bytes_at buf' a n = Mem.bytes_at buf a n.
Proof.
  intros Hfit Hint Hy Hx.
  destruct (fits_row _ _ _ _ _ Hfit Hy) as [Hrow0 Hrow1].
  pose proof Hfit as (Hw & Hh & Hs & Hl).
  destruct (three_bytes buf (y * stride + x * 3)) as (s0 & s1 & s2 & Hsrc).
  { unfold Mem.in_range. lia. }
  unfold widen_bgr888_pixel.
  rewrite !(pixel_offset_Some _ _ _ _ _ _ _ Hfit Hint Hy Hx) by lia.
  cbn [mbind option_bind].
  replace (Mem.load8 buf (y * stride + x * 3))
    with (Mem.load8 buf (y * stride + x * 3 + 0)) by (f_equal; lia).
  rewrite !(load8_bytes_at buf _ 3 _ _ Hsrc) by lia.
  cbn [mbind option_bind lookup list_lookup Z.to_nat Pos.to_nat
       Pos.iter_op Init.Nat.add].
  unfold store32.
  destruct (write_bytes_Some buf (y * stride + x * 4)
              (cell_of_word e (rgb24 s0 s1 s2))) as [buf' Hwr].
  { rewrite cell_of_word_length. unfold Mem.in_range. lia. }
  exists buf'. split; [done|]. intros a n Ha.
  eapply bytes_at_write_other; [done|]. rewrite cell_of_word_length. lia.
Qed.

(** C4: [cairo_rgb24_from_bgr888_le] runs to completion and every
    four-byte cell then carries, in the red, green and blue channels of its
    word, the first, second and third of the three bytes that pixel had
    before the call, with bits 31-24 zero; and in a row of at least two
    pixels, widening the last pixel leaves the three source bytes of the
    pixel before it as they were. *)
Theorem C4_bgr888_widening_in_place e buf width height stride :
  fits width height stride (Z.of_nat (length buf)) ->
  height * stride <= INT_MAX ->
  (exists buf',
     cairo_rgb24_from_bgr888_le e buf width height stride = Some buf' /\
     length buf' = length buf /\
     forall y x, 0 <= y < height -> 0 <= x < width ->
       exists s0 s1 s2 word,
         Mem.bytes_at buf (y * stride + x * 3) 3 = Some [s0; s1; s2] /\
         load32 e buf' (y * stride + x * 4) = Some word /\
         red word = byte.unsigned s0 /\
         green word = byte.unsigned s1 /\
         blue word = byte.unsigned s2 /\
         Z.shiftr word 24 = 0) /\
  (forall y, 0 <= y < height -> 2 <= width ->
     exists buf1,
       widen_bgr888_pixel e stride y (width - 1) buf = Some buf1 /\
       Mem.bytes_at buf1 (y * stride + (width - 2) * 3) 3
         = Mem.bytes_at buf (y * stride + (width - 2) * 3) 3).
Proof.
  intros Hfit Hint. split.
  - destruct (bgr888_widens e width height stride buf Hfit Hint)
      as (buf' & Hrun & Hlen & Hcells).
    exists buf'. split; [done|]. split; [done|]. intros y x Hy Hx.
    destruct (Hcells y x Hy Hx) as (s0 & s1 & s2 & Hsrc & Hword).
    exists s0, s1, s2, (rgb24 s0 s1 s2). split; [done|]. split; [done|].
    apply rgb24_channels.
  - intros y Hy Hw.
    destruct (widen_bgr888_pixel_frame e buf width height stride y
                (width - 1) Hfit Hint Hy ltac:(lia)) as (buf1 & Hrun & Hframe).
    exists buf1. split; [done|]. apply Hframe. lia.
Qed.

(** A row of two pixels with distinct marker bytes, in 8 bytes. *)
Lemma C4_bgr888_widening_in_place_witness :
  let buf := [Byte.x01; Byte.x02; Byte.x03; Byte.x11; Byte.x12; Byte.x13;
              Byte.x00; Byte.x00] in
  (exists buf',
     cairo_rgb24_from_bgr888_le LittleEndian buf 2 1 8 = Some buf' /\
     length buf' = length buf /\
     forall y x, 0 <= y < 1 -> 0 <= x < 2 ->
       exists s0 s1 s2 word,
         Mem.bytes_at buf (y * 8 + x * 3) 3 = Some [s0; s1; s2] /\
         load32 LittleEndian buf' (y * 8 + x * 4) = Some word /\
         red word = byte.unsigned s0 /\
         green word = byte.unsigned s1 /\
         blue word = byte.unsigned s2 /\
         Z.shiftr word 24 = 0) /\
  (forall y, 0 <= y < 1 -> 2 <= 2 ->
     exists buf1,
       widen_bgr888_pixel LittleEndian 8 y (2 - 1) buf = Some buf1 /\
       Mem.bytes_at buf1 (y * 8 + (2 - 2) * 3) 3
         = Mem.bytes_at buf (y * 8 + (2 - 2) * 3) 3).
Proof.
  apply (C4_bgr888_widening_in_place LittleEndian
           [Byte.x01; Byte.x02; Byte.x03; Byte.x11; Byte.x12; Byte.x13;
            Byte.x00; Byte.x00] 2 1 8).
  - unfold fits; simpl; lia.
  - unfold INT_MAX; lia.
Defined.

(** ** C5: the 10-bit kernels *)

(** C5: each of the four 10-bit kernels runs to completion and leaves in
    every cell a word whose red, green and blue channels are the 10-bit
    fields of the little-endian source word without their two low bits:
    a field of 1023 gives 255, a field of 0 gives 0, and every channel
    lies in 0..255. *)
Theorem C5_ten_bit_truncation f e buf width height stride :
  fits width height stride (Z.of_nat (length buf)) ->
  height * stride <= INT_MAX ->
  exists buf',
    ten_bit_kernel f e buf width height stride = Some buf' /\
    forall y x, 0 <= y < height -> 0 <= x < width ->
      exists b0 b1 b2 b3 word,
        Mem.bytes_at buf (y * stride + x * 4) 4 = Some [b0; b1; b2; b3] /\
        load32 e buf' (y * stride + x * 4) = Some word /\
        let color := le32 b0 b1 b2 b3 in
        truncates10 (channel10 color (red_lsb f)) (red word) /\
        truncates10 (channel10 color (green_lsb f)) (green word) /\
        truncates10 (channel10 color (blue_lsb f)) (blue word).
Proof.
  intros Hfit Hint.
  destruct (ten_bit_kernel_converts f e buf width height stride Hfit Hint)
    as (buf' & Hrun & _ & Hcells).
  exists buf'. split; [done|]. intros y x Hy Hx.
  destruct (Hcells y x Hy Hx) as (b0 & b1 & b2 & b3 & Hcell & Hword).
  exists b0, b1, b2, b3, (ten_bit_to_rgb24 f (le32 b0 b1 b2 b3)).
  split; [done|]. split; [done|]. cbv zeta.
  destruct (ten_bit_channels f (le32 b0 b1 b2 b3)) as (Hr & Hg & Hb & _).
  done.
Qed.

(** One XRGB2101010 pixel, all three fields at 1023: bytes ff ff ff 3f. *)
Lemma C5_ten_bit_truncation_witness :
  let buf := [Byte.xff; Byte.xff; Byte.xff; Byte.x3f] in
  exists buf',
    ten_bit_kernel XRGB2101010 LittleEndian buf 1 1 4 = Some buf' /\
    forall y x, 0 <= y < 1 -> 0 <= x < 1 ->
      exists b0 b1 b2 b3 word,
        Mem.bytes_at buf (y * 4 + x * 4) 4 = Some [b0; b1; b2; b3] /\
        load32 LittleEndian buf' (y * 4 + x * 4) = Some word /\
        let color := le32 b0 b1 b2 b3 in
        truncates10 (channel10 color (red_lsb XRGB2101010)) (red word) /\
        truncates10 (channel10 color (green_lsb XRGB2101010)) (green word) /\
        truncates10 (channel10 color (blue_lsb XRGB2101010)) (blue word).
Proof.
  apply (C5_ten_bit_truncation XRGB2101010 LittleEndian
           [Byte.xff; Byte.xff; Byte.xff; Byte.x3f] 1 1 4).
  - unfold fits; simpl; lia.
  - unfold INT_MAX; lia.
Defined.

(** ** C7: the two packed 8-bit channel orders *)

(** Cells that hold the same native word hold the same bytes. *)
Lemma load32_inj e buf buf' a a' word :
  load32 e buf a = Some word -> load32 e buf' a' = Some word ->
  exists cell, Mem.bytes_at buf a 4 = Some cell /\
    Mem.bytes_at buf' a' 4 = Some cell.
Proof.
  unfold load32. intros H H'.
  destruct (Mem.bytes_at buf a 4) as [c|] eqn:Hc; [|done].
  destruct (Mem.bytes_at buf' a' 4) as [c'|] eqn:Hc'; [|done].
  simpl in H, H'. exists c. split; [done|]. f_equal.
  pose proof (bytes_at_length _ _ _ _ Hc) as Hl.
  pose proof (bytes_at_length _ _ _ _ Hc') as Hl'.
  rewrite <- (cell_of_word_of_cell e c), <- (cell_of_word_of_cell e c')
    by done.
  congruence.
Qed.

(** C7: when every cell of [bufB] holds the bytes (r, g, b, a) where the
    same cell of [bufA] holds (b, g, r, a), the XBGR kernel on [bufB] and
    the XRGB kernel on [bufA] leave the same four bytes in every cell: the
    word with r in the red, g in the green and b in the blue channel. *)
Theorem C7_channel_order_swap e bufA bufB width height stride :
  fits width height stride (Z.of_nat (length bufA)) ->
  length bufB = length bufA ->
  height * stride <= INT_MAX ->
  (forall y x, 0 <= y < height -> 0 <= x < width ->
     exists r g b a,
       Mem.bytes_at bufB (y * stride + x * 4) 4 = Some [r; g; b; a] /\
       Mem.bytes_at bufA (y * stride + x * 4) 4 = Some [b; g; r; a]) ->
  exists outA outB,
    cairo_rgb24_from_xrgb32_le e bufA width height stride = Some outA /\
    cairo_rgb24_from_xbgr32_le e bufB width height stride = Some outB /\
    same_cells outA stride outB stride width height /\
    forall y x, 0 <= y < height -> 0 <= x < width ->
      exists r g b a word,
        Mem.bytes_at bufB (y * stride + x * 4) 4 = Some [r; g; b; a] /\
        load32 e outB (y * stride + x * 4) = Some word /\
        load32 e outA (y * stride + x * 4) = Some word /\
        red word = byte.unsigned r /\ green word = byte.unsigned g /\
        blue word = byte.unsigned b.
Proof.
  intros HfitA Hlen Hint Hswap.
  assert (fits width height stride (Z.of_nat (length bufB))) as HfitB
    by (by rewrite Hlen).
  destruct (cairo_rgb24_from_xrgb32_le_converts e bufA width height stride
              HfitA Hint) as (outA & HrunA & _ & HA).
  destruct (cairo_rgb24_from_xbgr32_le_converts e bufB width height stride
              HfitB Hint) as (outB & HrunB & _ & HB).
  exists outA, outB. split; [done|]. split; [done|].
  assert (forall y x, 0 <= y < height -> 0 <= x < width ->
    exists r g b a,
      Mem.bytes_at bufB (y * stride + x * 4) 4 = Some [r; g; b; a] /\
      load32 e outB (y * stride + x * 4) = Some (rgb24 r g b) /\
      load32 e outA (y * stride + x * 4) = Some (rgb24 r g b)) as Hboth.
  { intros y x Hy Hx.
    destruct (Hswap y x Hy Hx) as (r & g & b & a & HcB & HcA).
    destruct (HA y x Hy Hx) as (a0 & a1 & a2 & a3 & HcA' & HwA).
    destruct (HB y x Hy Hx) as (c0 & c1 & c2 & c3 & HcB' & HwB).
    exists r, g, b, a. split; [done|]. split; congruence. }
  split.
  - intros x y Hx Hy. destruct (Hboth y x Hy Hx)
      as (r & g & b & a & _ & HwB & HwA).
    by eapply load32_inj.
  - intros y x Hy Hx. destruct (Hboth y x Hy Hx)
      as (r & g & b & a & HcB & HwB & HwA).
    exists r, g, b, a, (rgb24 r g b).
    destruct (rgb24_channels r g b) as (? & ? & ? & _). done.
Qed.

(** The pixel (0x10, 0x20, 0x30, 0xFF) for the XBGR kernel against
    (0x30, 0x20, 0x10, 0xFF) for the XRGB kernel. *)
Lemma C7_channel_order_swap_witness :
  let bufA := [Byte.x30; Byte.x20; Byte.x10; Byte.xff] in
  let bufB := [Byte.x10; Byte.x20; Byte.x30; Byte.xff] in
  exists outA outB,
    cairo_rgb24_from_xrgb32_le LittleEndian bufA 1 1 4 = Some outA /\
    cairo_rgb24_from_xbgr32_le LittleEndian bufB 1 1 4 = Some outB /\
    same_cells outA 4 outB 4 1 1 /\
    forall y x, 0 <= y < 1 -> 0 <= x < 1 ->
      exists r g b a word,
        Mem.bytes_at bufB (y * 4 + x * 4) 4 = Some [r; g; b; a] /\
        load32 LittleEndian outB (y * 4 + x * 4) = Some word /\
        load32 LittleEndian outA (y * 4 + x * 4) = Some word /\
        red word = byte.unsigned r /\ green word = byte.unsigned g /\
        blue word = byte.unsigned b.
Proof.
  apply (C7_channel_order_swap LittleEndian
           [Byte.x30; Byte.x20; Byte.x10; Byte.xff]
           [Byte.x10; Byte.x20; Byte.x30; Byte.xff] 1 1 4).
  - unfold fits; simpl; lia.
  - reflexivity.
  - unfold INT_MAX; lia.
  - intros y x Hy Hx. assert (y = 0) as -> by lia.
    assert (x = 0) as -> by lia.
    exists Byte.x10, Byte.x20, Byte.x30, Byte.xff.
    split; reflexivity.
Defined.

(** ** C10: the unused byte of the converted words *)

Lemma converts_cells_clear e f run buf width height stride :
  (forall b0 b1 b2 b3, Z.shiftr (f b0 b1 b2 b3) 24 = 0) ->
  converts_cells_at e f run buf width height stride ->
  exists buf', run = Some buf' /\ length buf' = length buf /\
    alpha_clear e buf' width height stride.
Proof.
  intros Hf (buf' & Hrun & Hlen & Hcells).
  exists buf'. split; [done|]. split; [done|]. intros y x Hy Hx.
  destruct (Hcells y x Hy Hx) as (b0 & b1 & b2 & b3 & _ & Hword). eauto.
Qed.

Lemma ten_bit_high f color : Z.shiftr (ten_bit_to_rgb24 f color) 24 = 0.
Proof. apply (ten_bit_channels f color). Qed.

Lemma xrgb32_clears : clears_alpha cairo_rgb24_from_xrgb32_le.
Proof.
  intros e buf width height stride Hfit Hint.
  eapply converts_cells_clear;
    [|by apply cairo_rgb24_from_xrgb32_le_converts].
  intros. apply rgb24_high.
Qed.

Lemma xbgr32_clears : clears_alpha cairo_rgb24_from_xbgr32_le.
Proof.
  intros e buf width height stride Hfit Hint.
  eapply converts_cells_clear;
    [|by apply cairo_rgb24_from_xbgr32_le_converts].
  intros. apply rgb24_high.
Qed.

Lemma swap_rb_clears : clears_alpha cairo_rgb24_swap_rb.
Proof.
  intros e buf width height stride Hfit Hint.
  eapply converts_cells_clear; [|by apply cairo_rgb24_swap_rb_converts].
  intros. apply rgb24_high.
Qed.

Lemma ten_bit_clears f : clears_alpha (ten_bit_kernel f).
Proof.
  intros e buf width height stride Hfit Hint.
  eapply converts_cells_clear; [|by apply ten_bit_kernel_converts].
  intros. apply ten_bit_high.
Qed.

Lemma bgr888_clears : clears_alpha cairo_rgb24_from_bgr888_le.
Proof.
  intros e buf width height stride Hfit Hint.
  destruct (bgr888_widens e width height stride buf Hfit Hint)
    as (buf' & Hrun & Hlen & Hcells).
  exists buf'. split; [done|]. split; [done|]. intros y x Hy Hx.
  destruct (Hcells y x Hy Hx) as (s0 & s1 & s2 & _ & Hword).
  exists (rgb24 s0 s1 s2). split; [done|]. apply rgb24_high.
Qed.

Lemma normalization_kernels_clear :
  Forall clears_alpha normalization_kernels.
Proof.
  unfold normalization_kernels.
  apply List.Forall_cons; [apply xrgb32_clears|].
  apply List.Forall_cons; [apply xbgr32_clears|].
  apply List.Forall_cons; [apply (ten_bit_clears XRGB2101010)|].
  apply List.Forall_cons; [apply (ten_bit_clears XBGR2101010)|].
  apply List.Forall_cons; [apply (ten_bit_clears RGBX1010102)|].
  apply List.Forall_cons; [apply (ten_bit_clears BGRX1010102)|].
  apply List.Forall_cons; [apply bgr888_clears|].
  apply List.Forall_cons; [apply swap_rb_clears|].
  apply List.Forall_nil.
Qed.

(** A kernel that clears the unused byte, run on a surface. *)
Lemma on_surface_clears e k image :
  clears_alpha k ->
  fits (surf_width image) (surf_height image) (surf_stride image)
       (Z.of_nat (length (surf_data image))) ->
  surf_height image * surf_stride image <= INT_MAX ->
  exists buf',
    on_surface (k e) image = Some (with_data image buf') /\
    length buf' = length (surf_data image) /\
    alpha_clear e buf' (surf_width image) (surf_height image)
                (surf_stride image).
Proof.
  intros Hk Hfit Hint.
  destruct (Hk e _ _ _ _ Hfit Hint) as (buf' & Hrun & Hlen & Hclear).
  exists buf'. unfold on_surface. by rewrite Hrun.
Qed.

Lemma format_switch_clears e format image :
  runs_kernel e format = true ->
  fits (surf_width image) (surf_height image) (surf_stride image)
       (Z.of_nat (length (surf_data image))) ->
  surf_height image * surf_stride image <= INT_MAX ->
  exists buf' log,
    format_switch e format image = Some (with_data image buf', log) /\
    alpha_clear e buf' (surf_width image) (surf_height image)
                (surf_stride image).
Proof.
  intros Hruns Hfit Hint.
  assert (forall k (log : list log_entry), clears_alpha k ->
    exists buf',
      (image' ← on_surface (k e) image; Some (image', log))
        = Some (with_data image buf', log) /\
      alpha_clear e buf' (surf_width image) (surf_height image)
                  (surf_stride image)) as Hone.
  { intros k log Hk.
    destruct (on_surface_clears e k image Hk Hfit Hint)
      as (buf' & -> & _ & Hclear). eauto. }
  destruct format; cbn [format_switch];
    try (destruct e; [discriminate Hruns|]);
    try (edestruct Hone as (buf' & -> & Hclear);
         [|exists buf'; eexists; split; [reflexivity|exact Hclear]];
         first [ apply xrgb32_clears | apply xbgr32_clears
               | apply (ten_bit_clears XRGB2101010)
               | apply (ten_bit_clears XBGR2101010)
               | apply (ten_bit_clears RGBX1010102)
               | apply (ten_bit_clears BGRX1010102)
               | apply bgr888_clears ]).
  (* RGB888: widen, then swap red and blue *)
  destruct (on_surface_clears e _ image bgr888_clears Hfit Hint)
    as (buf1 & -> & Hlen1 & _). cbn [mbind option_bind].
  destruct (on_surface_clears e _ (with_data image buf1) swap_rb_clears)
    as (buf2 & -> & _ & Hclear); [by simpl; rewrite Hlen1 | done |].
  exists buf2, []. done.
Qed.

(** C10, as stated, fails: on a little-endian host a 1 x 1 ARGB8888
    buffer with alpha byte 0xAA comes out of
    [load_background_from_buffer] with 0xAA still in bits 31-24. *)
Lemma C10_counterexample :
  exists image,
    load_background_from_buffer LittleEndian packed_surface_create
      [Byte.x01; Byte.x02; Byte.x03; Byte.xaa]
      WL_SHM_FORMAT_ARGB8888 1 1 4 WL_OUTPUT_TRANSFORM_NORMAL
      = Some (Some image, []) /\
    load32 LittleEndian (surf_data image) (0 * surf_stride image + 0 * 4)
      = Some 2852323841 /\
    Z.shiftr 2852323841 24 = 170 /\
    ~ alpha_clear LittleEndian (surf_data image)
        (surf_width image) (surf_height image) (surf_stride image).
Proof.
  eexists. split; [vm_compute; reflexivity|].
  split; [vm_compute; reflexivity|]. split; [reflexivity|].
  intros H. destruct (H 0 0) as (word & Hword & Hhigh); [simpl; lia..|].
  vm_compute in Hword. injection Hword as <-. discriminate Hhigh.
Qed.

(** C10, amended: each of the eight kernels (the seven
    [cairo_rgb24_from_*] and [cairo_rgb24_swap_rb]) leaves bits 31-24 of
    every cell zero; the alpha formats take the same branch of the format
    switch as their X counterparts; so whenever the switch runs a kernel
    the source alpha is replaced by zero.  On a little-endian host
    XRGB8888, ARGB8888 and unknown formats run no kernel, and the surface
    is returned as it is. *)
Theorem C10_alpha_byte :
  Forall clears_alpha normalization_kernels /\
  (forall e a x image, In (a, x) alpha_variants ->
     format_switch e a image = format_switch e x image) /\
  (forall e format image,
     runs_kernel e format = true ->
     fits (surf_width image) (surf_height image) (surf_stride image)
          (Z.of_nat (length (surf_data image))) ->
     surf_height image * surf_stride image <= INT_MAX ->
     exists buf' log,
       format_switch e format image = Some (with_data image buf', log) /\
       alpha_clear e buf' (surf_width image) (surf_height image)
                   (surf_stride image)) /\
  (forall format image,
     runs_kernel LittleEndian format = false ->
     exists log, format_switch LittleEndian format image = Some (image, log)).
Proof.
  split; [apply normalization_kernels_clear|].
  split; [|split].
  - intros e a x image Hin. simpl in Hin.
    repeat (destruct Hin as [[= <- <-]|Hin]; [reflexivity|]). done.
  - apply format_switch_clears.
  - intros format image Hruns.
    destruct format; try discriminate Hruns; cbn [format_switch]; eauto.
Qed.

(** A 1 x 1 ABGR8888 surface with alpha byte 0xAA on a little-endian
    host: the kernel runs and clears the byte. *)
Lemma C10_alpha_byte_witness :
  let image := {| surf_data := [Byte.x01; Byte.x02; Byte.x03; Byte.xaa];
                  surf_width := 1; surf_height := 1; surf_stride := 4 |} in
  exists buf' log,
    format_switch LittleEndian WL_SHM_FORMAT_ABGR8888 image
      = Some (with_data image buf', log) /\
    alpha_clear LittleEndian buf' 1 1 4.
Proof.
  apply (proj1 (proj2 (proj2 C10_alpha_byte)) LittleEndian
           WL_SHM_FORMAT_ABGR8888
           {| surf_data := [Byte.x01; Byte.x02; Byte.x03; Byte.xaa];
              surf_width := 1; surf_height := 1; surf_stride := 4 |}).
  - reflexivity.
  - unfold fits. simpl. lia.
  - simpl. unfold INT_MAX. lia.
Defined.

(** ** C2: a 4 x 4 buffer through the 90 degree transform and a kernel *)

Lemma format_switch_packed8 e format image :
  packed8 format = true ->
  fits (surf_width image) (surf_height image) (surf_stride image)
       (Z.of_nat (length (surf_data image))) ->
  surf_height image * surf_stride image <= INT_MAX ->
  exists buf',
    format_switch e format image = Some (with_data image buf', []) /\
    forall y x, 0 <= y < surf_height image -> 0 <= x < surf_width image ->
      exists b0 b1 b2 b3 word,
        Mem.bytes_at (surf_data image) (y * surf_stride image + x * 4) 4
          = Some [b0; b1; b2; b3] /\
        load32 e buf' (y * surf_stride image + x * 4) = Some word /\
        packed8_rgb format b0 b1 b2 b3
          = Some (red word, green word, blue word).
Proof.
  intros Hpacked Hfit Hint.
  assert (exists buf',
    (image' ← on_surface (cairo_rgb24_from_xbgr32_le e) image;
     Some (image', @nil log_entry)) = Some (with_data image buf', []) /\
    forall y x, 0 <= y < surf_height image -> 0 <= x < surf_width image ->
      exists b0 b1 b2 b3 word,
        Mem.bytes_at (surf_data image) (y * surf_stride image + x * 4) 4
          = Some [b0; b1; b2; b3] /\
        load32 e buf' (y * surf_stride image + x * 4) = Some word /\
        Some (byte.unsigned b0, byte.unsigned b1, byte.unsigned b2)
          = Some (red word, green word, blue word)) as Hxbgr.
  { destruct (cairo_rgb24_from_xbgr32_le_converts e _ _ _ _ Hfit Hint)
      as (buf' & Hrun & _ & Hcells).
    exists buf'. unfold on_surface. rewrite Hrun. split; [done|].
    intros y x Hy Hx.
    destruct (Hcells y x Hy Hx) as (b0 & b1 & b2 & b3 & Hcell & Hword).
    exists b0, b1, b2, b3, (rgb24 b0 b1 b2).
    destruct (rgb24_channels b0 b1 b2) as (-> & -> & -> & _). done. }
  assert (exists buf',
    match e with
    | LittleEndian => Some (image, @nil log_entry)
    | BigEndian =>
        image' ← on_surface (cairo_rgb24_from_xrgb32_le e) image;
        Some (image', [])
    end = Some (with_data image buf', []) /\
    forall y x, 0 <= y < surf_height image -> 0 <= x < surf_width image ->
      exists b0 b1 b2 b3 word,
        Mem.bytes_at (surf_data image) (y * surf_stride image + x * 4) 4
          = Some [b0; b1; b2; b3] /\
        load32 e buf' (y * surf_stride image + x * 4) = Some word /\
        Some (byte.unsigned b2, byte.unsigned b1, byte.unsigned b0)
          = Some (red word, green word, blue word)) as Hxrgb.
  { destruct e.
    - exists (surf_data image). split; [by destruct image|].
      intros y x Hy Hx.
      pose proof (cell_in_range _ _ _ _ Hfit _ _ Hy Hx) as Hr.
      destruct (cell_four _ _ _ (bytes_at_in_range _ _ _ Hr))
        as (b0 & b1 & b2 & b3 & Hc).
      exists b0, b1, b2, b3, (le32 b0 b1 b2 b3).
      unfold load32. rewrite (bytes_at_in_range _ _ _ Hr), Hc.
      destruct (le32_channels b0 b1 b2 b3) as (-> & -> & ->). done.
    - destruct (cairo_rgb24_from_xrgb32_le_converts BigEndian _ _ _ _
                  Hfit Hint) as (buf' & Hrun & _ & Hcells).
      exists buf'. unfold on_surface. rewrite Hrun. split; [done|].
      intros y x Hy Hx.
      destruct (Hcells y x Hy Hx) as (b0 & b1 & b2 & b3 & Hcell & Hword).
      exists b0, b1, b2, b3, (rgb24 b2 b1 b0).
      destruct (rgb24_channels b2 b1 b0) as (-> & -> & -> & _). done. }
  destruct format; try discriminate Hpacked;
    cbn [format_switch packed8_rgb]; assumption.
Qed.

(** C2: a 4 x 4 buffer in a packed 8-bit format loaded with the 90 degree
    transform gives a 4 x 4 surface, nothing logged, whose cell (0, 0)
    holds the red, green and blue bytes of the source pixel at column 0,
    row 3, in the red, green and blue channels of the Cairo word.  The
    creation of the surface is assumed to succeed, with a size that fits
    an [int]. *)
Theorem C2_load_4x4_rotated_90 host create format buf stride :
  surface_creator create ->
  is_Some (create 4 4) ->
  (forall image0, create 4 4 = Some image0 ->
     4 * surf_stride image0 <= INT_MAX) ->
  packed8 format = true ->
  fits 4 4 stride (Z.of_nat (length buf)) ->
  exists image b0 b1 b2 b3 word,
    load_background_from_buffer host create buf format 4 4 stride
      WL_OUTPUT_TRANSFORM_90 = Some (Some image, []) /\
    surf_width image = 4 /\ surf_height image = 4 /\
    Mem.bytes_at buf (3 * stride + 0 * 4) 4 = Some [b0; b1; b2; b3] /\
    load32 host (surf_data image) (0 * surf_stride image + 0 * 4)
      = Some word /\
    packed8_rgb format b0 b1 b2 b3 = Some (red word, green word, blue word).
Proof.
  intros Hcreate [image0 Himage0] Hint Hpacked Hfit.
  specialize (Hint _ Himage0).
  destruct (transform_and_copy_maps host create WL_OUTPUT_TRANSFORM_90 buf
              4 4 stride image0 Hcreate Hfit Himage0)
    as (image1 & Hrun & Hw & Hh & Hs & Hfit1 & Hmaps).
  cbn [rotated] in *. rewrite <- Hw in Hfit1 at 1. rewrite <- Hh in Hfit1.
  destruct (format_switch_packed8 host format image1 Hpacked Hfit1)
    as (buf' & Hswitch & Hcells); [rewrite Hh, Hs; lia|].
  destruct (Hcells 0 0) as (b0 & b1 & b2 & b3 & word & Hcell & Hword & Hrgb);
    [lia..|].
  destruct (Hmaps 0 0) as (cell & Hsrc & Hdest); [lia..|].
  cbn [source_x source_y] in Hsrc.
  change (4 - 0 - 1) with 3 in Hsrc.
  exists (with_data image1 buf'), b0, b1, b2, b3, word.
  unfold load_background_from_buffer. rewrite Hrun, Hswitch.
  split; [done|]. split; [done|]. split; [done|].
  split; [congruence|]. done.
Qed.

Lemma C2_load_4x4_rotated_90_witness :
  exists image b0 b1 b2 b3 word,
    load_background_from_buffer LittleEndian packed_surface_create ramp_4x4
      WL_SHM_FORMAT_XBGR8888 4 4 16 WL_OUTPUT_TRANSFORM_90
      = Some (Some image, []) /\
    surf_width image = 4 /\ surf_height image = 4 /\
    Mem.bytes_at ramp_4x4 (3 * 16 + 0 * 4) 4 = Some [b0; b1; b2; b3] /\
    load32 LittleEndian (surf_data image) (0 * surf_stride image + 0 * 4)
      = Some word /\
    packed8_rgb WL_SHM_FORMAT_XBGR8888 b0 b1 b2 b3
      = Some (red word, green word, blue word).
Proof.
  apply (C2_load_4x4_rotated_90 LittleEndian packed_surface_create
           WL_SHM_FORMAT_XBGR8888 ramp_4x4 16).
  - apply packed_surface_creator.
  - simpl. eauto.
  - intros image0 [= <-]. simpl. unfold INT_MAX. lia.
  - reflexivity.
  - unfold fits. simpl. lia.
Defined.

(** ** C9: [parse_background_mode] *)

Lemma uchar_nonneg c : 0 <= uchar c.
Proof. unfold uchar. lia. Qed.

Lemma uchar_inj c1 c2 : uchar c1 = uchar c2 -> c1 = c2.
Proof.
  unfold uchar. intros H%N2Z.inj.
  rewrite <- (ascii_N_embedding c1), <- (ascii_N_embedding c2).
  by rewrite H.
Qed.

(** [strcmp] returns 0 exactly on equal C strings. *)
Lemma strcmp_eq s1 s2 : strcmp s1 s2 = 0 <-> c_str s1 = c_str s2.
Proof.
  revert s2. induction s1 as [|c1 r1 IH]; intros [|c2 r2]; simpl.
  - done.
  - pose proof (uchar_nonneg c2). case_decide; split; (done || lia).
  - pose proof (uchar_nonneg c1). case_decide; split; (done || lia).
  - destruct (decide (uchar c1 = uchar c2)) as [Heq|Hne].
    + apply uchar_inj in Heq as <-.
      destruct (decide (uchar c1 = 0)); [done|].
      rewrite IH. split; [by intros -> | by intros [= ->]].
    + destruct (decide (uchar c1 = 0)), (decide (uchar c2 = 0));
        split; try done; try lia.
      intros [= -> _]. done.
Qed.

Lemma strcmp_keyword mode word :
  c_str word = word ->
  strcmp mode word = 0 <-> String.eqb (c_str mode) word = true.
Proof. intros Hword. by rewrite strcmp_eq, Hword, String.eqb_eq. Qed.

(** C9: [parse_background_mode] returns the mode of the keyword that the
    C string equals, logging nothing, and for every other string returns
    BACKGROUND_MODE_INVALID and logs one error line; it is a total
    function.  "tile" gives the tile mode, "bogus" the invalid one. *)
Theorem C9_parse_background_mode :
  (forall mode,
     parse_background_mode mode =
       match keyword_mode (c_str mode) with
       | Some m => (m, [])
       | None => (BACKGROUND_MODE_INVALID,
                  [(LOG_ERROR, Unsupported_background_mode mode)])
       end) /\
  parse_background_mode "stretch" = (BACKGROUND_MODE_STRETCH, []) /\
  parse_background_mode "fill" = (BACKGROUND_MODE_FILL, []) /\
  parse_background_mode "fit" = (BACKGROUND_MODE_FIT, []) /\
  parse_background_mode "center" = (BACKGROUND_MODE_CENTER, []) /\
  parse_background_mode "tile" = (BACKGROUND_MODE_TILE, []) /\
  parse_background_mode "solid_color" = (BACKGROUND_MODE_SOLID_COLOR, []) /\
  parse_background_mode "bogus" =
    (BACKGROUND_MODE_INVALID,
     [(LOG_ERROR, Unsupported_background_mode "bogus")]).
Proof.
  split; [|repeat split; reflexivity].
  intros mode. unfold parse_background_mode, keyword_mode.
  repeat (case_decide as H;
    [ apply strcmp_keyword in H; [|reflexivity]; by rewrite H
    | rewrite strcmp_keyword in H by reflexivity;
      apply not_true_is_false in H; rewrite H; clear H ]).
  done.
Qed.

(** * Further properties of the kernels *)

(** ** Loops that keep a property *)

Lemma for_loop_preserves {A} (Q : A -> Prop) idx
    (body : Z -> A -> option A) a a' :
  (forall i s s', i ∈ idx -> Q s -> body i s = Some s' -> Q s') ->
  Q a -> for_loop idx body a = Some a' -> Q a'.
Proof.
  revert a. induction idx as [|i idx IH]; intros a Hstep Ha; simpl.
  - by intros [= <-].
  - destruct (body i a) as [s|] eqn:Hbody; [|done].
    apply IH.
    + intros j s0 s' Hj. apply Hstep. by right.
    + eapply Hstep; [by left|done..].
Qed.

Lemma for_loop_skip {A} idx (body : Z -> A -> option A) a :
  (forall i s, body i s = Some s) -> for_loop idx body a = Some a.
Proof.
  intros Hbody. induction idx as [|i idx IH]; simpl; [done|].
  by rewrite Hbody.
Qed.

Lemma for_loop_none {A} idx (body : Z -> A -> option A) a i :
  i ∈ idx -> (forall s, body i s = None) -> for_loop idx body a = None.
Proof.
  intros Hi Hnone. revert a.
  induction idx as [|j idx IH]; intros a; [by apply elem_of_nil in Hi|].
  simpl. apply elem_of_cons in Hi as [<-|Hi].
  - by rewrite Hnone.
  - destruct (body j a); [by apply IH|done].
Qed.

Lemma upto_nil n : n <= 0 -> upto n = [].
Proof.
  intros. unfold upto. apply length_zero_iff_nil.
  rewrite length_seqZ. lia.
Qed.

Lemma downfrom_nil n : n <= 0 -> downfrom (n - 1) = [].
Proof.
  intros. unfold downfrom. fold (upto (n - 1 + 1)).
  by rewrite upto_nil by lia.
Qed.

Lemma elem_of_upto n i : i ∈ upto n <-> 0 <= i < n.
Proof. unfold upto. rewrite elem_of_seqZ. lia. Qed.

Lemma elem_of_downfrom n i : i ∈ downfrom (n - 1) <-> 0 <= i < n.
Proof.
  unfold downfrom. rewrite elem_of_reverse. fold (upto (n - 1 + 1)).
  rewrite elem_of_upto. lia.
Qed.

(** [cairo_rgb24_from_bgr888_le] is a loop nest when [width - 1] is an
    [int]; when it is not, the first row has no defined result. *)
Lemma bgr888_nest e buf width height stride :
  cairo_rgb24_from_bgr888_le e buf width height stride =
    if decide (INT_MIN <= width - 1 <= INT_MAX)
    then for_loop (upto height) (fun y =>
           for_loop (downfrom (width - 1)) (widen_bgr888_pixel e stride y))
           buf
    else if decide (0 < height) then None else Some buf.
Proof.
  unfold cairo_rgb24_from_bgr888_le, int_arith.
  destruct (decide (INT_MIN <= width - 1 <= INT_MAX)); [done|].
  case_decide.
  - apply (for_loop_none _ _ _ 0); [apply elem_of_upto; lia|done].
  - by rewrite upto_nil by lia.
Qed.

(** ** Images without pixels *)

(** A loop nest over an image with no columns or no rows does nothing. *)
Lemma empty_nest (cols : Z -> list Z)
    (body : Z -> Z -> list byte -> option (list byte)) width height buf :
  (forall n, n <= 0 -> cols n = []) ->
  width <= 0 \/ height <= 0 ->
  for_loop (upto height) (fun y => for_loop (cols width) (body y)) buf
    = Some buf.
Proof.
  intros Hcols [Hw|Hh].
  - apply for_loop_skip. intros y s. by rewrite Hcols.
  - by rewrite upto_nil.
Qed.

(** X1: on an image with no rows, or with no columns and a width above
    [INT_MIN], every kernel returns the buffer as it is, whatever the
    buffer and the stride: nothing is read or written.  At a width of
    [INT_MIN] the [width-1] of the widening kernel overflows: with at
    least one row that kernel has no defined result. *)
Theorem kernels_on_empty_image :
  Forall (fun k : kernel =>
    forall e buf width height stride,
      height <= 0 \/ INT_MIN < width <= 0 ->
      k e buf width height stride = Some buf)
    normalization_kernels /\
  (forall e buf height stride,
     0 < height ->
     cairo_rgb24_from_bgr888_le e buf INT_MIN height stride = None).
Proof.
  split.
  - unfold normalization_kernels.
    do 6 (apply List.Forall_cons;
      [intros e buf width height stride Hempty;
       apply (empty_nest upto); [apply upto_nil|lia]|]).
    apply List.Forall_cons.
    { intros e buf width height stride Hempty. rewrite bgr888_nest.
      case_decide as Hint.
      - apply (empty_nest (fun n => downfrom (n - 1)));
          [apply downfrom_nil|lia].
      - rewrite decide_False; [done|]. unfold INT_MAX in Hint. lia. }
    apply List.Forall_cons; [|apply List.Forall_nil].
    intros e buf width height stride Hempty.
    apply (empty_nest upto); [apply upto_nil|lia].
  - intros e buf height stride Hh. rewrite bgr888_nest.
    rewrite decide_False by (unfold INT_MIN, INT_MAX; lia).
    by rewrite decide_True.
Qed.

Lemma kernels_on_empty_image_witness :
  cairo_rgb24_from_bgr888_le LittleEndian [] 0 5 (-3) = Some [].
Proof.
  apply (Forall_inv
    (Forall_inv_tail (Forall_inv_tail (Forall_inv_tail (Forall_inv_tail
      (Forall_inv_tail (Forall_inv_tail
        (proj1 kernels_on_empty_image)))))))).
  unfold INT_MIN. lia.
Defined.

(** ** What the kernels leave alone *)

Lemma pixel_offset_eq y stride x n p :
  pixel_offset y stride x n = Some p -> p = y * stride + x * n.
Proof.
  unfold pixel_offset, int_arith. repeat case_decide; simpl; congruence.
Qed.

(** A loop nest whose steps each overwrite the cell of their pixel keeps
    the size of the buffer and every byte outside the cells. *)
Lemma nest_frame (cols : Z -> list Z)
    (body : Z -> Z -> list byte -> option (list byte))
    width height stride buf buf' :
  (forall n i, i ∈ cols n -> 0 <= i < n) ->
  (forall y x s s', body y x s = Some s' ->
     exists bs, length bs = 4%nat /\
       Mem.write_bytes s (y * stride + x * 4) bs = Some s') ->
  for_loop (upto height) (fun y => for_loop (cols width) (body y)) buf
    = Some buf' ->
  length buf' = length buf /\
  forall a n, outside_cells width height stride a n ->
    Mem.bytes_at buf' a n = Mem.bytes_at buf a n.
Proof.
  intros Hcols Hbody.
  set (Q := fun s : list byte => length s = length buf /\
    forall a n, outside_cells width height stride a n ->
      Mem.bytes_at s a n = Mem.bytes_at buf a n).
  apply (for_loop_preserves Q); [|done].
  intros y s s' Hy%elem_of_upto Hs.
  apply (for_loop_preserves Q); [|done].
  intros x t t' Hx%Hcols [Hlen Hout] Hrun.
  destruct (Hbody _ _ _ _ Hrun) as (bs & Hbs & Hw).
  split.
  - rewrite <- Hlen. by eapply write_bytes_length.
  - intros a n Ha. rewrite <- (Hout a n Ha).
    eapply bytes_at_write_other; [done|]. rewrite Hbs.
    destruct (Ha y x Hy Hx); lia.
Qed.

Ltac kernel_step :=
  let H := fresh "H" in
  let p := fresh "p" in
  let Hp := fresh "Hp" in
  intros ? ? ? ? H;
  match type of H with
  | context [pixel_offset ?y ?stride ?x 4] =>
      destruct (pixel_offset y stride x 4) as [p|] eqn:Hp; [|done];
      apply pixel_offset_eq in Hp as ->
  end;
  cbn [mbind option_bind] in H;
  repeat match type of H with
  | context [Mem.load8 ?b ?a] =>
      destruct (Mem.load8 b a); [|done]; cbn [mbind option_bind] in H
  | context [load32 ?e ?b ?a] =>
      destruct (load32 e b a); [|done]; cbn [mbind option_bind] in H
  | context [pixel_offset ?y ?stride ?x ?k] =>
      destruct (pixel_offset y stride x k); [|done];
      cbn [mbind option_bind] in H
  end;
  eexists; split; [|exact H]; apply cell_of_word_length.

Lemma widen_bgr888_pixel_writes_cell e stride y x s s' :
  widen_bgr888_pixel e stride y x s = Some s' ->
  exists bs, length bs = 4%nat /\
    Mem.write_bytes s (y * stride + x * 4) bs = Some s'.
Proof.
  unfold widen_bgr888_pixel. intros H.
  destruct (pixel_offset y stride x 3) as [src|]; [|done].
  destruct (pixel_offset y stride x 4) as [p|] eqn:Hp; [|done].
  apply pixel_offset_eq in Hp as ->. cbn [mbind option_bind] in H.
  destruct (Mem.load8 s src); [|done].
  destruct (Mem.load8 s (src + 1)); [|done].
  destruct (Mem.load8 s (src + 2)); [|done].
  cbn [mbind option_bind] in H.
  eexists. split; [|exact H]. apply cell_of_word_length.
Qed.

Lemma kernel_frames :
  Forall (fun k : kernel =>
    forall e buf width height stride buf',
      k e buf width height stride = Some buf' ->
      length buf' = length buf /\
      forall a n, outside_cells width height stride a n ->
        Mem.bytes_at buf' a n = Mem.bytes_at buf a n)
    normalization_kernels.
Proof.
  unfold normalization_kernels.
  do 6 (apply List.Forall_cons;
    [intros e buf width height stride buf';
     apply (nest_frame upto); [intros n i; apply elem_of_upto|];
     kernel_step|]).
  apply List.Forall_cons.
  { intros e buf width height stride buf'. rewrite bgr888_nest.
    case_decide; [|case_decide; [done|by intros [= <-]]].
    apply (nest_frame (fun n => downfrom (n - 1)));
      [intros n i; apply elem_of_downfrom|].
    intros y x s s'. apply widen_bgr888_pixel_writes_cell. }
  apply List.Forall_cons; [|apply List.Forall_nil].
  intros e buf width height stride buf'.
  apply (nest_frame upto); [intros n i; apply elem_of_upto|].
  kernel_step.
Qed.

(** X2: whenever a kernel returns, the buffer has kept its size and every
    byte outside the four-byte cells of the image (row padding, bytes
    after the last row) is as it was. *)
Theorem kernels_keep_bytes_outside_cells :
  Forall (fun k : kernel =>
    forall e buf width height stride buf',
      k e buf width height stride = Some buf' ->
      length buf' = length buf /\
      forall a n, outside_cells width height stride a n ->
        Mem.bytes_at buf' a n = Mem.bytes_at buf a n)
    normalization_kernels.
Proof. exact kernel_frames. Qed.

(** One pixel in a row of 8 bytes: the four bytes of padding stay. *)
Lemma kernels_keep_bytes_outside_cells_witness :
  let buf := [Byte.x10; Byte.x20; Byte.x30; Byte.xff;
              Byte.x55; Byte.x66; Byte.x77; Byte.x88] in
  let buf' := [Byte.x30; Byte.x20; Byte.x10; Byte.x00;
               Byte.x55; Byte.x66; Byte.x77; Byte.x88] in
  length buf' = length buf /\
  forall a n, outside_cells 1 1 8 a n ->
    Mem.bytes_at buf' a n = Mem.bytes_at buf a n.
Proof.
  apply (Forall_inv (Forall_inv_tail kernels_keep_bytes_outside_cells)
           LittleEndian _ 1 1 8).
  vm_compute. reflexivity.
Defined.

(** ** The bytes the 8-bit kernels leave in a cell *)

Lemma byte_of_Z_low w b :
  Z.land w 255 = byte.unsigned b -> byte.of_Z w = b.
Proof.
  intros H. rewrite byte_of_Z_land. change (Z.ones 8) with 255.
  rewrite H. apply byte.of_Z_unsigned.
Qed.

Lemma cell_of_rgb24 e r g b :
  cell_of_word e (rgb24 r g b) =
    match e with
    | LittleEndian => [b; g; r; Byte.x00]
    | BigEndian => [Byte.x00; r; g; b]
    end.
Proof.
  destruct (rgb24_channels r g b) as (Hr & Hg & Hb & H24).
  unfold red, green, blue in *. unfold cell_of_word.
  rewrite (byte_of_Z_low _ b Hb), (byte_of_Z_low _ g Hg),
    (byte_of_Z_low _ r Hr), H24.
  by destruct e.
Qed.

Lemma load32_bytes e buf a w :
  load32 e buf a = Some w ->
  Mem.bytes_at buf a 4 = Some (cell_of_word e w).
Proof.
  unfold load32. destruct (Mem.bytes_at buf a 4) as [c|] eqn:Hc; [|done].
  intros [= <-]. pose proof (bytes_at_length _ _ _ _ Hc).
  by rewrite cell_of_word_of_cell.
Qed.

Lemma bytes_load32 e buf a c :
  Mem.bytes_at buf a 4 = Some c -> load32 e buf a = Some (word_of_cell e c).
Proof. unfold load32. by intros ->. Qed.

(** X3: [cairo_rgb24_from_xrgb32_le] on a little-endian host changes
    nothing in a cell but its fourth byte, which becomes zero; on a
    big-endian host it reverses the first three bytes into the last three
    and zeroes the first. *)
Theorem xrgb32_le_cell_bytes e buf width height stride :
  fits width height stride (Z.of_nat (length buf)) ->
  height * stride <= INT_MAX ->
  exists buf',
    cairo_rgb24_from_xrgb32_le e buf width height stride = Some buf' /\
    forall y x, 0 <= y < height -> 0 <= x < width ->
      exists b0 b1 b2 b3,
        Mem.bytes_at buf (y * stride + x * 4) 4 = Some [b0; b1; b2; b3] /\
        Mem.bytes_at buf' (y * stride + x * 4) 4 =
          Some match e with
               | LittleEndian => [b0; b1; b2; Byte.x00]
               | BigEndian => [Byte.x00; b2; b1; b0]
               end.
Proof.
  intros Hfit Hint.
  destruct (cairo_rgb24_from_xrgb32_le_converts e buf width height stride
              Hfit Hint) as (buf' & Hrun & _ & Hcells).
  exists buf'. split; [done|]. intros y x Hy Hx.
  destruct (Hcells y x Hy Hx) as (b0 & b1 & b2 & b3 & Hcell & Hword).
  exists b0, b1, b2, b3. split; [done|].
  rewrite (load32_bytes _ _ _ _ Hword). by rewrite cell_of_rgb24.
Qed.

Lemma xrgb32_le_cell_bytes_witness :
  let buf := [Byte.x30; Byte.x20; Byte.x10; Byte.xff] in
  exists buf',
    cairo_rgb24_from_xrgb32_le LittleEndian buf 1 1 4 = Some buf' /\
    forall y x, 0 <= y < 1 -> 0 <= x < 1 ->
      exists b0 b1 b2 b3,
        Mem.bytes_at buf (y * 4 + x * 4) 4 = Some [b0; b1; b2; b3] /\
        Mem.bytes_at buf' (y * 4 + x * 4) 4 = Some [b0; b1; b2; Byte.x00].
Proof.
  apply (xrgb32_le_cell_bytes LittleEndian
           [Byte.x30; Byte.x20; Byte.x10; Byte.xff] 1 1 4).
  - unfold fits. simpl. lia.
  - unfold INT_MAX. lia.
Defined.

(** X4: [cairo_rgb24_swap_rb] on a little-endian host exchanges the red
    and blue channels of the Cairo word of every cell, keeps green and
    clears bits 31-24, and run twice gives back red, green and blue.  On
    a big-endian host it does not swap: red takes the byte of bits 31-24,
    green takes red and blue takes green. *)
Theorem swap_rb_channels e buf width height stride :
  fits width height stride (Z.of_nat (length buf)) ->
  height * stride <= INT_MAX ->
  exists buf' buf'',
    cairo_rgb24_swap_rb e buf width height stride = Some buf' /\
    cairo_rgb24_swap_rb e buf' width height stride = Some buf'' /\
    forall y x, 0 <= y < height -> 0 <= x < width ->
      exists old new new',
        load32 e buf (y * stride + x * 4) = Some old /\
        load32 e buf' (y * stride + x * 4) = Some new /\
        load32 e buf'' (y * stride + x * 4) = Some new' /\
        Z.shiftr new 24 = 0 /\
        match e with
        | LittleEndian =>
            red new = blue old /\ green new = green old /\
            blue new = red old /\
            red new' = red old /\ green new' = green old /\
            blue new' = blue old
        | BigEndian =>
            red new = Z.land (Z.shiftr old 24) 255 /\
            green new = red old /\ blue new = green old
        end.
Proof.
  intros Hfit Hint.
  destruct (cairo_rgb24_swap_rb_converts e buf width height stride
              Hfit Hint) as (buf' & Hrun & Hlen & Hcells).
  assert (fits width height stride (Z.of_nat (length buf'))) as Hfit'
    by (by rewrite Hlen).
  destruct (cairo_rgb24_swap_rb_converts e buf' width height stride
              Hfit' Hint) as (buf'' & Hrun' & _ & Hcells').
  exists buf', buf''. split; [done|]. split; [done|]. intros y x Hy Hx.
  destruct (Hcells y x Hy Hx) as (b0 & b1 & b2 & b3 & Hcell & Hword).
  destruct (Hcells' y x Hy Hx) as (c0 & c1 & c2 & c3 & Hcell' & Hword').
  pose proof (load32_bytes _ _ _ _ Hword) as Hbytes.
  rewrite cell_of_rgb24, Hcell' in Hbytes.
  exists (word_of_cell e [b0; b1; b2; b3]), (rgb24 b0 b1 b2),
    (rgb24 c0 c1 c2).
  split; [by apply bytes_load32|]. split; [done|]. split; [done|].
  destruct (rgb24_channels b0 b1 b2) as (-> & -> & -> & ->).
  destruct (rgb24_channels c0 c1 c2) as (-> & -> & -> & _).
  split; [done|]. destruct e; cbn [word_of_cell].
  - injection Hbytes as -> -> -> ->.
    by destruct (le32_channels b0 b1 b2 b3) as (-> & -> & ->).
  - destruct (le32_channels b3 b2 b1 b0) as (-> & -> & _).
    by destruct (land_le32 b3 b2 b1 b0) as (_ & _ & _ & ->).
Qed.

Lemma swap_rb_channels_witness :
  let buf := [Byte.x30; Byte.x20; Byte.x10; Byte.xff] in
  exists buf' buf'',
    cairo_rgb24_swap_rb LittleEndian buf 1 1 4 = Some buf' /\
    cairo_rgb24_swap_rb LittleEndian buf' 1 1 4 = Some buf'' /\
    forall y x, 0 <= y < 1 -> 0 <= x < 1 ->
      exists old new new',
        load32 LittleEndian buf (y * 4 + x * 4) = Some old /\
        load32 LittleEndian buf' (y * 4 + x * 4) = Some new /\
        load32 LittleEndian buf'' (y * 4 + x * 4) = Some new' /\
        Z.shiftr new 24 = 0 /\
        red new = blue old /\ green new = green old /\
        blue new = red old /\
        red new' = red old /\ green new' = green old /\
        blue new' = blue old.
Proof.
  apply (swap_rb_channels LittleEndian
           [Byte.x30; Byte.x20; Byte.x10; Byte.xff] 1 1 4).
  - unfold fits. simpl. lia.
  - unfold INT_MAX. lia.
Defined.

(** * Further properties of the format switch and the loader *)

Lemma on_surface_geometry k e image image' :
  In k normalization_kernels ->
  on_surface (k e) image = Some image' ->
  surf_width image' = surf_width image /\
  surf_height image' = surf_height image /\
  surf_stride image' = surf_stride image /\
  length (surf_data image') = length (surf_data image).
Proof.
  intros Hk. unfold on_surface.
  destruct (k e _ _ _ _) as [buf'|] eqn:Hrun; [|done]. intros [= <-].
  pose proof (proj1 (List.Forall_forall _ _) kernel_frames k Hk
                e _ _ _ _ _ Hrun) as [Hlen _].
  done.
Qed.

Ltac known_kernel := unfold normalization_kernels; simpl; tauto.

Lemma format_switch_invariants e format image image' log :
  format_switch e format image = Some (image', log) ->
  surf_width image' = surf_width image /\
  surf_height image' = surf_height image /\
  surf_stride image' = surf_stride image /\
  length (surf_data image') = length (surf_data image) /\
  log = format_log format /\
  match format with
  | WL_SHM_FORMAT_other _ =>
      format_switch e WL_SHM_FORMAT_XRGB8888 image = Some (image', [])
  | _ => True
  end.
Proof.
  intros H.
  assert (forall k (l : list log_entry),
    In k normalization_kernels ->
    (image1 ← on_surface (k e) image; Some (image1, l))
      = Some (image', log) ->
    (surf_width image' = surf_width image /\
     surf_height image' = surf_height image /\
     surf_stride image' = surf_stride image /\
     length (surf_data image') = length (surf_data image)) /\ log = l)
    as Hone.
  { intros k l Hk Hrun.
    destruct (on_surface (k e) image) as [image1|] eqn:Hk1; [|done].
    injection Hrun as <- <-. split; [|done].
    by apply (on_surface_geometry k e). }
  destruct format; cbn [format_switch format_log] in *;
    try (apply Hone in H as [(? & ? & ? & ?) ->]; [done|known_kernel]).
  - (* ARGB8888 *)
    destruct e; [by injection H as <- <-|].
    apply Hone in H as [(? & ? & ? & ?) ->]; [done|known_kernel].
  - (* XRGB8888 *)
    destruct e; [by injection H as <- <-|].
    apply Hone in H as [(? & ? & ? & ?) ->]; [done|known_kernel].
  - (* RGB888: two kernels *)
    destruct (on_surface (cairo_rgb24_from_bgr888_le e) image)
      as [image1|] eqn:H1; [|done]. cbn [mbind option_bind] in H.
    apply (on_surface_geometry cairo_rgb24_from_bgr888_le) in H1
      as (Hw1 & Hh1 & Hs1 & Hl1); [|known_kernel].
    destruct (on_surface (cairo_rgb24_swap_rb e) image1)
      as [image2|] eqn:H2; [|done]. injection H as <- <-.
    apply (on_surface_geometry cairo_rgb24_swap_rb) in H2
      as (Hw2 & Hh2 & Hs2 & Hl2); [|known_kernel].
    repeat split; congruence.
  - (* unknown format *)
    destruct e.
    + by injection H as <- <-.
    + destruct (on_surface (cairo_rgb24_from_xrgb32_le BigEndian) image)
        as [image1|] eqn:H1; [|done]. injection H as <- <-.
      apply (on_surface_geometry cairo_rgb24_from_xrgb32_le) in H1
        as (? & ? & ? & ?); [done|known_kernel].
Qed.

(** X5: whenever [format_switch] returns, the surface has kept its width,
    height, stride and data size, and nothing is logged unless the format
    is unknown; then one error line is logged and the surface is the one
    the switch returns for XRGB8888. *)
Theorem format_switch_geometry_and_log e format image image' log :
  format_switch e format image = Some (image', log) ->
  surf_width image' = surf_width image /\
  surf_height image' = surf_height image /\
  surf_stride image' = surf_stride image /\
  length (surf_data image') = length (surf_data image) /\
  log = format_log format /\
  match format with
  | WL_SHM_FORMAT_other _ =>
      format_switch e WL_SHM_FORMAT_XRGB8888 image = Some (image', [])
  | _ => True
  end.
Proof. apply format_switch_invariants. Qed.

Lemma format_switch_geometry_and_log_witness :
  let image := {| surf_data := [Byte.x01; Byte.x02; Byte.x03; Byte.xaa];
                  surf_width := 1; surf_height := 1; surf_stride := 4 |} in
  let format := WL_SHM_FORMAT_other 7 in
  surf_width image = surf_width image /\
  surf_height image = surf_height image /\
  surf_stride image = surf_stride image /\
  length (surf_data image) = length (surf_data image) /\
  [(LOG_ERROR, Unknown_pixel_format format)] = format_log format /\
  format_switch LittleEndian WL_SHM_FORMAT_XRGB8888 image
    = Some (image, []).
Proof.
  apply (format_switch_geometry_and_log LittleEndian (WL_SHM_FORMAT_other 7)
           {| surf_data := [Byte.x01; Byte.x02; Byte.x03; Byte.xaa];
              surf_width := 1; surf_height := 1; surf_stride := 4 |}).
  reflexivity.
Defined.

(** ** The loader, end to end *)

(** The loader is the transform stage followed by the format switch; what
    the switch does to every cell of a surface, the loader does to the
    source cell that the transform puts there. *)
Lemma load_cells host create format transform buf width height stride
    (R : list byte -> Z -> Prop) image0 log :
  let destwidth := if rotated transform then height else width in
  let destheight := if rotated transform then width else height in
  surface_creator create ->
  fits width height stride (Z.of_nat (length buf)) ->
  create destwidth destheight = Some image0 ->
  (forall image,
     surf_width image = destwidth -> surf_height image = destheight ->
     surf_stride image = surf_stride image0 ->
     fits destwidth destheight (surf_stride image)
          (Z.of_nat (length (surf_data image))) ->
     exists buf',
       format_switch host format image = Some (with_data image buf', log) /\
       forall y x, 0 <= y < destheight -> 0 <= x < destwidth ->
         exists cell word,
           Mem.bytes_at (surf_data image) (y * surf_stride image + x * 4) 4
             = Some cell /\
           load32 host buf' (y * surf_stride image + x * 4) = Some word /\
           R cell word) ->
  exists image,
    load_background_from_buffer host create buf format width height stride
      transform = Some (Some image, log) /\
    surf_width image = destwidth /\ surf_height image = destheight /\
    forall destx desty, 0 <= destx < destwidth -> 0 <= desty < destheight ->
      exists cell word,
        Mem.bytes_at buf
          (source_y transform destwidth destheight destx desty * stride
           + source_x transform destwidth destheight destx desty * 4) 4
          = Some cell /\
        load32 host (surf_data image) (desty * surf_stride image + destx * 4)
          = Some word /\
        R cell word.
Proof.
  intros destwidth destheight Hcreate Hfit Himage0 Hswitch.
  destruct (transform_and_copy_maps host create transform buf width height
              stride image0 Hcreate Hfit Himage0)
    as (image1 & Hrun & Hw & Hh & Hs & Hfit1 & Hmaps).
  fold destwidth destheight in Hw, Hh, Hfit1, Hmaps.
  destruct (Hswitch image1 Hw Hh Hs Hfit1) as (buf' & Hfs & Hcells).
  exists (with_data image1 buf').
  unfold load_background_from_buffer. rewrite Hrun, Hfs.
  split; [done|]. split; [done|]. split; [done|].
  intros destx desty Hx Hy. cbn [with_data surf_data surf_stride].
  destruct (Hcells desty destx Hy Hx) as (cell & word & Hcell & Hword & HR).
  destruct (Hmaps destx desty Hx Hy) as (cell' & Hsrc & Hdest).
  exists cell, word. split; [congruence|done].
Qed.

(** X6: for every transform and every packed 8-bit format, the loader
    returns a surface of the transformed size, logs nothing, and every
    cell carries the red, green and blue bytes of the source pixel that
    the transform reads for it, in the red, green and blue channels of the
    Cairo word.  The surface creation is assumed to succeed with a size
    that fits an [int]. *)
Theorem load_packed8_any_transform host create format transform buf
    width height stride :
  let destwidth := if rotated transform then height else width in
  let destheight := if rotated transform then width else height in
  surface_creator create ->
  is_Some (create destwidth destheight) ->
  (forall image0, create destwidth destheight = Some image0 ->
     destheight * surf_stride image0 <= INT_MAX) ->
  packed8 format = true ->
  fits width height stride (Z.of_nat (length buf)) ->
  exists image,
    load_background_from_buffer host create buf format width height stride
      transform = Some (Some image, []) /\
    surf_width image = destwidth /\ surf_height image = destheight /\
    forall destx desty, 0 <= destx < destwidth -> 0 <= desty < destheight ->
      exists b0 b1 b2 b3 word,
        Mem.bytes_at buf
          (source_y transform destwidth destheight destx desty * stride
           + source_x transform destwidth destheight destx desty * 4) 4
          = Some [b0; b1; b2; b3] /\
        load32 host (surf_data image) (desty * surf_stride image + destx * 4)
          = Some word /\
        packed8_rgb format b0 b1 b2 b3
          = Some (red word, green word, blue word).
Proof.
  intros destwidth destheight Hcreate [image0 Himage0] Hint Hpacked Hfit.
  specialize (Hint _ Himage0).
  destruct (load_cells host create format transform buf width height stride
    (fun cell word => exists b0 b1 b2 b3, cell = [b0; b1; b2; b3] /\
       packed8_rgb format b0 b1 b2 b3 = Some (red word, green word, blue word))
    image0 [] Hcreate Hfit Himage0) as (image & Hrun & Hw & Hh & Hcells).
  { intros image Hw Hh Hs Hfit1. rewrite <- Hw in Hfit1 at 1.
    rewrite <- Hh in Hfit1.
    destruct (format_switch_packed8 host format image Hpacked Hfit1)
      as (buf' & Hfs & Hcells); [by rewrite Hh, Hs|].
    exists buf'. split; [done|]. intros y x Hy Hx.
    destruct (Hcells y x) as (b0 & b1 & b2 & b3 & word & ? & ? & ?);
      [by rewrite Hh | by rewrite Hw|].
    exists [b0; b1; b2; b3], word. eauto 10. }
  exists image. split; [done|]. split; [done|]. split; [done|].
  intros destx desty Hx Hy.
  destruct (Hcells destx desty Hx Hy)
    as (cell & word & Hsrc & Hword & b0 & b1 & b2 & b3 & -> & Hrgb).
  exists b0, b1, b2, b3, word. done.
Qed.

(** A 2 x 2 XBGR8888 image loaded flipped and rotated by 270 degrees. *)
Lemma load_packed8_any_transform_witness :
  exists image,
    load_background_from_buffer LittleEndian packed_surface_create
      markers_2x2 WL_SHM_FORMAT_XBGR8888 2 2 8
      WL_OUTPUT_TRANSFORM_FLIPPED_270 = Some (Some image, []) /\
    surf_width image = 2 /\ surf_height image = 2 /\
    forall destx desty, 0 <= destx < 2 -> 0 <= desty < 2 ->
      exists b0 b1 b2 b3 word,
        Mem.bytes_at markers_2x2
          (source_y WL_OUTPUT_TRANSFORM_FLIPPED_270 2 2 destx desty * 8
           + source_x WL_OUTPUT_TRANSFORM_FLIPPED_270 2 2 destx desty * 4) 4
          = Some [b0; b1; b2; b3] /\
        load32 LittleEndian (surf_data image)
          (desty * surf_stride image + destx * 4) = Some word /\
        packed8_rgb WL_SHM_FORMAT_XBGR8888 b0 b1 b2 b3
          = Some (red word, green word, blue word).
Proof.
  apply (load_packed8_any_transform LittleEndian packed_surface_create
           WL_SHM_FORMAT_XBGR8888 WL_OUTPUT_TRANSFORM_FLIPPED_270
           markers_2x2 2 2 8).
  - apply packed_surface_creator.
  - simpl. eauto.
  - intros image0 [= <-]. simpl. unfold INT_MAX. lia.
  - reflexivity.
  - unfold fits. simpl. lia.
Defined.

Lemma format_switch_ten_bit e format f image :
  ten_bit_of_format format = Some f ->
  format_switch e format image =
    (image' ← on_surface (ten_bit_kernel f e) image; Some (image', [])).
Proof. destruct format; try discriminate; by intros [= <-]. Qed.

(** X7: for every transform and each of the eight 10-bit formats (with or
    without alpha), the loader returns a surface of the transformed size,
    logs nothing, and the red, green and blue channels of every cell are
    the 10-bit red, green and blue fields of the source pixel that the
    transform reads for it, without their two low bits; bits 31-24 are
    zero. *)
Theorem load_ten_bit_any_transform host create format f transform buf
    width height stride :
  let destwidth := if rotated transform then height else width in
  let destheight := if rotated transform then width else height in
  surface_creator create ->
  is_Some (create destwidth destheight) ->
  (forall image0, create destwidth destheight = Some image0 ->
     destheight * surf_stride image0 <= INT_MAX) ->
  ten_bit_of_format format = Some f ->
  fits width height stride (Z.of_nat (length buf)) ->
  exists image,
    load_background_from_buffer host create buf format width height stride
      transform = Some (Some image, []) /\
    surf_width image = destwidth /\ surf_height image = destheight /\
    forall destx desty, 0 <= destx < destwidth -> 0 <= desty < destheight ->
      exists b0 b1 b2 b3 word,
        Mem.bytes_at buf
          (source_y transform destwidth destheight destx desty * stride
           + source_x transform destwidth destheight destx desty * 4) 4
          = Some [b0; b1; b2; b3] /\
        load32 host (surf_data image) (desty * surf_stride image + destx * 4)
          = Some word /\
        let color := le32 b0 b1 b2 b3 in
        truncates10 (channel10 color (red_lsb f)) (red word) /\
        truncates10 (channel10 color (green_lsb f)) (green word) /\
        truncates10 (channel10 color (blue_lsb f)) (blue word) /\
        Z.shiftr word 24 = 0.
Proof.
  intros destwidth destheight Hcreate [image0 Himage0] Hint Hformat Hfit.
  specialize (Hint _ Himage0).
  destruct (load_cells host create format transform buf width height stride
    (fun cell word => exists b0 b1 b2 b3, cell = [b0; b1; b2; b3] /\
       word = ten_bit_to_rgb24 f (le32 b0 b1 b2 b3))
    image0 [] Hcreate Hfit Himage0) as (image & Hrun & Hw & Hh & Hcells).
  { intros image Hw Hh Hs Hfit1.
    rewrite (format_switch_ten_bit _ _ _ _ Hformat).
    rewrite <- Hw in Hfit1 at 1. rewrite <- Hh in Hfit1.
    destruct (ten_bit_kernel_converts f host (surf_data image)
                (surf_width image) (surf_height image) (surf_stride image)
                Hfit1) as (buf' & Hk & _ & Hcells); [by rewrite Hh, Hs|].
    exists buf'. unfold on_surface. rewrite Hk. split; [done|].
    intros y x Hy Hx.
    destruct (Hcells y x) as (b0 & b1 & b2 & b3 & ? & ?);
      [by rewrite Hh | by rewrite Hw|].
    exists [b0; b1; b2; b3], (ten_bit_to_rgb24 f (le32 b0 b1 b2 b3)).
    eauto 10. }
  exists image. split; [done|]. split; [done|]. split; [done|].
  intros destx desty Hx Hy.
  destruct (Hcells destx desty Hx Hy)
    as (cell & word & Hsrc & Hword & b0 & b1 & b2 & b3 & -> & ->).
  exists b0, b1, b2, b3, (ten_bit_to_rgb24 f (le32 b0 b1 b2 b3)).
  split; [done|]. split; [done|]. apply ten_bit_channels.
Qed.

(** A 1 x 2 ARGB2101010 image rotated by 90 degrees into a 2 x 1 one. *)
Lemma load_ten_bit_any_transform_witness :
  let buf := [Byte.xff; Byte.xff; Byte.xff; Byte.xff;
              Byte.x00; Byte.x00; Byte.x00; Byte.xc0] in
  exists image,
    load_background_from_buffer LittleEndian packed_surface_create buf
      WL_SHM_FORMAT_ARGB2101010 1 2 4 WL_OUTPUT_TRANSFORM_90
      = Some (Some image, []) /\
    surf_width image = 2 /\ surf_height image = 1 /\
    forall destx desty, 0 <= destx < 2 -> 0 <= desty < 1 ->
      exists b0 b1 b2 b3 word,
        Mem.bytes_at buf
          (source_y WL_OUTPUT_TRANSFORM_90 2 1 destx desty * 4
           + source_x WL_OUTPUT_TRANSFORM_90 2 1 destx desty * 4) 4
          = Some [b0; b1; b2; b3] /\
        load32 LittleEndian (surf_data image)
          (desty * surf_stride image + destx * 4) = Some word /\
        let color := le32 b0 b1 b2 b3 in
        truncates10 (channel10 color (red_lsb XRGB2101010)) (red word) /\
        truncates10 (channel10 color (green_lsb XRGB2101010)) (green word) /\
        truncates10 (channel10 color (blue_lsb XRGB2101010)) (blue word) /\
        Z.shiftr word 24 = 0.
Proof.
  apply (load_ten_bit_any_transform LittleEndian packed_surface_create
           WL_SHM_FORMAT_ARGB2101010 XRGB2101010 WL_OUTPUT_TRANSFORM_90
           [Byte.xff; Byte.xff; Byte.xff; Byte.xff;
            Byte.x00; Byte.x00; Byte.x00; Byte.xc0] 1 2 4).
  - apply packed_surface_creator.
  - simpl. eauto.
  - intros image0 [= <-]. simpl. unfold INT_MAX. lia.
  - reflexivity.
  - unfold fits. simpl. lia.
Defined.

(** ** The 3-byte formats under the row-copying transforms *)

(** A loop that copies [minstride] bytes a row copies the first [m] bytes
    of every row, for any [m] up to [minstride]. *)
Lemma row_loop_copies srcbuf srcstride dest0 height deststride minstride m
    (srcrow : Z -> Z) :
  0 <= m -> m <= minstride ->
  minstride <= srcstride -> minstride <= deststride ->
  height * srcstride <= Z.of_nat (length srcbuf) ->
  height * deststride <= Z.of_nat (length dest0) ->
  (forall y, 0 <= y < height -> 0 <= srcrow y < height) ->
  exists dest',
    for_loop (upto height) (fun y destbuf =>
      Mem.memcpy destbuf (y * deststride) srcbuf (srcrow y * srcstride)
                 minstride) dest0 = Some dest' /\
    length dest' = length dest0 /\
    forall y, 0 <= y < height ->
      exists row,
        Mem.bytes_at srcbuf (srcrow y * srcstride) m = Some row /\
        Mem.bytes_at dest' (y * deststride) m = Some row.
Proof.
  intros Hm Hmin Hmins Hmind Hsl Hdl Hrow.
  destruct (decide (0 <= height)) as [Hh|Hh];
    [|exists dest0; rewrite upto_nil by lia; repeat split; intros; lia].
  destruct (for_loop_invariant
    (fun (j : nat) dest => length dest = length dest0 /\
       forall y, 0 <= y < Z.of_nat j ->
         Mem.bytes_at dest (y * deststride) minstride
           = Mem.bytes_at srcbuf (srcrow y * srcstride) minstride)
    (upto height)
    (fun y destbuf =>
       Mem.memcpy destbuf (y * deststride) srcbuf (srcrow y * srcstride)
                  minstride) dest0) as (dest' & Hrun & Hlen & Hrows).
  - split; [done|]. intros; lia.
  - intros j i dest [-> Hj]%upto_lookup [Hlen Hrows].
    assert (0 <= srcrow (Z.of_nat j) < height) as Hr by (apply Hrow; lia).
    destruct (memcpy_Some dest (Z.of_nat j * deststride) srcbuf
                (srcrow (Z.of_nat j) * srcstride) minstride)
      as (dest1 & -> & Hlen1 & Hnew & Hold).
    { unfold Mem.in_range. nia. }
    { unfold Mem.in_range. rewrite Hlen. nia. }
    exists dest1. split; [done|]. split; [congruence|].
    intros y Hyj. destruct (decide (y = Z.of_nat j)) as [->|Hne]; [done|].
    rewrite <- Hrows by lia. apply Hold. left. nia.
  - exists dest'. split; [done|]. split; [done|].
    rewrite upto_length in Hrows by done. intros y Hy.
    assert (0 <= srcrow y < height) as Hr by (by apply Hrow).
    assert (Mem.in_range srcbuf (srcrow y * srcstride) minstride) as Hin
      by (unfold Mem.in_range; nia).
    pose proof (bytes_at_in_range _ _ _ Hin) as Hsrow.
    eexists. split.
    + replace (srcrow y * srcstride) with (srcrow y * srcstride + 0)
        at 1 by lia.
      apply (bytes_at_sub _ _ _ _ 0 m Hsrow); lia.
    + rewrite <- Hrows in Hsrow by done.
      replace (y * deststride) with (y * deststride + 0) at 1 by lia.
      apply (bytes_at_sub _ _ _ _ 0 m Hsrow); lia.
Qed.

(** The normal and the flipped-180 case copy at least the first [m] bytes
    of every row, for any [m] that both strides cover. *)
Lemma row_transform_copies e transform srcbuf srcstride dest0 destwidth
    height deststride m :
  transform = WL_OUTPUT_TRANSFORM_NORMAL \/
  transform = WL_OUTPUT_TRANSFORM_FLIPPED_180 ->
  0 <= height -> 0 <= m -> m <= srcstride -> m <= deststride ->
  height * srcstride <= Z.of_nat (length srcbuf) ->
  height * deststride <= Z.of_nat (length dest0) ->
  exists dest',
    transform_switch e transform srcbuf srcstride
      dest0 destwidth height deststride = Some dest' /\
    length dest' = length dest0 /\
    forall y, 0 <= y < height ->
      exists row,
        Mem.bytes_at srcbuf
          (source_y transform destwidth height 0 y * srcstride) m
          = Some row /\
        Mem.bytes_at dest' (y * deststride) m = Some row.
Proof.
  intros Ht Hh Hm Hms Hmd Hsl Hdl.
  set (minstride := if decide (srcstride < deststride)
                    then srcstride else deststride).
  assert (m <= minstride /\ minstride <= srcstride /\
          minstride <= deststride) as (Hmin & Hmins & Hmind)
    by (unfold minstride; case_decide; lia).
  destruct Ht as [-> | ->]; cbn [transform_switch source_y].
  - case_decide as Heq.
    + destruct (memcpy_Some dest0 0 srcbuf 0 (height * deststride))
        as (dest' & Hrun & Hlen & Hnew & _).
      { unfold Mem.in_range. nia. }
      { unfold Mem.in_range. nia. }
      exists dest'. split; [done|]. split; [done|]. intros y Hy.
      assert (Mem.in_range srcbuf 0 (height * deststride)) as Hr
        by (unfold Mem.in_range; nia).
      pose proof (bytes_at_in_range _ _ _ Hr) as Hall.
      eexists. split.
      * rewrite Heq.
        replace (y * deststride) with (0 + y * deststride) by lia.
        apply (bytes_at_sub _ _ _ _ _ m Hall); nia.
      * rewrite <- Hnew in Hall.
        replace (y * deststride) with (0 + y * deststride) by lia.
        apply (bytes_at_sub _ _ _ _ _ m Hall); nia.
    + apply (row_loop_copies srcbuf srcstride dest0 height deststride
               minstride m (fun y => y)); [done..|]. intros; lia.
  - apply (row_loop_copies srcbuf srcstride dest0 height deststride
             minstride m (fun y => height - y - 1)); [done..|].
    intros; lia.
Qed.

(** X8: under the two transforms that copy whole rows, normal and
    flipped-180, a BGR888 or RGB888 buffer, three bytes a pixel with rows
    of at least [3 * width] bytes, is loaded into a surface of the same
    size, nothing logged, bits 31-24 zero, every pixel taken from the row
    the transform reads.  For BGR888 the first, second and third byte of
    a pixel become red, green and blue; for RGB888 on a little-endian host
    the third, second and first.  On a big-endian host RGB888 comes out
    wrong: red is 0, green the first byte and blue the second. *)
Theorem load_888_row_transforms host create format transform buf
    width height stride :
  surface_creator create ->
  is_Some (create width height) ->
  (forall image0, create width height = Some image0 ->
     height * surf_stride image0 <= INT_MAX) ->
  format = WL_SHM_FORMAT_BGR888 \/ format = WL_SHM_FORMAT_RGB888 ->
  transform = WL_OUTPUT_TRANSFORM_NORMAL \/
  transform = WL_OUTPUT_TRANSFORM_FLIPPED_180 ->
  0 <= width -> 0 <= height -> 3 * width <= stride ->
  height * stride <= Z.of_nat (length buf) ->
  exists image,
    load_background_from_buffer host create buf format width height stride
      transform = Some (Some image, []) /\
    surf_width image = width /\ surf_height image = height /\
    forall x y, 0 <= x < width -> 0 <= y < height ->
      exists s0 s1 s2 word,
        Mem.bytes_at buf
          (source_y transform width height x y * stride + x * 3) 3
          = Some [s0; s1; s2] /\
        load32 host (surf_data image) (y * surf_stride image + x * 4)
          = Some word /\
        Z.shiftr word 24 = 0 /\
        (red word, green word, blue word) =
          match format, host with
          | WL_SHM_FORMAT_RGB888, LittleEndian =>
              (byte.unsigned s2, byte.unsigned s1, byte.unsigned s0)
          | WL_SHM_FORMAT_RGB888, BigEndian =>
              (0, byte.unsigned s0, byte.unsigned s1)
          | _, _ => (byte.unsigned s0, byte.unsigned s1, byte.unsigned s2)
          end.
Proof.
  intros Hcreate [image0 Himage0] Hint Hformat Ht Hw Hh Hstride Hlen.
  specialize (Hint _ Himage0).
  destruct (Hcreate _ _ _ Himage0) as (Hw0 & Hh0 & Hs0 & Hl0).
  set (ds := surf_stride image0) in *.
  destruct (row_transform_copies host transform buf stride
              (surf_data image0) width height ds (3 * width) Ht)
    as (dest' & Hcopy & Hlen' & Hrows); [lia..|].
  assert (rotated transform = false) as Hrot by (by destruct Ht as [-> | ->]).
  assert (forall x y, source_y transform width height x y
                      = source_y transform width height 0 y) as Hsy
    by (by destruct Ht as [-> | ->]).
  assert (fits width height ds (Z.of_nat (length dest'))) as Hfit
    by (unfold fits; lia).
  destruct (bgr888_widens host width height ds dest' Hfit Hint)
    as (buf2 & Hwiden & Hlen2 & Hcells).
  assert (forall x y, 0 <= x < width -> 0 <= y < height ->
    exists s0 s1 s2,
      Mem.bytes_at buf
        (source_y transform width height x y * stride + x * 3) 3
        = Some [s0; s1; s2] /\
      load32 host buf2 (y * ds + x * 4) = Some (rgb24 s0 s1 s2)) as Hwide.
  { intros x y Hx Hy.
    destruct (Hcells y x Hy Hx) as (s0 & s1 & s2 & Hd & Hword).
    destruct (Hrows y Hy) as (row & Hsrow & Hdrow).
    exists s0, s1, s2. split; [|done]. rewrite Hsy.
    rewrite (bytes_at_sub _ _ _ _ (x * 3) 3 Hsrow) by lia.
    rewrite (bytes_at_sub _ _ _ _ (x * 3) 3 Hdrow) in Hd by lia. done. }
  assert (transform_and_copy host create buf width height stride transform
          = Some (Some (with_data image0 dest'))) as Hstage.
  { unfold transform_and_copy. rewrite Hrot, Himage0.
    cbv beta iota zeta. rewrite Hw0, Hh0. fold ds. by rewrite Hcopy. }
  assert (on_surface (cairo_rgb24_from_bgr888_le host)
            (with_data image0 dest')
          = Some (with_data image0 buf2)) as Hon.
  { unfold on_surface. cbn [with_data surf_data surf_width surf_height
      surf_stride]. rewrite Hw0, Hh0. fold ds. by rewrite Hwiden. }
  unfold load_background_from_buffer. rewrite Hstage.
  destruct Hformat as [-> | ->]; cbn [format_switch]; rewrite Hon;
    cbn [mbind option_bind].
  - (* BGR888 *)
    exists (with_data image0 buf2). split; [done|].
    split; [done|]. split; [done|]. intros x y Hx Hy.
    destruct (Hwide x y Hx Hy) as (s0 & s1 & s2 & Hsrc & Hword).
    exists s0, s1, s2, (rgb24 s0 s1 s2). split; [done|]. split; [done|].
    destruct (rgb24_channels s0 s1 s2) as (-> & -> & -> & ->).
    by destruct host.
  - (* RGB888 *)
    assert (fits width height ds (Z.of_nat (length buf2))) as Hfit2
      by (by rewrite Hlen2).
    destruct (cairo_rgb24_swap_rb_converts host buf2 width height ds
                Hfit2 Hint) as (buf3 & Hswap & _ & Hcells3).
    assert (on_surface (cairo_rgb24_swap_rb host) (with_data image0 buf2)
            = Some (with_data image0 buf3)) as Hon3.
    { unfold on_surface. cbn [with_data surf_data surf_width surf_height
        surf_stride]. rewrite Hw0, Hh0. fold ds. by rewrite Hswap. }
    rewrite Hon3. cbn [mbind option_bind].
    exists (with_data image0 buf3). split; [done|].
    split; [done|]. split; [done|]. intros x y Hx Hy.
    destruct (Hwide x y Hx Hy) as (s0 & s1 & s2 & Hsrc & Hword).
    destruct (Hcells3 y x Hy Hx) as (c0 & c1 & c2 & c3 & Hc & Hword3).
    pose proof (load32_bytes _ _ _ _ Hword) as Hbytes.
    rewrite cell_of_rgb24, Hc in Hbytes.
    exists s0, s1, s2, (rgb24 c0 c1 c2). split; [done|]. split; [done|].
    destruct (rgb24_channels c0 c1 c2) as (-> & -> & -> & ->).
    split; [done|]. destruct host; by injection Hbytes as -> -> -> ->.
Qed.

(** Two rows of one RGB888 pixel, turned upside down on a little-endian
    host. *)
Lemma load_888_row_transforms_witness :
  let buf := [Byte.x01; Byte.x02; Byte.x03; Byte.x11; Byte.x12; Byte.x13] in
  exists image,
    load_background_from_buffer LittleEndian packed_surface_create buf
      WL_SHM_FORMAT_RGB888 1 2 3 WL_OUTPUT_TRANSFORM_FLIPPED_180
      = Some (Some image, []) /\
    surf_width image = 1 /\ surf_height image = 2 /\
    forall x y, 0 <= x < 1 -> 0 <= y < 2 ->
      exists s0 s1 s2 word,
        Mem.bytes_at buf ((2 - y - 1) * 3 + x * 3) 3 = Some [s0; s1; s2] /\
        load32 LittleEndian (surf_data image) (y * surf_stride image + x * 4)
          = Some word /\
        Z.shiftr word 24 = 0 /\
        (red word, green word, blue word) =
          (byte.unsigned s2, byte.unsigned s1, byte.unsigned s0).
Proof.
  apply (load_888_row_transforms LittleEndian packed_surface_create
           WL_SHM_FORMAT_RGB888 WL_OUTPUT_TRANSFORM_FLIPPED_180
           [Byte.x01; Byte.x02; Byte.x03; Byte.x11; Byte.x12; Byte.x13]
           1 2 3).
  - apply packed_surface_creator.
  - simpl. eauto.
  - intros image0 [= <-]. simpl. unfold INT_MAX. lia.
  - by right.
  - by right.
  - lia.
  - lia.
  - lia.
  - simpl. lia.
Defined.

(** ** What the loader returns and logs *)

Lemma copy_pixel_length e srcbuf srcstride srcx srcy dest deststride
    destx desty dest' :
  copy_pixel e srcbuf srcstride srcx srcy dest deststride destx desty
    = Some dest' ->
  length dest' = length dest.
Proof.
  unfold copy_pixel, store32. destruct (load32 _ _ _); [|done].
  apply write_bytes_length.
Qed.

Lemma memcpy_length dest d src s n dest' :
  Mem.memcpy dest d src s n = Some dest' -> length dest' = length dest.
Proof.
  unfold Mem.memcpy. destruct (Mem.bytes_at src s n); [|done].
  apply write_bytes_length.
Qed.

(** The transform switch never resizes the destination. *)
Lemma transform_switch_length e transform srcbuf srcstride dest
    destwidth destheight deststride dest' :
  transform_switch e transform srcbuf srcstride dest
    destwidth destheight deststride = Some dest' ->
  length dest' = length dest.
Proof.
  assert (forall rows cols
            (body : Z -> Z -> list byte -> option (list byte)),
    (forall y x s s', body y x s = Some s' -> length s' = length s) ->
    for_loop rows (fun y => for_loop cols (body y)) dest = Some dest' ->
    length dest' = length dest) as Hnest.
  { intros rows cols body Hbody.
    apply (for_loop_preserves (fun s => length s = length dest)); [|done].
    intros y s s' _ Hs.
    apply (for_loop_preserves (fun s => length s = length dest)); [|done].
    intros x t t' _ Ht Hrun. rewrite <- Ht. by eapply Hbody. }
  assert (forall rows (body : Z -> list byte -> option (list byte)),
    (forall y s s', body y s = Some s' -> length s' = length s) ->
    for_loop rows body dest = Some dest' ->
    length dest' = length dest) as Hrows.
  { intros rows body Hbody.
    apply (for_loop_preserves (fun s => length s = length dest)); [|done].
    intros y s s' _ Hs Hrun. rewrite <- Hs. by eapply Hbody. }
  destruct transform; cbn [transform_switch];
    try (apply Hnest; intros y x s s'; apply copy_pixel_length).
  - case_decide; [apply memcpy_length|].
    apply Hrows. intros y s s'. apply memcpy_length.
  - apply Hrows. intros y s s'. apply memcpy_length.
Qed.

Lemma load_outcome host create buf format width height stride transform
    result log :
  let destwidth := if rotated transform then height else width in
  let destheight := if rotated transform then width else height in
  surface_creator create ->
  load_background_from_buffer host create buf format width height stride
    transform = Some (result, log) ->
  match result with
  | None =>
      create destwidth destheight = None /\
      log = [(LOG_ERROR, Failed_to_create_image)]
  | Some image =>
      exists image0,
        create destwidth destheight = Some image0 /\
        surf_width image = destwidth /\ surf_height image = destheight /\
        surf_stride image = surf_stride image0 /\
        length (surf_data image) = length (surf_data image0) /\
        4 * destwidth <= surf_stride image /\
        Z.of_nat (length (surf_data image)) = destheight * surf_stride image /\
        log = format_log format
  end.
Proof.
  intros destwidth destheight Hcreate.
  unfold load_background_from_buffer, transform_and_copy.
  replace (if rotated transform then create height width
           else create width height) with (create destwidth destheight)
    by (subst destwidth destheight; by destruct (rotated transform)).
  destruct (create destwidth destheight) as [image0|] eqn:Himage0.
  - destruct (Hcreate _ _ _ Himage0) as (Hw & Hh & Hs & Hl).
    cbv beta iota zeta.
    destruct (transform_switch _ _ _ _ _ _ _ _) as [dest'|] eqn:Hts;
      [|done].
    apply transform_switch_length in Hts. cbn [mbind option_bind].
    destruct (format_switch host format (with_data image0 dest'))
      as [[image' log']|] eqn:Hfs; [|done].
    cbn [mbind option_bind]. intros [= <- <-].
    destruct (format_switch_invariants _ _ _ _ _ Hfs)
      as (Hw' & Hh' & Hs' & Hl' & -> & _).
    cbn [with_data surf_data surf_width surf_height surf_stride] in *.
    exists image0. repeat split; congruence.
  - by intros [= <- <-].
Qed.

(** X9: when the loader returns without a surface, the creation of the
    destination had failed and exactly one error line is logged; when it
    returns a surface, that surface has the transformed width and height
    (swapped for the four rotated transforms), rows of at least four bytes
    a pixel, data of height times stride bytes, and what is logged is one
    error line for an unknown format and nothing otherwise.  A failed
    creation gives the first outcome whatever the source buffer is. *)
Theorem load_returns_and_logs host create buf format width height stride
    transform :
  let destwidth := if rotated transform then height else width in
  let destheight := if rotated transform then width else height in
  surface_creator create ->
  (forall result log,
     load_background_from_buffer host create buf format width height stride
       transform = Some (result, log) ->
     match result with
     | None =>
         create destwidth destheight = None /\
         log = [(LOG_ERROR, Failed_to_create_image)]
     | Some image =>
         exists image0,
           create destwidth destheight = Some image0 /\
           surf_width image = destwidth /\ surf_height image = destheight /\
           surf_stride image = surf_stride image0 /\
           length (surf_data image) = length (surf_data image0) /\
           4 * destwidth <= surf_stride image /\
           Z.of_nat (length (surf_data image))
             = destheight * surf_stride image /\
           log = format_log format
     end) /\
  (create destwidth destheight = None ->
   load_background_from_buffer host create buf format width height stride
     transform = Some (None, [(LOG_ERROR, Failed_to_create_image)])).
Proof.
  intros destwidth destheight Hcreate. split.
  - intros result log. by apply load_outcome.
  - intros Hnone.
    unfold load_background_from_buffer, transform_and_copy.
    replace (if rotated transform then create height width
             else create width height) with (create destwidth destheight)
      by (subst destwidth destheight; by destruct (rotated transform)).
    by rewrite Hnone.
Qed.

(** A negative width: no surface, one error line, for an empty buffer. *)
Lemma load_returns_and_logs_witness :
  load_background_from_buffer LittleEndian packed_surface_create []
    WL_SHM_FORMAT_XRGB8888 (-1) 2 0 WL_OUTPUT_TRANSFORM_90
  = Some (None, [(LOG_ERROR, Failed_to_create_image)]).
Proof.
  apply (proj2 (load_returns_and_logs LittleEndian packed_surface_create []
                  WL_SHM_FORMAT_XRGB8888 (-1) 2 0 WL_OUTPUT_TRANSFORM_90
                  packed_surface_creator)).
  reflexivity.
Defined.

(** * Further properties of the transforms *)

(** X10: for each of the eight transforms [transform_switch] runs to
    completion, keeps the size of the destination, and fills every
    destination cell from the source cell in column [source_x] and row
    [source_y]; the destination is as wide as the source is high, and as
    high as it is wide, exactly for the four rotated transforms. *)
Theorem transform_switch_coordinate_table e transform srcbuf
    srcwidth srcheight srcstride dest0 deststride :
  let destwidth := if rotated transform then srcheight else srcwidth in
  let destheight := if rotated transform then srcwidth else srcheight in
  fits srcwidth srcheight srcstride (Z.of_nat (length srcbuf)) ->
  fits destwidth destheight deststride (Z.of_nat (length dest0)) ->
  exists dest',
    transform_switch e transform srcbuf srcstride
                     dest0 destwidth destheight deststride = Some dest' /\
    length dest' = length dest0 /\
    maps_pixels srcbuf srcstride
                (source_x transform destwidth destheight)
                (source_y transform destwidth destheight)
                dest' destwidth destheight deststride.
Proof. apply transform_switch_maps. Qed.

(** A 1 x 2 image mirrored and rotated into a 2 x 1 one. *)
Lemma transform_switch_coordinate_table_witness :
  let src := [Byte.x01; Byte.x02; Byte.x03; Byte.x04;
              Byte.x11; Byte.x12; Byte.x13; Byte.x14] in
  let dest0 := replicate 8 Byte.x00 in
  exists dest',
    transform_switch LittleEndian WL_OUTPUT_TRANSFORM_FLIPPED_90 src 4
                     dest0 2 1 8 = Some dest' /\
    length dest' = length dest0 /\
    maps_pixels src 4
                (source_x WL_OUTPUT_TRANSFORM_FLIPPED_90 2 1)
                (source_y WL_OUTPUT_TRANSFORM_FLIPPED_90 2 1)
                dest' 2 1 8.
Proof.
  apply (transform_switch_coordinate_table LittleEndian
           WL_OUTPUT_TRANSFORM_FLIPPED_90
           [Byte.x01; Byte.x02; Byte.x03; Byte.x04;
            Byte.x11; Byte.x12; Byte.x13; Byte.x14] 1 2 4
           (replicate 8 Byte.x00) 8);
    unfold fits; simpl; lia.
Defined.

Lemma source_injective transform destwidth destheight x y x' y' :
  source_x transform destwidth destheight x y
    = source_x transform destwidth destheight x' y' ->
  source_y transform destwidth destheight x y
    = source_y transform destwidth destheight x' y' ->
  x = x' /\ y = y'.
Proof. destruct transform; simpl; lia. Qed.

(** X11: a transform loses and duplicates no pixel: every source pixel is
    copied to exactly one destination cell. *)
Theorem transform_moves_every_pixel_once e transform srcbuf
    srcwidth srcheight srcstride dest0 deststride :
  let destwidth := if rotated transform then srcheight else srcwidth in
  let destheight := if rotated transform then srcwidth else srcheight in
  fits srcwidth srcheight srcstride (Z.of_nat (length srcbuf)) ->
  fits destwidth destheight deststride (Z.of_nat (length dest0)) ->
  exists dest',
    transform_switch e transform srcbuf srcstride
                     dest0 destwidth destheight deststride = Some dest' /\
    forall x y, 0 <= x < srcwidth -> 0 <= y < srcheight ->
      exists destx desty,
        (0 <= destx < destwidth /\ 0 <= desty < destheight) /\
        source_x transform destwidth destheight destx desty = x /\
        source_y transform destwidth destheight destx desty = y /\
        (exists cell,
           Mem.bytes_at srcbuf (y * srcstride + x * 4) 4 = Some cell /\
           Mem.bytes_at dest' (desty * deststride + destx * 4) 4
             = Some cell) /\
        forall destx' desty',
          0 <= destx' < destwidth -> 0 <= desty' < destheight ->
          source_x transform destwidth destheight destx' desty' = x ->
          source_y transform destwidth destheight destx' desty' = y ->
          destx' = destx /\ desty' = desty.
Proof.
  intros destwidth destheight Hsrc Hdest.
  destruct (transform_switch_maps e transform srcbuf srcwidth srcheight
              srcstride dest0 deststride Hsrc Hdest)
    as (dest' & Hrun & _ & Hmaps).
  exists dest'. split; [done|]. intros x y Hx Hy.
  destruct (source_inverse transform srcwidth srcheight x y Hx Hy)
    as (Hrange & Hsx & Hsy).
  fold destwidth destheight in Hrange, Hsx, Hsy.
  eexists _, _. split; [exact Hrange|]. split; [exact Hsx|].
  split; [exact Hsy|]. split.
  - destruct Hrange as [Hdx Hdy].
    destruct (Hmaps _ _ Hdx Hdy) as (cell & Hs & Hd).
    fold destwidth destheight in Hs. rewrite Hsx, Hsy in Hs. eauto.
  - intros destx' desty' _ _ Hx' Hy'.
    eapply source_injective; by rewrite ?Hsx, ?Hsy.
Qed.

Lemma transform_moves_every_pixel_once_witness :
  exists dest',
    transform_switch LittleEndian WL_OUTPUT_TRANSFORM_270 markers_2x2 8
                     blank_2x2 2 2 8 = Some dest' /\
    forall x y, 0 <= x < 2 -> 0 <= y < 2 ->
      exists destx desty,
        (0 <= destx < 2 /\ 0 <= desty < 2) /\
        source_x WL_OUTPUT_TRANSFORM_270 2 2 destx desty = x /\
        source_y WL_OUTPUT_TRANSFORM_270 2 2 destx desty = y /\
        (exists cell,
           Mem.bytes_at markers_2x2 (y * 8 + x * 4) 4 = Some cell /\
           Mem.bytes_at dest' (desty * 8 + destx * 4) 4 = Some cell) /\
        forall destx' desty',
          0 <= destx' < 2 -> 0 <= desty' < 2 ->
          source_x WL_OUTPUT_TRANSFORM_270 2 2 destx' desty' = x ->
          source_y WL_OUTPUT_TRANSFORM_270 2 2 destx' desty' = y ->
          destx' = destx /\ desty' = desty.
Proof.
  apply (transform_moves_every_pixel_once LittleEndian
           WL_OUTPUT_TRANSFORM_270 markers_2x2 2 2 8 blank_2x2 8);
    unfold fits; simpl; lia.
Defined.

Lemma rotated_compose first second :
  rotated (compose first second)
    = xorb (rotated first) (rotated second).
Proof. by destruct first, second. Qed.

(** Reading through the second transform and then the first is reading
    through their composition. *)
Lemma source_compose first second width height x y :
  let midwidth := if rotated first then height else width in
  let midheight := if rotated first then width else height in
  let finwidth := if rotated second then midheight else midwidth in
  let finheight := if rotated second then midwidth else midheight in
  let midx := source_x second finwidth finheight x y in
  let midy := source_y second finwidth finheight x y in
  0 <= x < finwidth -> 0 <= y < finheight ->
  (0 <= midx < midwidth /\ 0 <= midy < midheight) /\
  source_x first midwidth midheight midx midy
    = source_x (compose first second) finwidth finheight x y /\
  source_y first midwidth midheight midx midy
    = source_y (compose first second) finwidth finheight x y.
Proof.
  destruct first, second;
    match goal with
    | |- context [compose ?a ?b] =>
        let c := eval vm_compute in (compose a b) in
        change (compose a b) with c
    end;
    simpl; lia.
Qed.

(** X12: one transform followed by another gives, cell for cell, the
    image that the single transform [compose first second] gives, with
    the same width and height: the eight transforms are closed under
    composition.  The surface creations are assumed to succeed. *)
Theorem transforms_compose host create first second buf
    width height stride :
  let midwidth := if rotated first then height else width in
  let midheight := if rotated first then width else height in
  let finwidth := if rotated second then midheight else midwidth in
  let finheight := if rotated second then midwidth else midheight in
  surface_creator create ->
  fits width height stride (Z.of_nat (length buf)) ->
  is_Some (create midwidth midheight) ->
  is_Some (create finwidth finheight) ->
  exists mid fin one,
    transform_and_copy host create buf width height stride first
      = Some (Some mid) /\
    transform_and_copy host create (surf_data mid) (surf_width mid)
      (surf_height mid) (surf_stride mid) second = Some (Some fin) /\
    transform_and_copy host create buf width height stride
      (compose first second) = Some (Some one) /\
    surf_width fin = finwidth /\ surf_height fin = finheight /\
    surf_width one = finwidth /\ surf_height one = finheight /\
    same_cells (surf_data fin) (surf_stride fin)
               (surf_data one) (surf_stride one) finwidth finheight.
Proof.
  intros midwidth midheight finwidth finheight Hcreate Hfit
    [image1 Himage1] [image2 Himage2].
  destruct (transform_and_copy_maps host create first buf width height
              stride image1 Hcreate Hfit Himage1)
    as (mid & Hrun1 & Hw1 & Hh1 & _ & Hfit1 & Hmaps1).
  fold midwidth midheight in Hw1, Hh1, Hfit1, Hmaps1.
  assert (fits (surf_width mid) (surf_height mid) (surf_stride mid)
               (Z.of_nat (length (surf_data mid)))) as Hfitmid
    by (by rewrite Hw1, Hh1).
  destruct (transform_and_copy_maps host create second (surf_data mid)
              (surf_width mid) (surf_height mid) (surf_stride mid) image2
              Hcreate Hfitmid)
    as (fin & Hrun2 & Hw2 & Hh2 & _ & _ & Hmaps2).
  { by rewrite Hw1, Hh1. }
  rewrite Hw1, Hh1 in Hw2, Hh2, Hmaps2.
  fold finwidth finheight in Hw2, Hh2, Hmaps2.
  assert ((if rotated (compose first second) then height else width)
            = finwidth /\
          (if rotated (compose first second) then width else height)
            = finheight) as [Hcw Hch].
  { rewrite rotated_compose. subst finwidth finheight midwidth midheight.
    by destruct (rotated first), (rotated second). }
  destruct (transform_and_copy_maps host create (compose first second) buf
              width height stride image2 Hcreate Hfit)
    as (one & Hrun3 & Hw3 & Hh3 & _ & _ & Hmaps3).
  { by rewrite Hcw, Hch. }
  rewrite Hcw in Hw3, Hmaps3. rewrite Hch in Hh3, Hmaps3.
  exists mid, fin, one. repeat (split; [done|]).
  intros x y Hx Hy.
  destruct (source_compose first second width height x y Hx Hy)
    as ((Hmx & Hmy) & Hsx & Hsy).
  fold midwidth midheight finwidth finheight in Hmx, Hmy, Hsx, Hsy.
  destruct (Hmaps2 x y Hx Hy) as (cell & Hmidcell & Hfincell).
  destruct (Hmaps1 _ _ Hmx Hmy) as (cell1 & Hsrccell & Hmidcell').
  destruct (Hmaps3 x y Hx Hy) as (cell3 & Hsrccell3 & Honecell).
  rewrite Hsx, Hsy in Hsrccell.
  exists cell. split; [done|]. congruence.
Qed.

(** Rotating a 2 x 2 image by 90 degrees and then mirroring it. *)
Lemma transforms_compose_witness :
  exists mid fin one,
    transform_and_copy LittleEndian packed_surface_create markers_2x2 2 2 8
      WL_OUTPUT_TRANSFORM_90 = Some (Some mid) /\
    transform_and_copy LittleEndian packed_surface_create (surf_data mid)
      (surf_width mid) (surf_height mid) (surf_stride mid)
      WL_OUTPUT_TRANSFORM_FLIPPED = Some (Some fin) /\
    transform_and_copy LittleEndian packed_surface_create markers_2x2 2 2 8
      WL_OUTPUT_TRANSFORM_FLIPPED_90 = Some (Some one) /\
    surf_width fin = 2 /\ surf_height fin = 2 /\
    surf_width one = 2 /\ surf_height one = 2 /\
    same_cells (surf_data fin) (surf_stride fin)
               (surf_data one) (surf_stride one) 2 2.
Proof.
  apply (transforms_compose LittleEndian packed_surface_create
           WL_OUTPUT_TRANSFORM_90 WL_OUTPUT_TRANSFORM_FLIPPED
           markers_2x2 2 2 8).
  - apply packed_surface_creator.
  - unfold fits. simpl. lia.
  - simpl. eauto.
  - simpl. eauto.
Defined.

(** * Properties of [render_background_image] *)

Section RenderFacts.
Variable double : Type.
Variable double_of_int : Z -> double.
Variables fdiv fsub : double -> double -> double.
Variable fgt : double -> double -> bool.
Variable int_of_double : double -> Z.
Variable ndebug : bool.

(** X13: for the five drawable modes a run is [cairo_save], then calls
    that set the source exactly once and neither save, restore nor paint,
    then the bilinear filter, one paint with the given alpha and
    [cairo_restore].  For the solid-colour and invalid modes the
    assertion fails right after [cairo_save] and nothing is painted; with
    assertions compiled out the run paints without having set a source. *)
Theorem render_call_sequence image mode buffer_width buffer_height alpha :
  if drawable mode
  then exists body,
    render_background_image double double_of_int fdiv fsub fgt
      int_of_double ndebug image mode buffer_width buffer_height alpha =
      Painted (Cairo_save :: body
               ++ [Cairo_pattern_set_filter_bilinear;
                   Cairo_paint_with_alpha alpha; Cairo_restore]) /\
    length (filter (fun c => sets_source c = true) body) = 1%nat /\
    Forall plain_call body
  else
    render_background_image double double_of_int fdiv fsub fgt
      int_of_double ndebug image mode buffer_width buffer_height alpha =
      if ndebug
      then Painted [Cairo_save; Cairo_pattern_set_filter_bilinear;
                    Cairo_paint_with_alpha alpha; Cairo_restore]
      else Assertion_failed [Cairo_save].
Proof.
  destruct mode; cbn [drawable render_background_image];
    try (destruct (fgt _ _));
    try (eexists; split; [reflexivity|]; split; [reflexivity|];
         repeat (apply List.Forall_cons; [exact I|]); apply List.Forall_nil);
    by destruct ndebug.
Qed.

(** X14: the stretch, fill and fit modes call [cairo_scale] exactly once,
    the other modes never.  Stretch scales the two axes independently,
    by buffer width over image width and buffer height over image height;
    fill and fit scale both axes by the same one of these two factors,
    and always by different ones: when the window ratio is greater than
    the image ratio fill takes the width factor and fit the height
    factor, otherwise the other way round. *)
Theorem render_scaling image mode buffer_width buffer_height alpha :
  let by_width :=
    fdiv (double_of_int buffer_width) (double_of_int (surf_width image)) in
  let by_height :=
    fdiv (double_of_int buffer_height) (double_of_int (surf_height image)) in
  let wider :=
    fgt (fdiv (double_of_int buffer_width) (double_of_int buffer_height))
        (fdiv (double_of_int (surf_width image))
              (double_of_int (surf_height image))) in
  scale_factors (calls_of
    (render_background_image double double_of_int fdiv fsub fgt
       int_of_double ndebug image mode buffer_width buffer_height alpha)) =
    match mode with
    | BACKGROUND_MODE_STRETCH => [(by_width, by_height)]
    | BACKGROUND_MODE_FILL =>
        if wider then [(by_width, by_width)] else [(by_height, by_height)]
    | BACKGROUND_MODE_FIT =>
        if wider then [(by_height, by_height)] else [(by_width, by_width)]
    | _ => []
    end.
Proof.
  cbv zeta.
  destruct mode; cbn [render_background_image];
    try destruct (fgt _ _); try destruct ndebug; reflexivity.
Qed.

(** A drawable mode sets its source once between [cairo_save] and the
    filter, paint and [cairo_restore]. *)
Lemma render_drawable_shape image mode buffer_width buffer_height alpha :
  drawable mode = true ->
  exists body,
    render_background_image double double_of_int fdiv fsub fgt
      int_of_double ndebug image mode buffer_width buffer_height alpha =
      Painted (Cairo_save :: body
               ++ [Cairo_pattern_set_filter_bilinear;
                   Cairo_paint_with_alpha alpha; Cairo_restore]) /\
    length (filter (fun c => sets_source c = true) body) = 1%nat /\
    Forall plain_call body.
Proof.
  destruct mode; try done; intros _; cbn [render_background_image];
    try (destruct (fgt _ _));
    (eexists; split; [reflexivity|]; split; [reflexivity|];
     repeat (apply List.Forall_cons; [exact I|]); apply List.Forall_nil).
Qed.

Lemma parse_background_mode_keyword mode :
  parse_background_mode mode =
    match keyword_mode (c_str mode) with
    | Some m => (m, [])
    | None => (BACKGROUND_MODE_INVALID,
               [(LOG_ERROR, Unsupported_background_mode mode)])
    end.
Proof.
  unfold parse_background_mode, keyword_mode.
  repeat (case_decide as H;
    [ apply strcmp_keyword in H; [|reflexivity]; by rewrite H
    | rewrite strcmp_keyword in H by reflexivity;
      apply not_true_is_false in H; rewrite H; clear H ]).
  done.
Qed.

(** X15: rendering with the mode that [parse_background_mode] returns
    paints with a source set exactly when the string is one of stretch,
    fill, fit, center and tile: then parsing logs nothing and the run is
    [cairo_save], calls that set the source exactly once, the filter, one
    paint and [cairo_restore].  For solid_color and for every
    unrecognised string no source is set: the assertion of
    [render_background_image] fails right after [cairo_save], and with
    assertions compiled out the run is save, filter, paint, restore. *)
Theorem parse_then_render text image buffer_width buffer_height alpha :
  let mode := fst (parse_background_mode text) in
  if (String.eqb (c_str text) "stretch" || String.eqb (c_str text) "fill"
      || String.eqb (c_str text) "fit" || String.eqb (c_str text) "center"
      || String.eqb (c_str text) "tile")%bool
  then exists body,
    render_background_image double double_of_int fdiv fsub fgt
      int_of_double ndebug image mode buffer_width buffer_height alpha =
      Painted (Cairo_save :: body
               ++ [Cairo_pattern_set_filter_bilinear;
                   Cairo_paint_with_alpha alpha; Cairo_restore]) /\
    length (filter (fun c => sets_source c = true) body) = 1%nat /\
    Forall plain_call body /\
    snd (parse_background_mode text) = []
  else
    render_background_image double double_of_int fdiv fsub fgt
      int_of_double ndebug image mode buffer_width buffer_height alpha =
      if ndebug
      then Painted [Cairo_save; Cairo_pattern_set_filter_bilinear;
                    Cairo_paint_with_alpha alpha; Cairo_restore]
      else Assertion_failed [Cairo_save].
Proof.
  cbv zeta. rewrite parse_background_mode_keyword. unfold keyword_mode.
  assert (forall mode, drawable mode = true ->
    exists body,
      render_background_image double double_of_int fdiv fsub fgt
        int_of_double ndebug image (fst (mode, @nil log_entry))
        buffer_width buffer_height alpha =
        Painted (Cairo_save :: body
                 ++ [Cairo_pattern_set_filter_bilinear;
                     Cairo_paint_with_alpha alpha; Cairo_restore]) /\
      length (filter (fun c => sets_source c = true) body) = 1%nat /\
      Forall plain_call body /\
      snd (mode, @nil log_entry) = []) as Hdraw.
  { intros mode Hmode.
    destruct (render_drawable_shape image mode buffer_width buffer_height
                alpha Hmode) as (body & Hrun & Hone & Hplain).
    by exists body. }
  destruct (String.eqb (c_str text) "stretch"); [by apply Hdraw|].
  destruct (String.eqb (c_str text) "fill"); [by apply Hdraw|].
  destruct (String.eqb (c_str text) "fit"); [by apply Hdraw|].
  destruct (String.eqb (c_str text) "center"); [by apply Hdraw|].
  destruct (String.eqb (c_str text) "tile"); [by apply Hdraw|].
  destruct (String.eqb (c_str text) "solid_color"); reflexivity.
Qed.

End RenderFacts.

(** * Images too large for [int] offsets *)

Lemma pixel_offset_row_overflow y stride x n :
  INT_MAX < y * stride -> pixel_offset y stride x n = None.
Proof.
  intros H. unfold pixel_offset, int_arith.
  destruct (decide (INT_MIN <= y * stride <= INT_MAX)); [lia|done].
Qed.

Lemma nest_overflow (cols : Z -> list Z)
    (body : Z -> Z -> list byte -> option (list byte))
    width height stride buf :
  (forall n, 0 < n -> 0 ∈ cols n) ->
  (forall y x s, INT_MAX < y * stride -> body y x s = None) ->
  0 < width -> 0 < height -> INT_MAX < (height - 1) * stride ->
  for_loop (upto height) (fun y => for_loop (cols width) (body y)) buf
    = None.
Proof.
  intros Hcols Hbody Hw Hh Hover.
  apply (for_loop_none _ _ _ (height - 1)); [apply elem_of_upto; lia|].
  intros s. apply (for_loop_none _ _ _ 0); [by apply Hcols|].
  intros t. by apply Hbody.
Qed.

(** X16: the kernels compute row offsets as [int] products: on an image
    with at least one pixel whose last row starts beyond [INT_MAX] bytes
    ([(height - 1) * stride > INT_MAX]) no kernel has a defined result,
    whatever the buffer. *)
Theorem kernels_overflow_on_large_images :
  Forall (fun k : kernel =>
    forall e buf width height stride,
      0 < width -> 0 < height -> INT_MAX < (height - 1) * stride ->
      k e buf width height stride = None)
    normalization_kernels.
Proof.
  unfold normalization_kernels.
  do 6 (apply List.Forall_cons;
    [intros e buf width height stride;
     apply (nest_overflow upto); [intros n Hn; apply elem_of_upto; lia|];
     intros y x s Hover; by rewrite pixel_offset_row_overflow|]).
  apply List.Forall_cons.
  { intros e buf width height stride Hw Hh Hover. rewrite bgr888_nest.
    case_decide; [|by rewrite decide_True].
    apply (nest_overflow (fun n => downfrom (n - 1))
             (widen_bgr888_pixel e stride) width height stride buf);
      [intros n Hn; apply elem_of_downfrom; lia| |done..].
    intros y x s Hy. unfold widen_bgr888_pixel.
    rewrite (pixel_offset_row_overflow y stride x 3 Hy). done. }
  apply List.Forall_cons; [|apply List.Forall_nil].
  intros e buf width height stride.
  apply (nest_overflow upto); [intros n Hn; apply elem_of_upto; lia|].
  intros y x s Hover. by rewrite pixel_offset_row_overflow.
Qed.

(** A 32767 x 32767 image with rows of 131068 bytes: the offset of its
    last row does not fit an [int]. *)
Lemma kernels_overflow_on_large_images_witness :
  cairo_rgb24_from_xrgb32_le LittleEndian [] 32767 32767 131068 = None.
Proof.
  apply (Forall_inv kernels_overflow_on_large_images);
    unfold INT_MAX; lia.
Defined.

(** * What a run that returns has read and written *)

(** Every step of a loop that returns has returned. *)
Lemma for_loop_Some_each {A} (Q : A -> Prop) idx
    (body : Z -> A -> option A) a a' :
  (forall i s s', i ∈ idx -> Q s -> body i s = Some s' -> Q s') ->
  Q a -> for_loop idx body a = Some a' ->
  forall i, i ∈ idx -> exists s s', Q s /\ body i s = Some s'.
Proof.
  revert a. induction idx as [|j idx IH]; intros a Hstep Ha Hrun i Hi.
  - by apply elem_of_nil in Hi.
  - simpl in Hrun. destruct (body j a) as [s|] eqn:Hbody; [|done].
    apply elem_of_cons in Hi as [->|Hi]; [by eauto|].
    apply (IH s); [| |done|done].
    + intros k t t' Hk. apply Hstep. by right.
    + eapply Hstep; [by left|done..].
Qed.

Lemma nest_Some_each (Q : list byte -> Prop) rows cols
    (body : Z -> Z -> list byte -> option (list byte)) a a' :
  (forall y x s s', y ∈ rows -> x ∈ cols -> Q s ->
     body y x s = Some s' -> Q s') ->
  Q a ->
  for_loop rows (fun y => for_loop cols (body y)) a = Some a' ->
  forall y x, y ∈ rows -> x ∈ cols ->
    exists s s', Q s /\ body y x s = Some s'.
Proof.
  intros Hstep Ha Hrun y x Hy Hx.
  destruct (for_loop_Some_each Q rows
              (fun y => for_loop cols (body y)) a a') with (i := y)
    as (s & s' & Hs & Hrow); [|done..|].
  - intros i s s' Hi Hs. apply (for_loop_preserves Q); [|done].
    intros j t t' Hj. by apply Hstep.
  - apply (for_loop_Some_each Q cols (body y) s s'); [|done..].
    intros j t t' Hj. by apply Hstep.
Qed.

(** ** The per-pixel transforms *)

Lemma copy_pixel_in_range e srcbuf srcstride srcx srcy dest deststride
    destx desty dest' :
  copy_pixel e srcbuf srcstride srcx srcy dest deststride destx desty
    = Some dest' ->
  Mem.in_range srcbuf (srcy * srcstride + srcx * 4) 4 /\
  Mem.in_range dest (desty * deststride + destx * 4) 4.
Proof.
  unfold copy_pixel, load32, store32, Mem.bytes_at, Mem.write_bytes.
  case_decide as Hsrc; [|done]. cbn [fmap option_fmap option_map mbind
    option_bind]. rewrite cell_of_word_length.
  case_decide as Hdest; [|done]. done.
Qed.

Lemma per_pixel_copy_in_range e srcx srcy srcbuf srcstride dest0
    destwidth destheight deststride dest' :
  per_pixel_copy e srcx srcy srcbuf srcstride
                 dest0 destwidth destheight deststride = Some dest' ->
  forall destx desty, 0 <= destx < destwidth -> 0 <= desty < destheight ->
    Mem.in_range srcbuf (srcy destx desty * srcstride
                         + srcx destx desty * 4) 4 /\
    Mem.in_range dest0 (desty * deststride + destx * 4) 4.
Proof.
  intros Hrun destx desty Hx Hy. unfold per_pixel_copy in Hrun.
  destruct (nest_Some_each (fun s => length s = length dest0)
              (upto destheight) (upto destwidth)
              (fun desty destx destbuf =>
                 copy_pixel e srcbuf srcstride (srcx destx desty)
                   (srcy destx desty) destbuf deststride destx desty)
              dest0 dest') with (y := desty) (x := destx)
    as (s & s' & Hs & Hcopy); [|done|done|by apply elem_of_upto..|].
  - intros y x s s' _ _ Hs Hcopy. rewrite <- Hs.
    by eapply copy_pixel_length.
  - apply copy_pixel_in_range in Hcopy as [Hsrc Hdest]. split; [done|].
    unfold Mem.in_range in *. by rewrite <- Hs.
Qed.

(** The six transforms that are not done by [memcpy] read a four-byte
    cell for every destination cell. *)
Lemma transform_switch_in_range e transform srcbuf srcstride dest0
    destwidth destheight deststride dest' :
  transform <> WL_OUTPUT_TRANSFORM_NORMAL ->
  transform <> WL_OUTPUT_TRANSFORM_FLIPPED_180 ->
  transform_switch e transform srcbuf srcstride
                   dest0 destwidth destheight deststride = Some dest' ->
  forall destx desty, 0 <= destx < destwidth -> 0 <= desty < destheight ->
    Mem.in_range srcbuf
      (source_y transform destwidth destheight destx desty * srcstride
       + source_x transform destwidth destheight destx desty * 4) 4 /\
    Mem.in_range dest0 (desty * deststride + destx * 4) 4.
Proof.
  intros Hn Hf Hrun.
  destruct transform; try done;
    exact (per_pixel_copy_in_range e _ _ srcbuf srcstride dest0
             destwidth destheight deststride dest' Hrun).
Qed.

Lemma load_reads_cells host create buf format width height stride
    transform image log :
  surface_creator create ->
  transform <> WL_OUTPUT_TRANSFORM_NORMAL ->
  transform <> WL_OUTPUT_TRANSFORM_FLIPPED_180 ->
  load_background_from_buffer host create buf format width height stride
    transform = Some (Some image, log) ->
  forall x y, 0 <= x < width -> 0 <= y < height ->
    Mem.in_range buf (y * stride + x * 4) 4.
Proof.
  intros Hcreate Hn Hf Hload x y Hx Hy.
  unfold load_background_from_buffer, transform_and_copy in Hload.
  set (destwidth := if rotated transform then height else width) in *.
  set (destheight := if rotated transform then width else height) in *.
  replace (if rotated transform then create height width
           else create width height) with (create destwidth destheight)
    in Hload
    by (subst destwidth destheight; by destruct (rotated transform)).
  destruct (create destwidth destheight) as [image0|] eqn:Himage0; [|done].
  destruct (Hcreate _ _ _ Himage0) as (Hw & Hh & _).
  cbv beta iota zeta in Hload. rewrite Hw, Hh in Hload.
  destruct (transform_switch _ _ _ _ _ _ _ _) as [dest'|] eqn:Hts; [|done].
  destruct (source_inverse transform width height x y Hx Hy)
    as ((Hdx & Hdy) & Hsx & Hsy).
  fold destwidth destheight in Hdx, Hdy, Hsx, Hsy.
  destruct (transform_switch_in_range _ _ _ _ _ _ _ _ _ Hn Hf Hts _ _
              Hdx Hdy) as [Hsrc _].
  by rewrite Hsx, Hsy in Hsrc.
Qed.

(** X17: the six transforms that copy pixel by pixel (all but normal and
    flipped-180) read four bytes for every pixel, whatever the format:
    when the loader returns a surface, the four-byte cell of every pixel
    of the source image lies inside the source buffer. *)
Theorem load_reads_four_byte_cells host create buf format width height
    stride transform image log :
  surface_creator create ->
  transform <> WL_OUTPUT_TRANSFORM_NORMAL ->
  transform <> WL_OUTPUT_TRANSFORM_FLIPPED_180 ->
  load_background_from_buffer host create buf format width height stride
    transform = Some (Some image, log) ->
  forall x y, 0 <= x < width -> 0 <= y < height ->
    Mem.in_range buf (y * stride + x * 4) 4.
Proof. apply load_reads_cells. Qed.

(** The last cell of the 2 x 2 image of marked cells, rotated. *)
Lemma load_reads_four_byte_cells_witness :
  Mem.in_range markers_2x2 (1 * 8 + 1 * 4) 4.
Proof.
  eapply (load_reads_four_byte_cells LittleEndian packed_surface_create
            markers_2x2 WL_SHM_FORMAT_XRGB8888 2 2 8 WL_OUTPUT_TRANSFORM_90).
  - apply packed_surface_creator.
  - done.
  - done.
  - vm_compute. reflexivity.
  - lia.
  - lia.
Defined.

(** X18: a buffer of exactly [height * stride] bytes with rows of
    [3 * width] bytes, which is all a BGR888 or RGB888 image needs, cannot
    be loaded with any of the six per-pixel transforms, whatever the
    format: the copy reads past the end of the buffer, so the load has no
    defined result. *)
Theorem load_three_byte_rows_per_pixel_transform host create format buf
    width height transform :
  let destwidth := if rotated transform then height else width in
  let destheight := if rotated transform then width else height in
  surface_creator create ->
  is_Some (create destwidth destheight) ->
  transform <> WL_OUTPUT_TRANSFORM_NORMAL ->
  transform <> WL_OUTPUT_TRANSFORM_FLIPPED_180 ->
  0 < width -> 0 < height ->
  Z.of_nat (length buf) = height * (3 * width) ->
  load_background_from_buffer host create buf format width height
    (3 * width) transform = None.
Proof.
  intros destwidth destheight Hcreate [image0 Himage0] Hn Hf Hw Hh Hlen.
  destruct (load_background_from_buffer host create buf format width height
              (3 * width) transform) as [[[image|] log]|] eqn:Hload;
    [| |done].
  - destruct (load_reads_cells _ _ _ _ _ _ _ _ _ _ Hcreate Hn Hf Hload
                (width - 1) (height - 1)) as (_ & _ & Hend); [lia..|].
    nia.
  - apply load_outcome in Hload as [Hnone _]; [|done].
    fold destwidth destheight in Hnone. congruence.
Qed.

(** Two BGR888 pixels side by side, six bytes, rotated. *)
Lemma load_three_byte_rows_per_pixel_transform_witness :
  load_background_from_buffer LittleEndian packed_surface_create
    [Byte.x01; Byte.x02; Byte.x03; Byte.x11; Byte.x12; Byte.x13]
    WL_SHM_FORMAT_BGR888 2 1 (3 * 2) WL_OUTPUT_TRANSFORM_90 = None.
Proof.
  apply (load_three_byte_rows_per_pixel_transform LittleEndian
           packed_surface_create WL_SHM_FORMAT_BGR888
           [Byte.x01; Byte.x02; Byte.x03; Byte.x11; Byte.x12; Byte.x13]
           2 1 WL_OUTPUT_TRANSFORM_90).
  - apply packed_surface_creator.
  - simpl. eauto.
  - done.
  - done.
  - lia.
  - lia.
  - reflexivity.
Defined.

(** ** The kernels stay inside the buffer *)

Lemma write_bytes_in_range buf a bs buf' :
  Mem.write_bytes buf a bs = Some buf' ->
  Mem.in_range buf a (Z.of_nat (length bs)).
Proof. unfold Mem.write_bytes. by case_decide. Qed.

(** A loop nest whose steps each overwrite the cell of their pixel
    returns only if every cell lies inside the buffer. *)
Lemma nest_in_range (cols : Z -> list Z)
    (body : Z -> Z -> list byte -> option (list byte))
    width height stride buf buf' :
  (forall n i, 0 <= i < n -> i ∈ cols n) ->
  (forall y x s s', body y x s = Some s' ->
     exists bs, length bs = 4%nat /\
       Mem.write_bytes s (y * stride + x * 4) bs = Some s') ->
  for_loop (upto height) (fun y => for_loop (cols width) (body y)) buf
    = Some buf' ->
  forall y x, 0 <= y < height -> 0 <= x < width ->
    Mem.in_range buf (y * stride + x * 4) 4.
Proof.
  intros Hcols Hbody Hrun y x Hy Hx.
  destruct (nest_Some_each (fun s => length s = length buf)
              (upto height) (cols width) body buf buf')
    with (y := y) (x := x) as (s & s' & Hs & Hstep);
    [|done|done|by apply elem_of_upto|by apply Hcols|].
  - intros y0 x0 t t' _ _ Ht Hstep.
    destruct (Hbody _ _ _ _ Hstep) as (bs & _ & Hw).
    rewrite <- Ht. by eapply write_bytes_length.
  - destruct (Hbody _ _ _ _ Hstep) as (bs & Hbs & Hw).
    apply write_bytes_in_range in Hw. rewrite Hbs in Hw.
    unfold Mem.in_range in *. by rewrite <- Hs.
Qed.

(** X19: a kernel returns only if the four-byte cell of every pixel of
    the image lies inside the buffer: on a buffer that is too short for
    the image no kernel has a defined result, so a kernel that returns
    has read and written nothing outside the buffer. *)
Theorem kernels_stay_inside_buffer :
  Forall (fun k : kernel =>
    forall e buf width height stride buf',
      k e buf width height stride = Some buf' ->
      forall y x, 0 <= y < height -> 0 <= x < width ->
        Mem.in_range buf (y * stride + x * 4) 4)
    normalization_kernels.
Proof.
  unfold normalization_kernels.
  do 6 (apply List.Forall_cons;
    [intros e buf width height stride buf';
     apply (nest_in_range upto); [intros n i; apply elem_of_upto|];
     kernel_step|]).
  apply List.Forall_cons.
  { intros e buf width height stride buf'. rewrite bgr888_nest.
    case_decide; [|case_decide; [done|intros _ y x; lia]].
    apply (nest_in_range (fun n => downfrom (n - 1)));
      [intros n i; apply elem_of_downfrom|].
    intros y x s s'. apply widen_bgr888_pixel_writes_cell. }
  apply List.Forall_cons; [|apply List.Forall_nil].
  intros e buf width height stride buf'.
  apply (nest_in_range upto); [intros n i; apply elem_of_upto|].
  kernel_step.
Qed.

(** One pixel in a row of 8 bytes. *)
Lemma kernels_stay_inside_buffer_witness :
  Mem.in_range [Byte.x10; Byte.x20; Byte.x30; Byte.xff;
                Byte.x55; Byte.x66; Byte.x77; Byte.x88]
               (0 * 8 + 0 * 4) 4.
Proof.
  apply (Forall_inv kernels_stay_inside_buffer LittleEndian _ 1 1 8
           [Byte.x10; Byte.x20; Byte.x30; Byte.x00;
            Byte.x55; Byte.x66; Byte.x77; Byte.x88]).
  - vm_compute. reflexivity.
  - lia.
  - lia.
Defined.
